(** * legado-rule: the rule grammar and the combinator evaluation engine

    A shallow embedding of the book-source rule engine:
    - [src/types.js]                  ([isEmpty], [RuleParseError])
    - [src/operators/fallback.js]     ([fallbackOperator], [parseFallbackRule],
                                      [conditionalFallbackOperator],
                                      [validateFallbackRules])
    - [src/operators/concat.js]       ([concatOperator], [parseConcatRule])
    - [src/operators/regex-clean.js]  ([regexCleanOperator], [parseCleanRule], ...)
    - [src/selectors/text.js], [src/selectors/css.js]
    - [src/selectors/json.js], [src/selectors/js.js], [src/selectors/xpath.js],
      [src/selectors/regex.js]        (the selectors, over their libraries)
    - [src/rule-engine.js]            (class [RuleEngine], with [validateRule])
    - [src/engine.js]                 (class [BookSourceRuleEngine], with the cache)

    JavaScript strings are sequences of UTF-16 code units, values are the
    JSON-like fragment of JavaScript values, a [throw] is the [Thrown]
    completion, and a recursion that the source does not bound is run with
    fuel ([None] stands for a computation that has not returned) or on a
    bounded call stack.  The promises that [BookSourceRuleEngine] leaves
    rejected are a state of their own. *)

From Stdlib Require Import List NArith ZArith Bool Arith Lia String Ascii.
From Stdlib Require Import DecimalString.
Import ListNotations.

Set Implicit Arguments.
Set Warnings "-register-all".

(* ================================================================== *)
(** ** JavaScript strings *)

Module JsString.

(** A string is the list of its UTF-16 code units. *)
Definition jsstring := list N.

(** An ASCII literal. *)
Definition u (s : string) : jsstring :=
  map N_of_ascii (list_ascii_of_string s).

Fixpoint str_eqb (a b : jsstring) : bool :=
  match a, b with
  | [], [] => true
  | x :: a', y :: b' => N.eqb x y && str_eqb a' b'
  | _, _ => false
  end.

(** WhiteSpace and LineTerminator of ECMAScript: what [String.prototype.trim]
    strips and what the regular expression class [\s] matches. *)
Definition is_ws (c : N) : bool :=
  ((9 <=? c) && (c <=? 13) || (c =? 32) || (c =? 160) || (c =? 5760)
   || (8192 <=? c) && (c <=? 8202) || (c =? 8232) || (c =? 8233)
   || (c =? 8239) || (c =? 8287) || (c =? 12288) || (c =? 65279))%N.

(** LineTerminator: the code units that [.] does not match. *)
Definition is_line_terminator (c : N) : bool :=
  ((c =? 10) || (c =? 13) || (c =? 8232) || (c =? 8233))%N.

Fixpoint dropWhile (p : N -> bool) (s : jsstring) : jsstring :=
  match s with
  | [] => []
  | c :: rest => if p c then dropWhile p rest else s
  end.

Fixpoint takeWhile (p : N -> bool) (s : jsstring) : jsstring :=
  match s with
  | [] => []
  | c :: rest => if p c then c :: takeWhile p rest else []
  end.

(** [s.replace(/^\s+/, '')] *)
Definition trimStart (s : jsstring) : jsstring := dropWhile is_ws s.
Definition trimEnd (s : jsstring) : jsstring := rev (dropWhile is_ws (rev s)).
(** [s.trim()] *)
Definition trim (s : jsstring) : jsstring := trimEnd (trimStart s).

(** [/\s+$/.test(s)] *)
Definition endsWithSpace (s : jsstring) : bool :=
  match rev s with
  | [] => false
  | c :: _ => is_ws c
  end.

Fixpoint startsWith (p s : jsstring) : bool :=
  match p, s with
  | [], _ => true
  | x :: p', y :: s' => N.eqb x y && startsWith p' s'
  | _ :: _, [] => false
  end.

Definition endsWith (p s : jsstring) : bool := startsWith (rev p) (rev s).

(** [s.includes(sub)] *)
Fixpoint includes (sub s : jsstring) : bool :=
  startsWith sub s ||
  match s with
  | [] => false
  | _ :: rest => includes sub rest
  end.

(** [s.substring(n)] *)
Definition substring (n : nat) (s : jsstring) : jsstring := skipn n s.
(** [s.slice(a, b)] for [0 <= a] and [0 <= b] *)
Definition slice (a b : nat) (s : jsstring) : jsstring := firstn (b - a) (skipn a s).
(** [s.slice(1, -1)] *)
Definition slice_1_m1 (s : jsstring) : jsstring := firstn (List.length s - 2) (skipn 1 s).

(** [l.join(sep)] on an array of strings *)
Fixpoint join (sep : jsstring) (l : list jsstring) : jsstring :=
  match l with
  | [] => []
  | [x] => x
  | x :: rest => x ++ sep ++ join sep rest
  end.

(** [s.split(c)] for a separator of one code unit. *)
Fixpoint split_char (c : N) (cur s : jsstring) : list jsstring :=
  match s with
  | [] => [cur]
  | x :: rest =>
      if N.eqb x c then cur :: split_char c [] rest
      else split_char c (cur ++ [x]) rest
  end.

(** [s.split("##")]: the separator occurrences are taken left to right and do
    not overlap. *)
Fixpoint split_hashes (cur s : jsstring) : list jsstring :=
  match s with
  | [] => [cur]
  | x :: rest =>
      match rest with
      | y :: rest' =>
          if N.eqb x 35 && N.eqb y 35 then cur :: split_hashes [] rest'
          else split_hashes (cur ++ [x]) rest
      | [] => [cur ++ [x]]
      end
  end.

(** [String(n)] for an index. *)
Definition of_nat (n : nat) : jsstring :=
  u (NilZero.string_of_uint (Nat.to_uint n)).

(** [String(z)] for an integer. *)
Definition of_Z (z : Z) : jsstring :=
  match z with
  | Zneg p => 45%N :: of_nat (Pos.to_nat p)
  | _ => of_nat (Z.to_nat z)
  end.

End JsString.
Import JsString.

(* ================================================================== *)
(** ** JavaScript values and the emptiness predicate of [types.js] *)

(** The values that selectors produce.  A number is integer-valued; the keys
    of an object are listed in property enumeration order. *)
Inductive value : Type :=
| VUndefined
| VNull
| VBool (b : bool)
| VNum (z : Z)
| VStr (s : jsstring)
| VArr (items : list value)
| VObj (props : list (jsstring * value)).

(** [types.js], [isEmpty]:
    null, undefined and the empty string; an array of length 0; an object
    without keys. *)
Definition isEmpty (v : value) : bool :=
  match v with
  | VNull | VUndefined => true
  | VStr s => match s with [] => true | _ => false end
  | VArr items => match items with [] => true | _ => false end
  | VObj props => match props with [] => true | _ => false end
  | VBool _ | VNum _ => false
  end.

(** ToBoolean, as used by [lastResult.data || null]. *)
Definition truthy (v : value) : bool :=
  match v with
  | VUndefined | VNull => false
  | VBool b => b
  | VNum z => negb (Z.eqb z 0)
  | VStr s => match s with [] => false | _ => true end
  | VArr _ | VObj _ => true
  end.

(** [String(v)] *)
Fixpoint js_String (v : value) : jsstring :=
  match v with
  | VUndefined => u "undefined"
  | VNull => u "null"
  | VBool true => u "true"
  | VBool false => u "false"
  | VNum z => of_Z z
  | VStr s => s
  | VArr items =>
      join (u ",")
        (map (fun e => match e with
                       | VUndefined | VNull => []
                       | _ => js_String e
                       end) items)
  | VObj _ => u "[object Object]"
  end.

(** [arr.join(sep)] on an array of values. *)
Definition array_join (sep : jsstring) (items : list value) : jsstring :=
  join sep (map (fun e => match e with
                          | VUndefined | VNull => []
                          | _ => js_String e
                          end) items).

(** *** [JSON.stringify] *)

Definition hex_digit (n : N) : N :=
  (if n <? 10 then 48 + n else 87 + n)%N.

Definition hex4 (c : N) : jsstring :=
  [hex_digit (N.modulo (N.div c 4096) 16); hex_digit (N.modulo (N.div c 256) 16);
   hex_digit (N.modulo (N.div c 16) 16); hex_digit (N.modulo c 16)].

Definition is_high_surrogate (c : N) : bool := ((55296 <=? c) && (c <=? 56319))%N.
Definition is_low_surrogate (c : N) : bool := ((56320 <=? c) && (c <=? 57343))%N.

(** QuoteJSONString without the surrounding quotes; [prev_high] tells that
    the previous code unit was a high surrogate paired with this one. *)
Fixpoint json_escape (prev_high : bool) (s : jsstring) : jsstring :=
  match s with
  | [] => []
  | c :: rest =>
      let next_low := match rest with d :: _ => is_low_surrogate d | [] => false end in
      if (c =? 34)%N then u "\" ++ [34%N] ++ json_escape false rest
      else if (c =? 92)%N then u "\\" ++ json_escape false rest
      else if (c =? 8)%N then u "\b" ++ json_escape false rest
      else if (c =? 12)%N then u "\f" ++ json_escape false rest
      else if (c =? 10)%N then u "\n" ++ json_escape false rest
      else if (c =? 13)%N then u "\r" ++ json_escape false rest
      else if (c =? 9)%N then u "\t" ++ json_escape false rest
      else if (c <? 32)%N then u "\u" ++ hex4 c ++ json_escape false rest
      else if is_high_surrogate c then
        if next_low then c :: json_escape true rest
        else u "\u" ++ hex4 c ++ json_escape false rest
      else if is_low_surrogate c then
        if prev_high then c :: json_escape false rest
        else u "\u" ++ hex4 c ++ json_escape false rest
      else c :: json_escape false rest
  end.

Definition json_quote (s : jsstring) : jsstring :=
  [34%N] ++ json_escape false s ++ [34%N].

(** [JSON.stringify(v)]; [None] is the result [undefined]. *)
Fixpoint JSON_stringify (v : value) : option jsstring :=
  match v with
  | VUndefined => None
  | VNull => Some (u "null")
  | VBool true => Some (u "true")
  | VBool false => Some (u "false")
  | VNum z => Some (of_Z z)
  | VStr s => Some (json_quote s)
  | VArr items =>
      Some (u "[" ++
            join (u ",")
              (map (fun e => match JSON_stringify e with
                             | Some s => s
                             | None => u "null"
                             end) items) ++
            u "]")
  | VObj props =>
      Some (u "{" ++
            join (u ",")
              (flat_map (fun kv => match JSON_stringify (snd kv) with
                                   | Some s => [json_quote (fst kv) ++ u ":" ++ s]
                                   | None => []
                                   end) props) ++
            u "}")
  end.

(* ================================================================== *)
(** ** Exceptions, completions and the result record *)

Inductive ErrorName := Error | TypeError | SyntaxError | RangeError | RuleParseError.

(** A thrown [Error] object: its constructor and its [message]. *)
Record exn := mkExn { name : ErrorName; message : jsstring }.

(** How a call ends: it returns a value or throws. *)
Inductive completion (A : Type) : Type :=
| Normal (a : A)
| Thrown (e : exn).
Arguments Normal {A} a.
Arguments Thrown {A} e.

(** One entry of the [errors] array of the operators. *)
Record AttemptError := mkAttemptError {
  err_rule : jsstring;
  err_error : jsstring;
  err_index : nat
}.

(** [ParseResult] ([types.js]); an absent optional property is [None], an
    absent [errors] array is []. *)
Record ParseResult := mkResult {
  success : bool;
  data : value;
  rule : jsstring;
  selector : jsstring;
  error : option jsstring;
  errors : list AttemptError;
  usedRule : option jsstring;
  fallbackIndex : option nat;
  processedCount : option nat;
  originalData : option value;
  fromCache : bool
}.

(** A result with the four mandatory properties only. *)
Definition plain_result (ok : bool) (d : value) (r sel : jsstring) : ParseResult :=
  mkResult ok d r sel None [] None None None None false.

(* Message constants of the sources, as code units. *)
(* "rule must not be empty" *)
Definition msg_rule_empty : jsstring :=
  [35268; 21017; 19981; 33021; 20026; 31354]%N.
(* "all selectors failed: " *)
Definition msg_all_failed : jsstring :=
  [25152; 26377; 36873; 25321; 22120; 37117; 22833; 36133; 58; 32]%N.
(* "all selectors failed, the final fallback failed too: " *)
Definition msg_all_failed_final : jsstring :=
  [25152; 26377; 36873; 25321; 22120; 37117; 22833; 36133; 65292; 26368; 21518;
   20828; 24213; 20063; 22833; 36133; 58; 32]%N.
(* "illegal operator &&: it must be wrapped in single spaces" *)
Definition msg_illegal_and : jsstring :=
  [38750; 27861; 25805; 20316; 31526; 32; 34; 38; 38; 34; 65306; 24517; 39035;
   20351; 29992; 21333; 20010; 31354; 26684; 21253; 35065; 30340; 32; 34; 32;
   38; 38; 32; 34]%N.
(* "syntax error: both sides of && must be non-empty" *)
Definition msg_empty_segment : jsstring :=
  [35821; 27861; 38169; 35823; 65306; 25340; 25509; 31526; 32; 34; 32; 38; 38;
   32; 34; 32; 20004; 20391; 19981; 33021; 20026; 31354]%N.
(* "rule parsing failed: " *)
Definition msg_parse_failed : jsstring :=
  [35268; 21017; 35299; 26512; 22833; 36133; 58; 32]%N.
(* "invalid cleanup rule format" *)
Definition msg_bad_clean_format : jsstring :=
  [26080; 25928; 30340; 20928; 21270; 35268; 21017; 26684; 24335]%N.
(* "invalid cleanup rule format: " *)
Definition msg_bad_clean_rule : jsstring :=
  [26080; 25928; 30340; 20928; 21270; 35268; 21017; 26684; 24335; 58; 32]%N.
(* "regex cleanup failed: " *)
Definition msg_clean_failed : jsstring :=
  [27491; 21017; 20928; 21270; 22833; 36133; 58; 32]%N.
(* "invalid regular expression: " *)
Definition msg_bad_regex : jsstring :=
  [26080; 25928; 30340; 27491; 21017; 34920; 36798; 24335; 58; 32]%N.
(* "JavaScript selector is disabled" *)
Definition msg_js_disabled : jsstring :=
  [74; 97; 118; 97; 83; 99; 114; 105; 112; 116; 32; 36873; 25321; 22120; 24050;
   31105; 29992]%N.
(* "CSS selector parsing failed: " *)
Definition msg_css_failed : jsstring :=
  [67; 83; 83; 36873; 25321; 22120; 35299; 26512; 22833; 36133; 58; 32]%N.
(* "unsupported selector type: " *)
Definition msg_unsupported_selector : jsstring :=
  [19981; 25903; 25345; 30340; 36873; 25321; 22120; 31867; 22411; 58; 32]%N.
(* V8: reading [execute] of [undefined] *)
Definition msg_undefined_execute : jsstring :=
  u "Cannot read properties of undefined (reading 'execute')".

(* ================================================================== *)
(** ** The runtime and the engine options *)

(** The regular expression engine of the JavaScript runtime. *)
Record RegExpEngine := {
  RegExp : Type;
  (** [new RegExp(pattern, flags)]; [None] when the constructor throws *)
  RegExp_new : jsstring -> jsstring -> option RegExp;
  (** [text.replace(regex, replacement)] *)
  RegExp_replace : RegExp -> jsstring -> jsstring -> jsstring
}.

(** The properties that the operators and the engines read from an [options]
    object, with the default of each in [default_options]. *)
Record Options := {
  enableJS : bool;
  separator : jsstring;
  ignoreEmpty : bool;
  flags : jsstring;
  caseSensitive : bool;
  multiline : bool;
  dotAll : bool;
  stopOnError : bool
}.

Definition default_options : Options :=
  {| enableJS := true;
     separator := [];
     ignoreEmpty := true;
     flags := u "g";
     caseSensitive := false;
     multiline := false;
     dotAll := false;
     stopOnError := false |}.

(* ================================================================== *)
(** ** Selector objects *)

Section SelectorObjects.

(** What calling a selector may change: the operators thread a state of type
    [St] through the calls of [execute], in call order. *)
Variable St : Type.

(** The outcome of a call that may not return ([None]), and that otherwise
    returns or throws and leaves a new state. *)
Definition run (A : Type) : Type := option (completion A * St).

(** A selector object [{ rule, execute }]. *)
Record Selector := mkSelector {
  sel_rule : jsstring;
  execute : St -> run ParseResult
}.

(** [selector.rule || 'unknown'] *)
Definition rule_or_unknown (sel : Selector) : jsstring :=
  match sel_rule sel with
  | [] => u "unknown"
  | r => r
  end.

(** The template [[${e.index}] ${e.rule}: ${e.error}] of the composite message. *)
Definition show_error (e : AttemptError) : jsstring :=
  u "[" ++ of_nat (err_index e) ++ u "] " ++ err_rule e ++ u ": " ++ err_error e.

End SelectorObjects.

Arguments mkSelector {St} sel_rule execute.

(* ================================================================== *)
(** ** [operators/fallback.js] *)

Module Fallback.

Section WithState.
Variable St : Type.

(** The [for] loop of [fallbackOperator], from index [i] on.  The loop either
    returns from the function ([inl]) or runs to its end and leaves [rules]
    and [errors] ([inr]). *)
Fixpoint fallback_loop (sels : list (Selector St)) (i : nat)
    (rules : list jsstring) (errs : list AttemptError) (st : St)
  : option ((ParseResult + list jsstring * list AttemptError) * St) :=
  match sels with
  | [] => Some (inr (rules, errs), st)
  | sel :: rest =>
      let rules' := rules ++ [rule_or_unknown sel] in
      match execute sel st with
      | None => None
      | Some (Normal result, st') =>
          if success result && negb (isEmpty (data result)) then
            Some (inl {| success := true;
                         data := data result;
                         rule := join (u " || ") rules';
                         selector := u "fallback";
                         error := None;
                         errors := [];
                         usedRule := Some (rule_or_unknown sel);
                         fallbackIndex := Some i;
                         processedCount := None;
                         originalData := None;
                         fromCache := false |}, st')
          else
            fallback_loop rest (S i) rules'
              (errs ++ [mkAttemptError (rule_or_unknown sel) (u "empty result") i]) st'
      | Some (Thrown e, st') =>
          fallback_loop rest (S i) rules'
            (errs ++ [mkAttemptError (rule_or_unknown sel) (message e) i]) st'
      end
  end.

(** The result built after the loop when the last selector returned. *)
Definition fallback_failure (rules : list jsstring) (errs : list AttemptError)
    (lastSelector : Selector St) (lastResult : ParseResult) (n : nat) : ParseResult :=
  {| success := false;
     data := if truthy (data lastResult) then data lastResult else VNull;
     rule := join (u " || ") rules;
     selector := u "fallback";
     error := Some (msg_all_failed ++ join (u "; ") (map show_error errs));
     errors := [];
     usedRule := Some (rule_or_unknown lastSelector);
     fallbackIndex := Some (n - 1);
     processedCount := None;
     originalData := None;
     fromCache := false |}.

(** The result built after the loop when the last call threw. *)
Definition fallback_final_failure (rules : list jsstring) (finalError : exn) : ParseResult :=
  {| success := false;
     data := VNull;
     rule := join (u " || ") rules;
     selector := u "fallback";
     error := Some (msg_all_failed_final ++ message finalError);
     errors := [];
     usedRule := None;
     fallbackIndex := None;
     processedCount := None;
     originalData := None;
     fromCache := false |}.

(** [fallbackOperator(selectors, source, context, options)]; the source and
    the context are inside the [execute] closures.  The function has no
    [throw] of its own and catches those of the selectors. *)
Definition fallbackOperator (selectors : list (Selector St)) (st : St)
  : option (ParseResult * St) :=
  match fallback_loop selectors 0 [] [] st with
  | None => None
  | Some (inl r, st') => Some (r, st')
  | Some (inr (rules, errs), st') =>
      match last (map Some selectors) None with
      | None =>
          (* [selectors[-1]] is [undefined]: the TypeError is caught *)
          Some (fallback_final_failure rules (mkExn TypeError msg_undefined_execute), st')
      | Some lastSelector =>
          match execute lastSelector st' with
          | None => None
          | Some (Normal lastResult, st'') =>
              Some (fallback_failure rules errs lastSelector lastResult
                      (List.length selectors), st'')
          | Some (Thrown finalError, st'') =>
              Some (fallback_final_failure rules finalError, st'')
          end
      end
  end.

End WithState.

(** The [while] loop of [parseFallbackRule] over the rest of the rule string:
    [rules], [current], [inString] and [stringChar] ([None] is ['']). *)
Fixpoint fallback_scan (s : jsstring) (rules : list jsstring) (current : jsstring)
    (inString : bool) (stringChar : option N) : list jsstring * jsstring :=
  match s with
  | [] => (rules, current)
  | char :: rest =>
      if negb inString && (N.eqb char 34 || N.eqb char 39) then
        fallback_scan rest rules (current ++ [char]) true (Some char)
      else if inString && match stringChar with
                          | Some q => N.eqb char q
                          | None => false
                          end then
        fallback_scan rest rules (current ++ [char]) false None
      else
        match rest with
        | nextChar :: rest' =>
            if negb inString && N.eqb char 124 && N.eqb nextChar 124 then
              fallback_scan rest' (rules ++ [trim current]) [] inString stringChar
            else
              fallback_scan rest rules (current ++ [char]) inString stringChar
        | [] => fallback_scan rest rules (current ++ [char]) inString stringChar
        end
  end.

Definition parseFallbackRule (ruleString : jsstring) : list jsstring :=
  let '(rules, current) := fallback_scan ruleString [] [] false None in
  match trim current with
  | [] => rules
  | t => rules ++ [t]
  end.

End Fallback.

(* ================================================================== *)
(** ** [operators/concat.js] *)

Module Concat.

Section WithState.
Variable St : Type.

(** [processDataForConcat(data, result)] *)
Definition processDataForConcat (d : value) (result : ParseResult) : jsstring :=
  let is_text := str_eqb (selector result) (u "text") in
  match d with
  | VNull | VUndefined => []
  | VStr s => if is_text then s else trim s
  | VArr items =>
      match items with
      | first :: _ =>
          let firstElement := js_String first in
          if is_text then firstElement else trim firstElement
      | [] => []
      end
  | VObj _ =>
      match JSON_stringify d with
      | Some s => s
      | None => []
      end
  | VBool _ | VNum _ =>
      let stringData := js_String d in
      if is_text then stringData else trim stringData
  end.

(** The [for] loop of [concatOperator]: [results], [errors] and [rules]. *)
Fixpoint concat_loop (separator : jsstring) (ignoreEmpty : bool)
    (sels : list (Selector St)) (i : nat)
    (results : list jsstring) (errs : list AttemptError) (rules : list jsstring)
    (st : St)
  : option ((list jsstring * list AttemptError * list jsstring) * St) :=
  match sels with
  | [] => Some ((results, errs, rules), st)
  | sel :: rest =>
      let rules' := rules ++ [rule_or_unknown sel] in
      match execute sel st with
      | None => None
      | Some (Normal result, st') =>
          if success result && negb (isEmpty (data result)) then
            concat_loop separator ignoreEmpty rest (S i)
              (results ++ [processDataForConcat (data result) result]) errs rules' st'
          else if negb ignoreEmpty then
            concat_loop separator ignoreEmpty rest (S i)
              (results ++ [[]])
              (errs ++ [mkAttemptError (rule_or_unknown sel) (u "empty result") i])
              rules' st'
          else
            concat_loop separator ignoreEmpty rest (S i)
              results
              (errs ++ [mkAttemptError (rule_or_unknown sel) (u "empty result (ignored)") i])
              rules' st'
      | Some (Thrown e, st') =>
          concat_loop separator ignoreEmpty rest (S i)
            (if negb ignoreEmpty then results ++ [[]] else results)
            (errs ++ [mkAttemptError (rule_or_unknown sel) (message e) i])
            rules' st'
      end
  end.

(** [concatOperator(selectors, source, context, options)] with
    [{ separator = '', ignoreEmpty = true } = options]. *)
Definition concatOperator (separator : jsstring) (ignoreEmpty : bool)
    (selectors : list (Selector St)) (st : St) : option (ParseResult * St) :=
  match concat_loop separator ignoreEmpty selectors 0 [] [] [] st with
  | None => None
  | Some ((results, errs, rules), st') =>
      let finalResult := join separator results in
      Some ({| success := negb (isEmpty (VStr finalResult));
               data := VStr finalResult;
               rule := join (u " && ") rules;
               selector := u "concat";
               error := None;
               errors := errs;
               usedRule := None;
               fallbackIndex := None;
               processedCount := Some (List.length results);
               originalData := None;
               fromCache := false |}, st')
  end.

End WithState.

(** *** The two regular expressions of [parseConcatRule] *)

(** What a pattern matches at the start of a string: the length of the match. *)
Definition matcher := jsstring -> option nat.

(** After the opening quote [q]: the starred group of [[^q\\]] or [\\.], then
    [q].  The two alternatives of
    the group start with different code units and neither starts with [q], so
    the repetition can only stop at the first [q] met this way. *)
Fixpoint literal_tail (q : N) (s : jsstring) : option nat :=
  match s with
  | [] => None
  | c :: rest =>
      if N.eqb c q then Some 1
      else if N.eqb c 92 then
        match rest with
        | d :: rest' =>
            if is_line_terminator d then None
            else option_map (fun n => 2 + n) (literal_tail q rest')
        | [] => None
        end
      else option_map S (literal_tail q rest)
  end.

(** A quoted literal: [q], the starred group, [q]. *)
Definition match_literal (q : N) : matcher := fun s =>
  match s with
  | c :: rest => if N.eqb c q then option_map S (literal_tail q rest) else None
  | [] => None
  end.

Definition match_word (w : jsstring) : matcher := fun s =>
  if startsWith w s then Some (List.length w) else None.

(** [a|b] *)
Definition alt (a b : matcher) : matcher := fun s =>
  match a s with
  | Some n => Some n
  | None => b s
  end.

(** The expression of the first phase: a double-quoted literal, or a
    single-quoted literal, or the two code units of the operator (flag g). *)
Definition checkRE : matcher :=
  alt (match_literal 34) (alt (match_literal 39) (match_word (u "&&"))).

(** The expression of the second phase: a double-quoted literal, or a
    single-quoted literal, or the operator between two single spaces (flag g). *)
Definition splitRE : matcher :=
  alt (match_literal 34) (alt (match_literal 39) (match_word (u " && "))).

(** The successive results [(m.index, m[0])] of [re.exec(str)] for a global
    expression that matches no empty string: the search starts at [lastIndex],
    the end of the previous match.  [skip] counts the code units of the
    current match that are still to be passed. *)
Fixpoint matchAll_from (re : matcher) (s : jsstring) (idx skip : nat)
  : list (nat * jsstring) :=
  match s with
  | [] => []
  | _ :: rest =>
      match skip with
      | S k => matchAll_from re rest (S idx) k
      | O =>
          match re s with
          | Some len => (idx, firstn len s) :: matchAll_from re rest (S idx) (len - 1)
          | None => matchAll_from re rest (S idx) 0
          end
      end
  end.

Definition matchAll (re : matcher) (str : jsstring) : list (nat * jsstring) :=
  matchAll_from re str 0 0.

(** *** [parseConcatRule] ([operators/concat.js]) *)

Definition is_space (c : N) : bool := N.eqb c 32.

(** [for (i = andIndex - 1; i >= 0 && ruleString[i] === ' '; i--) leftSpaces++] *)
Definition leftSpaces (ruleString : jsstring) (andIndex : nat) : nat :=
  List.length (takeWhile is_space (rev (firstn andIndex ruleString))).

(** [for (i = afterAnd; i < ruleString.length && ruleString[i] === ' '; i++) rightSpaces++] *)
Definition rightSpaces (ruleString : jsstring) (afterAnd : nat) : nat :=
  List.length (takeWhile is_space (skipn afterAnd ruleString)).

(** The test that makes the first phase throw. *)
Definition illegal_spacing (ruleString : jsstring) (andIndex : nat) : bool :=
  let l := leftSpaces ruleString andIndex in
  let r := rightSpaces ruleString (andIndex + 2) in
  (l =? 0) || (r =? 0) || ((2 <=? l) && (2 <=? r)).

(** First phase: the loop over the matches of [checkRE]. *)
Fixpoint check_loop (ruleString : jsstring) (ms : list (nat * jsstring))
  : completion unit :=
  match ms with
  | [] => Normal tt
  | (index, token) :: rest =>
      if negb (str_eqb token (u "&&")) then check_loop ruleString rest
      else if illegal_spacing ruleString index then
        Thrown (mkExn SyntaxError msg_illegal_and)
      else check_loop ruleString rest
  end.

(** [pushSegment(seg)], returning the array [rules] after the push. *)
Definition pushSegment (rules : list jsstring) (seg : jsstring) : list jsstring :=
  let trimmed := trim seg in
  if startsWith (u "@text:") trimmed && negb (str_eqb seg trimmed) && endsWithSpace seg
  then rules ++ [trimStart seg]
  else rules ++ [trimmed].

(** Second phase: the loop over the matches of [splitRE]; it leaves [rules],
    [hasDelimiter] and [lastIndex]. *)
Fixpoint split_loop (ruleString : jsstring) (ms : list (nat * jsstring))
    (rules : list jsstring) (hasDelimiter : bool) (lastIndex : nat)
  : list jsstring * bool * nat :=
  match ms with
  | [] => (rules, hasDelimiter, lastIndex)
  | (index, token) :: rest =>
      if str_eqb token (u " && ") then
        split_loop ruleString rest
          (pushSegment rules (slice lastIndex index ruleString)) true (index + 4)
      else split_loop ruleString rest rules hasDelimiter lastIndex
  end.

Definition parseConcatRule (ruleString : jsstring) : completion (list jsstring) :=
  match check_loop ruleString (matchAll checkRE ruleString) with
  | Thrown e => Thrown e
  | Normal _ =>
      let '(rules, hasDelimiter, lastIndex) :=
        split_loop ruleString (matchAll splitRE ruleString) [] false 0 in
      let rules := pushSegment rules (skipn lastIndex ruleString) in
      if hasDelimiter && existsb (fun seg => List.length seg =? 0) rules then
        Thrown (mkExn SyntaxError msg_empty_segment)
      else Normal rules
  end.

End Concat.

(* ================================================================== *)
(** ** [operators/regex-clean.js] *)

Module RegexClean.

(** The lazy first group [(.+?)] of the expression of [parseCleanRule] once
    it holds [acc]: it grows until [##] follows. *)
Fixpoint until_hashes (acc s : jsstring) : option (jsstring * jsstring) :=
  match s with
  | [] => None
  | x :: rest =>
      match rest with
      | y :: rest' =>
          if N.eqb x 35 && N.eqb y 35 then Some (acc, rest')
          else until_hashes (acc ++ [x]) rest
      | [] => None
      end
  end.

(** [ruleString.match(re)] for the expression [^##], lazy group [(.+?)],
    [##], greedy group of any characters, [$]: no group matches a line
    terminator, so the whole string has none. *)
Definition match_clean_rule (ruleString : jsstring) : option (jsstring * jsstring) :=
  match ruleString with
  | a :: b :: c :: rest =>
      if N.eqb a 35 && N.eqb b 35 && negb (existsb is_line_terminator (c :: rest))
      then until_hashes [c] rest
      else None
  | _ => None
  end.

(** [parseCleanRule(ruleString)]: the pair [{ pattern, replacement }]. *)
Definition parseCleanRule (ruleString : jsstring) : completion (jsstring * jsstring) :=
  match match_clean_rule ruleString with
  | Some pr => Normal pr
  | None => Thrown (mkExn Error (msg_bad_clean_rule ++ ruleString))
  end.


Section WithRegExp.
Variable RE : RegExpEngine.

(** [convertToString(input)] *)
Definition convertToString (input : value) : jsstring :=
  match input with
  | VStr s => s
  | VArr items => array_join (u " ") items
  | VNull | VUndefined => []
  | VBool _ | VNum _ | VObj _ => js_String input
  end.

(** [parseCleanPattern(pattern, options)] *)
Definition parseCleanPattern (pattern : jsstring) (options : Options)
  : completion (RegExp RE) :=
  let finalFlags := flags options in
  let finalFlags :=
    if negb (caseSensitive options) && negb (includes (u "i") finalFlags)
    then finalFlags ++ u "i" else finalFlags in
  let finalFlags :=
    if multiline options && negb (includes (u "m") finalFlags)
    then finalFlags ++ u "m" else finalFlags in
  let finalFlags :=
    if dotAll options && negb (includes (u "s") finalFlags)
    then finalFlags ++ u "s" else finalFlags in
  match RegExp_new RE pattern finalFlags with
  | Some regex => Normal regex
  | None => Thrown (mkExn Error (msg_bad_regex ++ pattern))
  end.

(** [cleanText(input, pattern, replacement, options)] *)
Definition cleanText (input : value) (pattern replacement : jsstring)
    (options : Options) : completion jsstring :=
  let text := convertToString input in
  if isEmpty (VStr text) then Normal text
  else
    match parseCleanPattern pattern options with
    | Thrown e => Thrown e
    | Normal regex => Normal (RegExp_replace RE regex text replacement)
    end.

(** [regexCleanOperator(text, pattern, replacement, options)] *)
Definition regexCleanOperator (text : value) (pattern replacement : jsstring)
    (options : Options) : completion ParseResult :=
  match cleanText text pattern replacement options with
  | Normal result =>
      Normal (plain_result (negb (isEmpty (VStr result))) (VStr result)
                (u "##" ++ pattern ++ u "##" ++ replacement) (u "regex-clean"))
  | Thrown error =>
      Thrown (mkExn RuleParseError (msg_clean_failed ++ message error))
  end.

(** An element of [cleanRules]: a rule string or a [{ pattern, replacement }]
    object. *)
Inductive CleanRule :=
| RuleString (ruleString : jsstring)
| RuleObject (pattern replacement : jsstring).

Definition show_clean_rule (rule : CleanRule) : jsstring :=
  match rule with
  | RuleString s => s
  | RuleObject p r => u "##" ++ p ++ u "##" ++ r
  end.

(** The [for] loop of [batchRegexCleanOperator]: [result], [appliedRules]
    and [errors].  An entry of [errors] shows its rule as text. *)
Fixpoint batch_loop (options : Options) (cleanRules : list CleanRule) (i : nat)
    (result : jsstring) (appliedRules : list jsstring) (errs : list AttemptError)
  : jsstring * list jsstring * list AttemptError :=
  match cleanRules with
  | [] => (result, appliedRules, errs)
  | rule :: rest =>
      let step :=
        match (match rule with
               | RuleString s => parseCleanRule s
               | RuleObject p r => Normal (p, r)
               end) with
        | Thrown e => Thrown e
        | Normal (pattern, replacement) =>
            match cleanText (VStr result) pattern replacement options with
            | Thrown e => Thrown e
            | Normal cleanResult =>
                Normal (cleanResult, u "##" ++ pattern ++ u "##" ++ replacement)
            end
        end in
      match step with
      | Normal (cleanResult, applied) =>
          batch_loop options rest (S i) cleanResult (appliedRules ++ [applied]) errs
      | Thrown e =>
          let errs' := errs ++ [mkAttemptError (show_clean_rule rule) (message e) i] in
          if stopOnError options then (result, appliedRules, errs')
          else batch_loop options rest (S i) result appliedRules errs'
      end
  end.

(** [batchRegexCleanOperator(text, cleanRules, options)]; the property
    [appliedCount] is the length of the rules joined in [rule]. *)
Definition batchRegexCleanOperator (text : value) (cleanRules : list CleanRule)
    (options : Options) : ParseResult :=
  let '(result, appliedRules, errs) :=
    batch_loop options cleanRules 0 (convertToString text) [] [] in
  {| success := true;
     data := VStr result;
     rule := join (u " | ") appliedRules;
     selector := u "batch-regex-clean";
     error := None;
     errors := errs;
     usedRule := None;
     fallbackIndex := None;
     processedCount := None;
     originalData := None;
     fromCache := false |}.

End WithRegExp.

End RegexClean.

(* ================================================================== *)
(** ** [selectors/text.js] *)

Module Text.

(** [textSelector(source, text, context, options)] *)
Definition textSelector (source : value) (text : value) : completion ParseResult :=
  match text with
  | VNull | VUndefined =>
      Normal (plain_result false VNull (js_String text) (u "text"))
  | _ =>
      let outputText := js_String text in
      Normal (plain_result true (VStr outputText) outputText (u "text"))
  end.

(** [text.replace(re, by)] for a global expression that matches exactly the
    two code units [\ c]. *)
Fixpoint replace_escape (c : N) (by_ : N) (text : jsstring) : jsstring :=
  match text with
  | [] => []
  | x :: rest =>
      match rest with
      | y :: rest' =>
          if N.eqb x 92 && N.eqb y c then by_ :: replace_escape c by_ rest'
          else x :: replace_escape c by_ rest
      | [] => [x]
      end
  end.

(** [quotedTextSelector(source, quotedText, context, options)] *)
Definition quotedTextSelector (source : value) (quotedText : jsstring)
  : completion ParseResult :=
  let text := quotedText in
  let text :=
    if (startsWith [34%N] text && endsWith [34%N] text)
       || (startsWith [39%N] text && endsWith [39%N] text)
    then slice_1_m1 text else text in
  let text := replace_escape 34 34 text in
  let text := replace_escape 39 39 text in
  let text := replace_escape 92 92 text in
  let text := replace_escape 110 10 text in
  let text := replace_escape 116 9 text in
  let text := replace_escape 114 13 text in
  Normal (plain_result true (VStr text) quotedText (u "text")).

End Text.

(* ================================================================== *)
(** ** [selectors/css.js] *)

Module Css.

(** The [cheerio] library: [cheerio source expression attribute] loads the
    source, runs [$(expression)] and lists, for each matched element in
    document order, the value that [extractCssResult] reads from it for
    [attribute]; it throws when the library rejects the source or the
    expression. *)
Definition Cheerio := value -> jsstring -> option jsstring -> completion (list value).

(** The pair [(s.substring(0, atIndex), s.substring(atIndex + 1))] for
    [atIndex = s.lastIndexOf(c)], or [None] for [-1]. *)
Fixpoint split_last (c : N) (s : jsstring) : option (jsstring * jsstring) :=
  match s with
  | [] => None
  | x :: rest =>
      match split_last c rest with
      | Some (a, b) => Some (x :: a, b)
      | None => if N.eqb x c then Some ([], rest) else None
      end
  end.

(** [parseCssExpression(expression)]: [{ expression, attribute }] *)
Definition parseCssExpression (expression : jsstring) : jsstring * option jsstring :=
  match split_last 64 expression with
  | None => (expression, None)
  | Some (e, a) => (e, Some a)
  end.

(** The end of [extractCssResult]: the non-empty values, alone or in an array. *)
Definition extractCssResult (values : list value) : value :=
  let results := filter (fun v => negb (isEmpty v)) values in
  match results with
  | [r] => r
  | _ => VArr results
  end.

(** [cssSelector(source, selector, options)] *)
Definition cssSelector (cheerio : Cheerio) (source : value) (selector_ : jsstring)
  : completion ParseResult :=
  let '(expression, attribute) := parseCssExpression selector_ in
  match cheerio source expression attribute with
  | Thrown error =>
      Thrown (mkExn RuleParseError (msg_css_failed ++ message error))
  | Normal elements =>
      match elements with
      | [] => Normal (plain_result false VNull selector_ (u "css"))
      | _ =>
          let result := extractCssResult elements in
          Normal (plain_result (negb (isEmpty result)) result selector_ (u "css"))
      end
  end.

End Css.

(* ================================================================== *)
(** ** The selector adapters *)

(** The selector evaluators that the engines call and that stand outside the
    rule grammar: each takes the source, the expression and the third
    argument it is called with (the context in [rule-engine.js], the
    [options] object in [engine.js]).  The script selector also receives a
    time budget, which it accepts and does not enforce; it is left out. *)
Record Adapters := {
  cheerio : Css.Cheerio;
  cssContainsSelector : value -> jsstring -> value -> completion ParseResult;
  xpathSelector : value -> jsstring -> value -> completion ParseResult;
  jsonSelector : value -> jsstring -> value -> completion ParseResult;
  regexSelector : value -> jsstring -> value -> completion ParseResult;
  jsSelector : value -> jsstring -> value -> completion ParseResult;
  (** [operators/index.js]: [indexOperator(data, index)] *)
  indexOperator : value -> value -> completion ParseResult;
  (** [rangeOperator(data, start, end)] *)
  rangeOperator : value -> value -> value -> completion ParseResult;
  (** [multiIndexOperator(data, indices)] *)
  multiIndexOperator : value -> list value -> completion ParseResult
}.

(** A synchronous call seen as a selector's [execute]: nothing else changes. *)
Definition pure_execute (r : option (completion ParseResult)) : unit -> run unit ParseResult :=
  fun st => match r with
            | None => None
            | Some c => Some (c, st)
            end.

(* ================================================================== *)
(** ** [rule-engine.js]: class [RuleEngine] *)

Module RuleEngine.

Section Engine.
Variable RE : RegExpEngine.
Variable AD : Adapters.
(** [this.options] *)
Variable options : Options.

(** [parseSingleSelector(source, rule, context)] *)
Definition parseSingleSelector (source : value) (rule : jsstring) (context : value)
  : completion ParseResult :=
  let isTextSelector := startsWith (u "@text:") (trim rule) in
  let workingRule := if isTextSelector then rule else trim rule in
  let trimmedRule := trim workingRule in
  if startsWith (u "@css:") trimmedRule then
    let selector := substring 5 trimmedRule in
    if includes (u ":contains(") selector
    then cssContainsSelector AD source selector context
    else Css.cssSelector (cheerio AD) source selector
  else if startsWith (u "@XPath:") trimmedRule then
    Normal (mkResult false VNull trimmedRule (u "xpath")
              (Some (u "XPath selector not implemented in this test"))
              [] None None None None false)
  else if startsWith (u "@json:") trimmedRule then
    jsonSelector AD source (substring 6 trimmedRule) context
  else if startsWith (u "@regex:") trimmedRule then
    regexSelector AD source (substring 7 trimmedRule) context
  else if startsWith (u "@js:") trimmedRule then
    if negb (enableJS options) then Thrown (mkExn Error msg_js_disabled)
    else jsSelector AD source (substring 4 trimmedRule) context
  else if startsWith (u "@text:") trimmedRule then
    let text := substring 6 workingRule in
    if (startsWith [34%N] text && endsWith [34%N] text)
       || (startsWith [39%N] text && endsWith [39%N] text)
    then Text.quotedTextSelector source text
    else Text.textSelector source (VStr text)
  else if includes (u ":contains(") trimmedRule then
    cssContainsSelector AD source trimmedRule context
  else Css.cssSelector (cheerio AD) source trimmedRule.

(** [parseCleanRule(source, rule, context)] *)
Definition parseCleanRule (source : value) (rule : jsstring) (context : value)
  : completion ParseResult :=
  let parts := split_hashes [] rule in
  if List.length parts <? 3 then Thrown (mkExn Error msg_bad_clean_format)
  else
    let selectorPart := nth 0 parts [] in
    let cleanRule :=
      u "##" ++ nth 1 parts [] ++ u "##" ++ join (u "##") (skipn 2 parts) in
    match parseSingleSelector source selectorPart context with
    | Thrown e => Thrown e
    | Normal selectorResult =>
        if negb (success selectorResult) || isEmpty (data selectorResult)
        then Normal selectorResult
        else
          match RegexClean.parseCleanRule cleanRule with
          | Thrown e => Thrown e
          | Normal (pattern, replacement) =>
              RegexClean.regexCleanOperator RE (data selectorResult)
                pattern replacement options
          end
    end.

(** The type of [this.parseRule] as the two methods below call it back. *)
Definition ParseRule := value -> jsstring -> value -> option (completion ParseResult).

(** [parseFallbackRule(source, rule, context)]: each selector's [execute]
    calls [this.parseRule] on its own segment. *)
Definition parseFallbackRule (parseRule : ParseRule)
    (source : value) (rule : jsstring) (context : value)
  : option (completion ParseResult) :=
  let rules := Fallback.parseFallbackRule rule in
  let selectors :=
    map (fun r => mkSelector r (pure_execute (parseRule source r context))) rules in
  match Fallback.fallbackOperator selectors tt with
  | None => None
  | Some (result, _) => Some (Normal result)
  end.

(** [parseConcatRule(source, rule, context)] *)
Definition parseConcatRule (parseRule : ParseRule)
    (source : value) (rule : jsstring) (context : value)
  : option (completion ParseResult) :=
  match Concat.parseConcatRule rule with
  | Thrown e => Some (Thrown e)
  | Normal rules =>
      let selectors :=
        map (fun r => mkSelector r (pure_execute (parseRule source r context))) rules in
      match Concat.concatOperator (separator options) (ignoreEmpty options) selectors tt with
      | None => None
      | Some (result, _) => Some (Normal result)
      end
  end.

(** [parseRule(source, rule, context)].  The method calls itself through the
    selectors it builds and nothing bounds the depth of these calls: [fuel] is
    the number of nested calls allowed, and [None] tells that it ran out, so
    that a call which is [None] for every [fuel] nests without end.  What the
    runtime makes of such a call at the end of its call stack is the matter
    of [CallStack.parseRule] below. *)
Fixpoint parseRule (fuel : nat) (source : value) (rule : jsstring) (context : value)
  : option (completion ParseResult) :=
  match fuel with
  | O => None
  | S fuel' =>
      match rule with
      | [] => Some (Thrown (mkExn Error msg_rule_empty))
      | _ =>
          if includes (u "||") rule then
            parseFallbackRule (parseRule fuel') source rule context
          else if includes (u "&&") rule then
            parseConcatRule (parseRule fuel') source rule context
          else if includes (u "##") rule then
            Some (parseCleanRule source rule context)
          else Some (parseSingleSelector source rule context)
      end
  end.

(** [parse(source, rule, context)] *)
Definition parse (fuel : nat) (source : value) (rule : jsstring) (context : value)
  : option (completion ParseResult) :=
  match parseRule fuel source rule context with
  | None => None
  | Some (Normal r) => Some (Normal r)
  | Some (Thrown error) =>
      Some (Thrown (mkExn RuleParseError (msg_parse_failed ++ message error)))
  end.

End Engine.

End RuleEngine.

(* ================================================================== *)
(** ** [engine.js]: class [BookSourceRuleEngine] *)

Module BookSourceRuleEngine.

(** [this.options] of the engine: the properties that the engine reads, and
    under [operators] those that the operators read from the same object. *)
Record EngineOptions := {
  defaultSelector : jsstring;
  debug : bool;
  context : value;
  cache_enabled : bool;
  cache_maxSize : nat;
  cache_ttl : Z;
  operators : Options
}.

Definition default_engine_options : EngineOptions :=
  {| defaultSelector := u "css";
     debug := false;
     context := VObj [];
     cache_enabled := false;
     cache_maxSize := 1000;
     cache_ttl := 300000;
     operators := default_options |}.

(** *** The cache: a [Map] from keys to [{ result, timestamp }] *)

Record CacheEntry := { result : ParseResult; timestamp : Z }.

(** The entries of the [Map] in insertion order, one per key. *)
Definition Cache := list (jsstring * CacheEntry).

Fixpoint cache_get (cache : Cache) (key : jsstring) : option CacheEntry :=
  match cache with
  | [] => None
  | (k, e) :: rest => if str_eqb k key then Some e else cache_get rest key
  end.

Definition cache_has (cache : Cache) (key : jsstring) : bool :=
  match cache_get cache key with
  | Some _ => true
  | None => false
  end.

Fixpoint cache_delete (cache : Cache) (key : jsstring) : Cache :=
  match cache with
  | [] => []
  | (k, e) :: rest =>
      if str_eqb k key then rest else (k, e) :: cache_delete rest key
  end.

(** [cache.set(key, entry)]: a present key keeps its place. *)
Fixpoint cache_set (cache : Cache) (key : jsstring) (entry : CacheEntry) : Cache :=
  match cache with
  | [] => [(key, entry)]
  | (k, e) :: rest =>
      if str_eqb k key then (k, entry) :: rest
      else (k, e) :: cache_set rest key entry
  end.

(** [_generateCacheKey(rule, source, context)] *)
Definition _generateCacheKey (rule : jsstring) (source context_ : value)
  : completion jsstring :=
  let sourceKey :=
    match source with
    | VStr s => Normal (firstn 100 s)
    | _ =>
        match JSON_stringify source with
        | Some s => Normal (firstn 100 s)
        | None =>
            Thrown (mkExn TypeError
                      (u "Cannot read properties of undefined (reading 'substring')"))
        end
    end in
  match sourceKey with
  | Thrown e => Thrown e
  | Normal sourceKey =>
      let contextKey :=
        match JSON_stringify context_ with
        | Some s => s
        | None => u "undefined"
        end in
      Normal (rule ++ u "|" ++ sourceKey ++ u "|" ++ contextKey)
  end.

(** [_cacheResult(key, result)] at time [now]. *)
Definition _cacheResult (opts : EngineOptions) (cache : Cache) (key : jsstring)
    (r : ParseResult) (now : Z) : Cache :=
  let cache :=
    if cache_maxSize opts <=? List.length cache then
      match cache with
      | [] => cache
      | (firstKey, _) :: _ => cache_delete cache firstKey
      end
    else cache in
  cache_set cache key {| result := r; timestamp := now |}.

(** *** Parsing a selector *)

(** [options.index] *)
Inductive IndexSpec :=
| IndexRange (start end_ : value)
| IndexMulti (indices : list value)
| IndexSingle (v : value).

(** The decimal digits at the start of [s], read as a number. *)
Fixpoint digits (acc : option Z) (s : jsstring) : option Z :=
  match s with
  | [] => acc
  | c :: rest =>
      if ((48 <=? c) && (c <=? 57))%N then
        digits (Some (10 * match acc with Some a => a | None => 0 end
                      + Z.of_N (c - 48))%Z) rest
      else acc
  end.

(** [parseInt(s, 10)]; [None] is [NaN].  The number is the exact integer:
    it is the one of the runtime for at most fifteen digits, beyond which
    the runtime rounds to the nearest double. *)
Definition parseInt (s : jsstring) : option Z :=
  match trimStart s with
  | 45%N :: rest => option_map Z.opp (digits None rest)
  | 43%N :: rest => digits None rest
  | t => digits None t
  end.

(** [_parseIndexValue(value)] *)
Definition _parseIndexValue (v : jsstring) : value :=
  let trimmed := trim v in
  match trimmed with
  | [] => VNum 0
  | _ =>
      match parseInt trimmed with
      | Some num => VNum num
      | None => VStr trimmed
      end
  end.

(** [_parseIndexExpression(indexExpr)] *)
Definition _parseIndexExpression (indexExpr : jsstring) : IndexSpec :=
  if includes (u ":") indexExpr then
    let parts := split_char 58 [] indexExpr in
    IndexRange (_parseIndexValue (nth 0 parts [])) (_parseIndexValue (nth 1 parts []))
  else if includes (u ",") indexExpr then
    IndexMulti (map (fun i => _parseIndexValue (trim i)) (split_char 44 [] indexExpr))
  else IndexSingle (_parseIndexValue indexExpr).

(** [expression.match(re)] for the expression of [_parseSelector], which is
    [^], a greedy non-empty group, an opening bracket, a greedy non-empty
    group, a closing bracket, a greedy group, [$]: the closing bracket is the
    last one of the string, the opening bracket the last one that leaves both
    groups around it non-empty, and no group matches a line terminator.  The
    result is [(baseExpression, indexPart, afterIndex)]. *)
Definition match_index (expression : jsstring)
  : option (jsstring * jsstring * jsstring) :=
  if existsb is_line_terminator expression then None
  else
    match Css.split_last 93 expression with
    | None => None
    | Some (before, afterIndex) =>
        match rev before with
        | [] => None
        | lastc :: front =>
            match Css.split_last 91 (rev front) with
            | Some (c :: base, idx) => Some (c :: base, idx ++ [lastc], afterIndex)
            | _ => None
            end
        end
    end.

(** [_parseSelector(rule)]: [{ selectorType, expression, options }] *)
Definition _parseSelector (opts : EngineOptions) (rule : jsstring)
  : jsstring * jsstring * option IndexSpec :=
  let '(selectorType, expression) :=
    if startsWith (u "@css:") rule then (u "css", substring 5 rule)
    else if startsWith (u "@XPath:") rule then (u "xpath", substring 7 rule)
    else if startsWith (u "@json:") rule then (u "json", substring 6 rule)
    else if startsWith (u "@regex:") rule then (u "regex", substring 7 rule)
    else if startsWith (u "@js:") rule then (u "js", substring 4 rule)
    else (defaultSelector opts, rule) in
  match match_index expression with
  | Some (baseExpression, indexPart, afterIndex) =>
      (selectorType, baseExpression ++ afterIndex,
       Some (_parseIndexExpression indexPart))
  | None => (selectorType, expression, None)
  end.

(** The [options] object of [_parseSelector] as a value. *)
Definition options_value (index : option IndexSpec) : value :=
  match index with
  | None => VObj []
  | Some (IndexRange a b) =>
      VObj [(u "index", VObj [(u "type", VStr (u "range")); (u "start", a); (u "end", b)])]
  | Some (IndexMulti l) =>
      VObj [(u "index", VObj [(u "type", VStr (u "multi")); (u "indices", VArr l)])]
  | Some (IndexSingle v) =>
      VObj [(u "index", VObj [(u "type", VStr (u "single")); (u "value", v)])]
  end.

(** [{ ...result, data: r.data, success: r.success }] *)
Definition with_data_success (res r : ParseResult) : ParseResult :=
  mkResult (success r) (data r) (rule res) (selector res) (error res) (errors res)
    (usedRule res) (fallbackIndex res) (processedCount res) (originalData res)
    (fromCache res).

(** [{ ...cleanResult, rule: rule, originalData: d }] *)
Definition with_rule_original (res : ParseResult) (r : jsstring) (d : value) : ParseResult :=
  mkResult (success res) (data res) r (selector res) (error res) (errors res)
    (usedRule res) (fallbackIndex res) (processedCount res) (Some d)
    (fromCache res).

(** [{ ...cached.result, fromCache: true }] *)
Definition with_fromCache (res : ParseResult) : ParseResult :=
  mkResult (success res) (data res) (rule res) (selector res) (error res) (errors res)
    (usedRule res) (fallbackIndex res) (processedCount res) (originalData res)
    true.

(** [{ ...a, ...b }] on objects; a value that is no object adds nothing. *)
Definition props_of (v : value) : list (jsstring * value) :=
  match v with
  | VObj props => props
  | _ => []
  end.

Fixpoint assign (props : list (jsstring * value)) (k : jsstring) (v : value)
  : list (jsstring * value) :=
  match props with
  | [] => [(k, v)]
  | (k', v') :: rest =>
      if str_eqb k' k then (k', v) :: rest else (k', v') :: assign rest k v
  end.

Definition spread (a b : value) : value :=
  VObj (fold_left (fun acc kv => assign acc (fst kv) (snd kv)) (props_of b) (props_of a)).

Section Engine.
Variable RE : RegExpEngine.
Variable AD : Adapters.
Variable opts : EngineOptions.

(** [_applyIndexOptions(result, options)] *)
Definition _applyIndexOptions (res : ParseResult) (index : option IndexSpec)
  : completion ParseResult :=
  if negb (success res) then Normal res
  else
    match index with
    | None => Normal res
    | Some spec =>
        let applied :=
          match spec with
          | IndexSingle v => indexOperator AD (data res) v
          | IndexRange a b => rangeOperator AD (data res) a b
          | IndexMulti l => multiIndexOperator AD (data res) l
          end in
        match applied with
        | Thrown e => Thrown e
        | Normal r => Normal (with_data_success res r)
        end
    end.

Definition then_index (c : completion ParseResult) (index : option IndexSpec)
  : completion ParseResult :=
  match c with
  | Thrown e => Thrown e
  | Normal res => _applyIndexOptions res index
  end.

(** [_handleSingleSelector(rule, source, context)], with the five
    [_execute...Selector] methods in the branches of its [switch]. *)
Definition _handleSingleSelector (rule : jsstring) (source context_ : value)
  : completion ParseResult :=
  let '(selectorType, expression, index) := _parseSelector opts rule in
  let options := options_value index in
  if str_eqb selectorType (u "css") then
    if includes (u ":contains(") expression
    then cssContainsSelector AD source expression options
    else then_index (Css.cssSelector (cheerio AD) source expression) index
  else if str_eqb selectorType (u "xpath") then
    then_index (xpathSelector AD source expression options) index
  else if str_eqb selectorType (u "json") then
    then_index (jsonSelector AD source expression options) index
  else if str_eqb selectorType (u "regex") then
    then_index (regexSelector AD source expression options) index
  else if str_eqb selectorType (u "js") then
    then_index (jsSelector AD source expression (spread (context opts) context_)) index
  else Thrown (mkExn Error (msg_unsupported_selector ++ selectorType)).

(** What an operator reads on the value of an [async] [execute]: the call
    returns a promise at once, and a promise has no [success], no [data] and
    no [selector]. *)
Definition promise_view : ParseResult := plain_result false VUndefined [] [].

(** The selector object of a branch, for its value: the evaluation behind
    the promise, and the rejection that it may leave, are in
    [Promises.branch_selector] below. *)
Definition async_selector (singleRule : jsstring) : Selector unit :=
  mkSelector singleRule (pure_execute (Some (Normal promise_view))).

(** [_handleFallbackRule(rule, source, context)] *)
Definition _handleFallbackRule (rule : jsstring) (source context_ : value)
  : option (completion ParseResult) :=
  let rules := Fallback.parseFallbackRule rule in
  match Fallback.fallbackOperator (map async_selector rules) tt with
  | None => None
  | Some (r, _) => Some (Normal r)
  end.

(** [_handleConcatRule(rule, source, context)] *)
Definition _handleConcatRule (rule : jsstring) (source context_ : value)
  : option (completion ParseResult) :=
  match Concat.parseConcatRule rule with
  | Thrown e => Some (Thrown e)
  | Normal rules =>
      match Concat.concatOperator (separator (operators opts)) (ignoreEmpty (operators opts))
              (map async_selector rules) tt with
      | None => None
      | Some (r, _) => Some (Normal r)
      end
  end.

(** The loop of [_handleCleanRule] that pairs [parts[i]] with [parts[i + 1]]. *)
Fixpoint clean_pairs (parts : list jsstring) : list (jsstring * jsstring) :=
  match parts with
  | pattern :: replacement :: rest => (pattern, replacement) :: clean_pairs rest
  | _ => []
  end.

(** The two branches on [cleanParts.length === 1]. *)
Definition apply_clean (input : value) (cleanParts : list (jsstring * jsstring))
  : completion ParseResult :=
  match cleanParts with
  | [(pattern, replacement)] =>
      RegexClean.regexCleanOperator RE input pattern replacement (operators opts)
  | _ =>
      Normal (RegexClean.batchRegexCleanOperator RE input
                (map (fun pr => RegexClean.RuleObject (fst pr) (snd pr)) cleanParts)
                (operators opts))
  end.

(** [_handleCleanRule(rule, source, context)] *)
Definition _handleCleanRule (rule : jsstring) (source context_ : value)
  : completion ParseResult :=
  let parts := split_hashes [] rule in
  let selectorPart := nth 0 parts [] in
  let cleanParts := clean_pairs (skipn 1 parts) in
  match selectorPart with
  | [] => apply_clean source cleanParts
  | _ =>
      match _handleSingleSelector selectorPart source context_ with
      | Thrown e => Thrown e
      | Normal selectorResult =>
          if negb (success selectorResult) then Normal selectorResult
          else
            match apply_clean (data selectorResult) cleanParts with
            | Thrown e => Thrown e
            | Normal cleanResult =>
                Normal (with_rule_original cleanResult rule (data selectorResult))
            end
      end
  end.

(** [_executeRule(rule, source, context)] *)
Definition _executeRule (rule : jsstring) (source context_ : value)
  : option (completion ParseResult) :=
  let cleanRule := trim rule in
  if includes (u "||") cleanRule then _handleFallbackRule cleanRule source context_
  else if includes (u "&&") cleanRule then _handleConcatRule cleanRule source context_
  else if includes (u "##") cleanRule then Some (_handleCleanRule cleanRule source context_)
  else Some (_handleSingleSelector cleanRule source context_).

(** The [catch] clause of [parseRule]; the property [stack] is left out. *)
Definition failure_result (rule : jsstring) (e : exn) : ParseResult :=
  mkResult false VNull rule (u "unknown") (Some (message e)) [] None None None None false.

(** The [try] block of [parseRule(rule, source, context)] on the cache
    [cache]; [Date.now()] gives [now_lookup] where the age of an entry is
    tested and [now_store] where a result is stored.  The block returns or
    throws, and leaves the cache. *)
Definition parseRule_try (cache : Cache) (rule : jsstring) (source context_ : value)
    (now_lookup now_store : Z) : option (completion ParseResult * Cache) :=
  match rule with
  | [] => Some (Thrown (mkExn Error msg_rule_empty), cache)
  | _ =>
      match _generateCacheKey rule source context_ with
      | Thrown e => Some (Thrown e, cache)
      | Normal cacheKey =>
          let lookup :=
            if cache_enabled opts then
              match cache_get cache cacheKey with
              | Some cached =>
                  if (now_lookup - timestamp cached <? cache_ttl opts)%Z
                  then (Some (with_fromCache (result cached)), cache)
                  else (None, cache_delete cache cacheKey)
              | None => (None, cache)
              end
            else (None, cache) in
          match lookup with
          | (Some hit, cache) => Some (Normal hit, cache)
          | (None, cache) =>
              match _executeRule rule source context_ with
              | None => None
              | Some (Thrown e) => Some (Thrown e, cache)
              | Some (Normal parseResult) =>
                  if cache_enabled opts && success parseResult
                  then Some (Normal parseResult,
                             _cacheResult opts cache cacheKey parseResult now_store)
                  else Some (Normal parseResult, cache)
              end
          end
      end
  end.

(** [parseRule(rule, source, context)]: the [try] block and its [catch]. *)
Definition parseRule (cache : Cache) (rule : jsstring) (source context_ : value)
    (now_lookup now_store : Z) : option (ParseResult * Cache) :=
  match parseRule_try cache rule source context_ now_lookup now_store with
  | None => None
  | Some (Normal parseResult, cache') => Some (parseResult, cache')
  | Some (Thrown error, cache') => Some (failure_result rule error, cache')
  end.

End Engine.

End BookSourceRuleEngine.

(* ================================================================== *)
(** ** Notions used to state the properties *)

Section Runs.
Variable St : Type.

(** [executes sels st cs st']: calling [execute] on the selectors of [sels]
    in order, from the state [st], ends the calls with the completions [cs]
    and leaves the state [st']. *)
Inductive executes : list (Selector St) -> St -> list (completion ParseResult) -> St -> Prop :=
| executes_nil : forall st, executes [] st [] st
| executes_cons : forall sel rest st c st1 cs st2,
    execute sel st = Some (c, st1) ->
    executes rest st1 cs st2 ->
    executes (sel :: rest) st (c :: cs) st2.

(** A sub-rule succeeds when it returns [success] with non-empty [data]. *)
Definition succeeded (c : completion ParseResult) : bool :=
  match c with
  | Normal r => success r && negb (isEmpty (data r))
  | Thrown _ => false
  end.

(** Every attempt failed. *)
Definition all_failed (cs : list (completion ParseResult)) : Prop :=
  Forall (fun c => succeeded c = false) cs.

(** A selector whose call always ends, by a return or by a throw. *)
Definition returns (sel : Selector St) : Prop :=
  forall st, execute sel st <> None.

(** The selector [b] does what [a] does wherever [a] ends. *)
Definition extends_selector (a b : Selector St) : Prop :=
  sel_rule a = sel_rule b
  /\ forall st x, execute a st = Some x -> execute b st = Some x.

(** The diagnostic of the failed attempt number [i]. *)
Definition attempt_error (i : nat) (sel : Selector St) (c : completion ParseResult)
  : AttemptError :=
  mkAttemptError (rule_or_unknown sel)
    (match c with
     | Normal _ => u "empty result"
     | Thrown e => message e
     end) i.

Fixpoint attempt_errors (i : nat) (sels : list (Selector St))
    (cs : list (completion ParseResult)) : list AttemptError :=
  match sels, cs with
  | sel :: sels', c :: cs' => attempt_error i sel c :: attempt_errors (S i) sels' cs'
  | _, _ => []
  end.

(** The results of the sub-rules that succeeded, in order. *)
Fixpoint successes (cs : list (completion ParseResult)) : list ParseResult :=
  match cs with
  | [] => []
  | Normal r :: rest =>
      if success r && negb (isEmpty (data r)) then r :: successes rest
      else successes rest
  | Thrown _ :: rest => successes rest
  end.

End Runs.

(** The function [g] returns what [f] returns wherever [f] ends. *)
Definition extends_parseRule (f g : RuleEngine.ParseRule) : Prop :=
  forall source r context x, f source r context = Some x -> g source r context = Some x.

(** The text that a successful result contributes to a concatenation, in the
    words of the specification: an array gives its first element, an object
    its JSON serialization, any other value its string; the result of a text
    selector is taken as it is, any other is trimmed. *)
Definition stringify (r : ParseResult) : jsstring :=
  let text :=
    match data r with
    | VArr (first :: _) => js_String first
    | VArr [] => []
    | VObj _ => match JSON_stringify (data r) with Some s => s | None => [] end
    | d => js_String d
    end in
  if str_eqb (selector r) (u "text") then text else trim text.

(** The places of the bare operator tokens that the first phase of
    [Concat.parseConcatRule] inspects: the matches of the operator that lie
    outside the quoted literals. *)
Definition bare_ands (ruleString : jsstring) : list nat :=
  map fst (filter (fun m => str_eqb (snd m) (u "&&"))
             (Concat.matchAll Concat.checkRE ruleString)).

(** The places of the delimiters: the matches of the operator between two
    single spaces that lie outside the quoted literals. *)
Definition delimiters (ruleString : jsstring) : list nat :=
  map fst (filter (fun m => str_eqb (snd m) (u " && "))
             (Concat.matchAll Concat.splitRE ruleString)).

(** The pieces of [ruleString] between the delimiters at [delims], each four
    code units long, from [lastIndex] on. *)
Fixpoint cut (ruleString : jsstring) (delims : list nat) (lastIndex : nat)
  : list jsstring :=
  match delims with
  | [] => [skipn lastIndex ruleString]
  | d :: rest => slice lastIndex d ruleString :: cut ruleString rest (d + 4)
  end.

(** The segments of a rule before they are trimmed. *)
Definition raw_segments (ruleString : jsstring) : list jsstring :=
  cut ruleString (delimiters ruleString) 0.

(** The spacing that the grammar refuses around a bare operator at [i]. *)
Definition bad_spacing (ruleString : jsstring) (i : nat) : Prop :=
  Concat.leftSpaces ruleString i = 0
  \/ Concat.rightSpaces ruleString (i + 2) = 0
  \/ (2 <= Concat.leftSpaces ruleString i /\ 2 <= Concat.rightSpaces ruleString (i + 2)).

(** *** Histories of calls to [BookSourceRuleEngine.parseRule] *)

Module History.
Import BookSourceRuleEngine.

Record Call := {
  call_rule : jsstring;
  call_source : value;
  call_context : value;
  call_lookup : Z;
  call_store : Z
}.

(** The cache that a sequence of calls leaves. *)
Fixpoint replay (RE : RegExpEngine) (AD : Adapters) (opts : EngineOptions)
    (cache : Cache) (history : list Call) : option Cache :=
  match history with
  | [] => Some cache
  | c :: rest =>
      match parseRule RE AD opts cache (call_rule c) (call_source c) (call_context c)
              (call_lookup c) (call_store c) with
      | None => None
      | Some (_, cache') => replay RE AD opts cache' rest
      end
  end.

(** The options [opts] with [cache.enabled] set to [b]. *)
Definition with_cache_enabled (b : bool) (opts : EngineOptions) : EngineOptions :=
  {| defaultSelector := defaultSelector opts;
     debug := debug opts;
     context := context opts;
     cache_enabled := b;
     cache_maxSize := cache_maxSize opts;
     cache_ttl := cache_ttl opts;
     operators := operators opts |}.

(** A call of the history does not share the cache key of the triple
    [(rule, source, context)] unless it is a call on that triple. *)
Definition no_collision (rule : jsstring) (source context_ : value) (c : Call) : Prop :=
  forall k,
    _generateCacheKey (call_rule c) (call_source c) (call_context c) = Normal k ->
    _generateCacheKey rule source context_ = Normal k ->
    call_rule c = rule /\ call_source c = source /\ call_context c = context_.

(** The entries that the cache holds under the key of the triple
    [(rule, source, context)] are results of evaluating that triple. *)
Definition coherent (RE : RegExpEngine) (AD : Adapters) (opts : EngineOptions)
    (rule : jsstring) (source context_ : value) (cache : Cache) : Prop :=
  forall k e,
    _generateCacheKey rule source context_ = Normal k ->
    In (k, e) cache ->
    _executeRule RE AD opts rule source context_ = Some (Normal (result e)).

End History.

(* ================================================================== *)
(** ** Instances on which the examples run *)

Module Examples.

(** A fragment of the regular expressions of the runtime, enough for the
    examples: a pattern made of decimal digits matches itself, with or
    without the flags [i], [m] and [s]; the flag [g] asks for every match;
    a replacement without a dollar sign stands for itself.  A pattern
    outside the fragment is refused. *)
Definition is_digit (c : N) : bool := ((48 <=? c) && (c <=? 57))%N.

Fixpoint replace_literal (p by_ : jsstring) (global done : bool) (skip : nat)
    (text : jsstring) : jsstring :=
  match text with
  | [] => []
  | c :: rest =>
      match skip with
      | S k => replace_literal p by_ global done k rest
      | O =>
          if negb done && startsWith p text
          then by_ ++ replace_literal p by_ global (negb global) (List.length p - 1) rest
          else c :: replace_literal p by_ global done 0 rest
      end
  end.

Definition digit_regexp : RegExpEngine :=
  {| RegExp := jsstring * bool;
     RegExp_new := fun pattern flags_ =>
       match pattern with
       | [] => None
       | _ => if forallb is_digit pattern
              then Some (pattern, includes (u "g") flags_) else None
       end;
     RegExp_replace := fun regex text replacement =>
       replace_literal (fst regex) replacement (snd regex) false 0 text |}.

(** The adapters on a document that has exactly one element of class
    [title], with text [T], and to which no other selector applies. *)
Definition no_match (kind : jsstring) : value -> jsstring -> value -> completion ParseResult :=
  fun _ expression _ => Normal (plain_result false VNull expression kind).

Definition sample_adapters : Adapters :=
  {| cheerio := fun _ expression _ =>
       if str_eqb expression (u ".title") then Normal [VStr (u "T")] else Normal [];
     cssContainsSelector := no_match (u "css");
     xpathSelector := no_match (u "xpath");
     jsonSelector := no_match (u "json");
     regexSelector := no_match (u "regex");
     jsSelector := no_match (u "js");
     indexOperator := fun d _ => Normal (plain_result false VNull [] (u "index"));
     rangeOperator := fun d _ _ => Normal (plain_result false VNull [] (u "range"));
     multiIndexOperator := fun d _ => Normal (plain_result false VNull [] (u "multi-index")) |}.

(** The same document read through a library that rejects every call. *)
Definition failing_adapters : Adapters :=
  {| cheerio := fun _ _ _ => Thrown (mkExn Error (u "parse error"));
     cssContainsSelector := cssContainsSelector sample_adapters;
     xpathSelector := xpathSelector sample_adapters;
     jsonSelector := jsonSelector sample_adapters;
     regexSelector := regexSelector sample_adapters;
     jsSelector := jsSelector sample_adapters;
     indexOperator := indexOperator sample_adapters;
     rangeOperator := rangeOperator sample_adapters;
     multiIndexOperator := multiIndexOperator sample_adapters |}.

(** Selectors that record their call in the state, a log of the indices
    called: one that returns a given result, one that throws, and one that
    never returns. *)
Definition logging (i : nat) (r : jsstring) (c : completion ParseResult)
  : Selector (list nat) :=
  mkSelector r (fun log => Some (c, log ++ [i])).

Definition looping (i : nat) (r : jsstring) : Selector (list nat) :=
  mkSelector r (fun _ => None).

Definition html : value := VStr (u "<div class='title'>T</div>").

(** The result of the rule [@css:.title@text] on this document, a first call
    of the rule on an engine, and the cache that this call leaves. *)
Definition title_result : ParseResult :=
  plain_result true (VStr (u "T")) (u ".title@text") (u "css").

Definition title_call : History.Call :=
  {| History.call_rule := u "@css:.title@text";
     History.call_source := html;
     History.call_context := VObj [];
     History.call_lookup := 0;
     History.call_store := 1 |}.

Definition title_cache : BookSourceRuleEngine.Cache :=
  [(u "@css:.title@text|<div class='title'>T</div>|{}",
    {| BookSourceRuleEngine.result := title_result;
       BookSourceRuleEngine.timestamp := 1 |})].

Definition caching_options : BookSourceRuleEngine.EngineOptions :=
  History.with_cache_enabled true BookSourceRuleEngine.default_engine_options.

(** A selector that matches nothing, one that finds the title, one that
    never returns, one that returns the empty text as [@text:] does, and one
    that throws. *)
Definition sel_none (i : nat) : Selector (list nat) :=
  logging i (u "@css:.none@text")
    (Normal (plain_result false VNull (u ".none@text") (u "css"))).

Definition sel_title (i : nat) : Selector (list nat) :=
  logging i (u "@css:.title@text") (Normal title_result).

Definition sel_loop (i : nat) : Selector (list nat) :=
  looping i (u "@js:for(;;){}").

Definition sel_empty_text (i : nat) : Selector (list nat) :=
  logging i (u "@text:") (Text.textSelector html (VStr [])).

Definition sel_throw (i : nat) : Selector (list nat) :=
  logging i (u "@css:[")
    (Thrown (mkExn RuleParseError (msg_css_failed ++ u "parse error"))).

End Examples.

(* ================================================================== *)
(** ** Two pages of one site *)

Module Pages.

(** What two pages of a site share: more than a hundred code units. *)
Definition page_head : jsstring :=
  u "<!DOCTYPE html><html><head><meta charset='utf-8'><title>Library</title></head><body><div class='book'><div class='title'>".

Definition page (title : jsstring) : value :=
  VStr (page_head ++ title ++ u "</div></div></body></html>").

(** What follows the first occurrence of [marker] in [s]. *)
Fixpoint after (marker s : jsstring) : option jsstring :=
  match s with
  | [] => None
  | c :: rest =>
      if startsWith marker s then Some (skipn (List.length marker) s)
      else after marker rest
  end.

(** The code units of [s] before the first [c]. *)
Fixpoint upto (c : N) (s : jsstring) : jsstring :=
  match s with
  | [] => []
  | x :: rest => if N.eqb x c then [] else x :: upto c rest
  end.

(** The adapters on these pages: the selector [.title] finds the one element
    of class [title] and reads its text, no other selector applies. *)
Definition title_text (source : value) : list value :=
  match source with
  | VStr s =>
      match after (u "<div class='title'>") s with
      | Some rest => [VStr (trim (upto 60 rest))]
      | None => []
      end
  | _ => []
  end.

Definition page_adapters : Adapters :=
  {| cheerio := fun source expression attribute =>
       match attribute with
       | Some a =>
           if str_eqb expression (u ".title") && str_eqb a (u "text")
           then Normal (title_text source) else Normal []
       | None => Normal []
       end;
     cssContainsSelector := cssContainsSelector Examples.sample_adapters;
     xpathSelector := xpathSelector Examples.sample_adapters;
     jsonSelector := jsonSelector Examples.sample_adapters;
     regexSelector := regexSelector Examples.sample_adapters;
     jsSelector := jsSelector Examples.sample_adapters;
     indexOperator := indexOperator Examples.sample_adapters;
     rangeOperator := rangeOperator Examples.sample_adapters;
     multiIndexOperator := multiIndexOperator Examples.sample_adapters |}.

End Pages.

(* ================================================================== *)
(** ** [operators/fallback.js]: the conditional operator and the validator *)

(* Message constants of these functions, as code units. *)
(* "all conditional selectors failed: " *)
Definition msg_all_conditional_failed : jsstring :=
  [25152; 26377; 26465; 20214; 36873; 25321; 22120; 37117; 22833; 36133; 58; 32]%N.
(* "fallback rules must not be empty" *)
Definition msg_fallback_rules_empty : jsstring :=
  [22238; 36864; 35268; 21017; 19981; 33021; 20026; 31354]%N.
(* "the fallback rule has one selector only; at least two are advised" *)
Definition msg_single_selector : jsstring :=
  [22238; 36864; 35268; 21017; 21482; 26377; 19968; 20010; 36873; 25321; 22120;
   65292; 24314; 35758; 33267; 23569; 25552; 20379; 20004; 20010; 36873; 25321;
   22120; 20197; 23454; 29616; 23481; 38169]%N.
(* "rule " *)
Definition msg_rule_word : jsstring := [35268; 21017; 32]%N.
(* " has an invalid format" *)
Definition msg_format_invalid : jsstring := [32; 26684; 24335; 26080; 25928]%N.
(* " may not be a valid selector" *)
Definition msg_maybe_invalid : jsstring :=
  [32; 21487; 33021; 19981; 26159; 26377; 25928; 30340; 36873; 25321; 22120]%N.
(* "the last rule should give a static default, as @js:'...' does" *)
Definition msg_suggest_static : jsstring :=
  [24314; 35758; 26368; 21518; 19968; 20010; 35268; 21017; 25552; 20379; 38745;
   24577; 20828; 24213; 20540; 65288; 22914; 32; 64; 106; 115; 58; 39; 40664;
   35748; 20540; 39; 65289]%N.

Module FallbackTools.

Section WithState.
Variable St : Type.

(** An element [{ condition, selector }] of [conditionalSelectors]; an
    absent condition and the empty one are both falsy, and are []. *)
Record ConditionalSelector := mkConditional {
  condition : jsstring;
  cond_selector : Selector St
}.

(** The text pushed on [rules]: the condition, if any, before the rule. *)
Definition conditional_rule (c : ConditionalSelector) : jsstring :=
  match condition c with
  | [] => rule_or_unknown (cond_selector c)
  | cond => cond ++ u " ? " ++ rule_or_unknown (cond_selector c)
  end.

(** The [for] loop of [conditionalFallbackOperator]: the condition is taken
    to hold; a result that is empty is passed over without an entry in
    [errors]. *)
Fixpoint conditional_loop (sels : list ConditionalSelector) (i : nat)
    (rules : list jsstring) (errs : list AttemptError) (st : St)
  : option ((ParseResult + list jsstring * list AttemptError) * St) :=
  match sels with
  | [] => Some (inr (rules, errs), st)
  | c :: rest =>
      let sel := cond_selector c in
      let rules' := rules ++ [conditional_rule c] in
      match execute sel st with
      | None => None
      | Some (Normal result, st') =>
          if success result && negb (isEmpty (data result)) then
            Some (inl {| success := true;
                         data := data result;
                         rule := join (u " || ") rules';
                         selector := u "conditional-fallback";
                         error := None;
                         errors := [];
                         usedRule := Some (rule_or_unknown sel);
                         fallbackIndex := Some i;
                         processedCount := None;
                         originalData := None;
                         fromCache := false |}, st')
          else conditional_loop rest (S i) rules' errs st'
      | Some (Thrown e, st') =>
          conditional_loop rest (S i) rules'
            (errs ++ [mkAttemptError (rule_or_unknown sel) (message e) i]) st'
      end
  end.

(** [conditionalFallbackOperator(conditionalSelectors, source, context, options)] *)
Definition conditionalFallbackOperator (conditionalSelectors : list ConditionalSelector)
    (st : St) : option (ParseResult * St) :=
  match conditional_loop conditionalSelectors 0 [] [] st with
  | None => None
  | Some (inl r, st') => Some (r, st')
  | Some (inr (rules, errs), st') =>
      Some ({| success := false;
               data := VNull;
               rule := join (u " || ") rules;
               selector := u "conditional-fallback";
               error := Some (msg_all_conditional_failed
                              ++ join (u "; ") (map show_error errs));
               errors := [];
               usedRule := None;
               fallbackIndex := None;
               processedCount := None;
               originalData := None;
               fromCache := false |}, st')
  end.

End WithState.

(** The result [{ valid, errors, warnings }] of [validateFallbackRules]. *)
Record Validation := {
  valid : bool;
  validation_errors : list jsstring;
  warnings : list jsstring
}.

(** The class of the expression that a rule is matched against: letters,
    digits, and the signs [_ - . # [ ] @ :]. *)
Definition is_selector_char (c : N) : bool :=
  ((97 <=? c) && (c <=? 122) || (65 <=? c) && (c <=? 90) || (48 <=? c) && (c <=? 57)
   || (c =? 95) || (c =? 45) || (c =? 46) || (c =? 35) || (c =? 91) || (c =? 93)
   || (c =? 64) || (c =? 58))%N.

Definition supportedPrefixes : list jsstring :=
  [u "@css:"; u "@XPath:"; u "@json:"; u "@regex:"; u "@js:"].

(** The callback of [rules.forEach] from [index] on: [errors] and [warnings]. *)
Fixpoint validate_each (rules : list jsstring) (index : nat)
    (errs warns : list jsstring) : list jsstring * list jsstring :=
  match rules with
  | [] => (errs, warns)
  | rule :: rest =>
      match rule with
      | [] =>
          validate_each rest (S index)
            (errs ++ [msg_rule_word ++ of_nat (index + 1) ++ msg_format_invalid]) warns
      | c :: _ =>
          let hasPrefix := existsb (fun prefix => startsWith prefix rule) supportedPrefixes in
          if negb hasPrefix && negb (is_selector_char c) then
            validate_each rest (S index) errs
              (warns ++ [msg_rule_word ++ of_nat (index + 1) ++ [32%N; 34%N] ++ rule
                         ++ [34%N] ++ msg_maybe_invalid])
          else validate_each rest (S index) errs warns
      end
  end.

(** [validateFallbackRules(rules)] on an array of strings. *)
Definition validateFallbackRules (rules : list jsstring) : Validation :=
  match rules with
  | [] => {| valid := false; validation_errors := [msg_fallback_rules_empty];
             warnings := [] |}
  | _ =>
      let warns := match rules with [_] => [msg_single_selector] | _ => [] end in
      let '(errs, warns) := validate_each rules 0 [] warns in
      let lastRule := last rules [] in
      let warns :=
        if startsWith (u "@js:") lastRule && includes [39%N] lastRule then warns
        else warns ++ [msg_suggest_static] in
      {| valid := match errs with [] => true | _ => false end;
         validation_errors := errs;
         warnings := warns |}
  end.

End FallbackTools.

(* ================================================================== *)
(** ** [rule-engine.js]: [validateRule] *)

Module RuleEngineTools.

Section Engine.
Variable RE : RegExpEngine.
Variable AD : Adapters.
Variable options : Options.

(** The result [{ valid, errors, warnings }] of [validateRule]. *)
Record RuleValidation := {
  rule_valid : bool;
  rule_errors : list jsstring;
  rule_warnings : list jsstring
}.

(** [validateRule(rule)]: the rule is parsed on a stub document, with the
    default context; [fuel] is that of [RuleEngine.parse]. *)
Definition validateRule (fuel : nat) (rule : jsstring) : option RuleValidation :=
  match rule with
  | [] => Some {| rule_valid := false; rule_errors := [msg_rule_empty];
                  rule_warnings := [] |}
  | _ =>
      match RuleEngine.parse RE AD options fuel (VStr (u "<div>test</div>")) rule (VObj []) with
      | None => None
      | Some (Normal _) =>
          Some {| rule_valid := true; rule_errors := []; rule_warnings := [] |}
      | Some (Thrown e) =>
          Some {| rule_valid := false; rule_errors := [message e]; rule_warnings := [] |}
      end
  end.

End Engine.

End RuleEngineTools.

(* ================================================================== *)
(** ** [rule-engine.js]: [parseRule] on a bounded call stack *)

Module CallStack.

(** What the runtime throws at a call that does not fit on the call stack. *)
Definition stack_overflow : exn :=
  mkExn RangeError (u "Maximum call stack size exceeded").

Section Engine.
Variable RE : RegExpEngine.
Variable AD : Adapters.
Variable options : Options.

(** [RuleEngine.parseRule] in a runtime whose call stack has room for [depth]
    nested calls of the method.  The call that does not fit throws
    [stack_overflow] where it is made, in the [execute] of a selector, and so
    inside the [try] block of the operator that runs this selector: the
    operator catches it as it catches any error of a sub-rule. *)
Fixpoint parseRule (depth : nat) (source : value) (rule : jsstring) (context : value)
  : option (completion ParseResult) :=
  match depth with
  | O => Some (Thrown stack_overflow)
  | S depth' =>
      match rule with
      | [] => Some (Thrown (mkExn Error msg_rule_empty))
      | _ =>
          if includes (u "||") rule then
            RuleEngine.parseFallbackRule (parseRule depth') source rule context
          else if includes (u "&&") rule then
            RuleEngine.parseConcatRule options (parseRule depth') source rule context
          else if includes (u "##") rule then
            Some (RuleEngine.parseCleanRule RE AD options source rule context)
          else Some (RuleEngine.parseSingleSelector AD options source rule context)
      end
  end.

(** [parse(source, rule, context)] *)
Definition parse (depth : nat) (source : value) (rule : jsstring) (context : value)
  : option (completion ParseResult) :=
  match parseRule depth source rule context with
  | None => None
  | Some (Normal r) => Some (Normal r)
  | Some (Thrown error) =>
      Some (Thrown (mkExn RuleParseError (msg_parse_failed ++ message error)))
  end.

End Engine.

End CallStack.

(* ================================================================== *)
(** ** [engine.js]: the promises of the operator branches *)

Module Promises.
Import BookSourceRuleEngine.

(** The reasons of the promises that were rejected and that nothing awaits
    and nothing handles, oldest first: each is reported by the runtime as an
    unhandled rejection, outside the call that left it. *)
Definition Unhandled := list exn.

Section Engine.
Variable RE : RegExpEngine.
Variable AD : Adapters.
Variable opts : EngineOptions.

(** What a call of the [execute] of a branch leaves rejected.  The function
    [async (src, ctx, opts) => this._handleSingleSelector(singleRule, src, ctx)]
    evaluates the selector of the branch when it is called, and returns a
    promise that holds what the selector returned, or that is rejected with
    what it threw. *)
Definition rejection (source context_ : value) (singleRule : jsstring) : list exn :=
  match _handleSingleSelector AD opts singleRule source context_ with
  | Normal _ => []
  | Thrown e => [e]
  end.

(** The selector object of a branch: the operator gets the promise, on which
    it reads [promise_view], and awaits nothing. *)
Definition branch_selector (source context_ : value) (singleRule : jsstring)
  : Selector Unhandled :=
  mkSelector singleRule
    (fun unhandled =>
       Some (Normal promise_view, unhandled ++ rejection source context_ singleRule)).

(** [_handleFallbackRule(rule, source, context)] *)
Definition _handleFallbackRule (rule : jsstring) (source context_ : value)
    (unhandled : Unhandled) : option (completion ParseResult * Unhandled) :=
  let rules := Fallback.parseFallbackRule rule in
  match Fallback.fallbackOperator (map (branch_selector source context_) rules) unhandled with
  | None => None
  | Some (r, unhandled') => Some (Normal r, unhandled')
  end.

(** [_handleConcatRule(rule, source, context)] *)
Definition _handleConcatRule (rule : jsstring) (source context_ : value)
    (unhandled : Unhandled) : option (completion ParseResult * Unhandled) :=
  match Concat.parseConcatRule rule with
  | Thrown e => Some (Thrown e, unhandled)
  | Normal rules =>
      match Concat.concatOperator (separator (operators opts)) (ignoreEmpty (operators opts))
              (map (branch_selector source context_) rules) unhandled with
      | None => None
      | Some (r, unhandled') => Some (Normal r, unhandled')
      end
  end.

(** [_executeRule(rule, source, context)]: the promises of the two other
    methods are awaited by [parseRule]. *)
Definition _executeRule (rule : jsstring) (source context_ : value)
    (unhandled : Unhandled) : option (completion ParseResult * Unhandled) :=
  let cleanRule := trim rule in
  if includes (u "||") cleanRule then _handleFallbackRule cleanRule source context_ unhandled
  else if includes (u "&&") cleanRule then _handleConcatRule cleanRule source context_ unhandled
  else if includes (u "##") cleanRule
  then Some (_handleCleanRule RE AD opts cleanRule source context_, unhandled)
  else Some (_handleSingleSelector AD opts cleanRule source context_, unhandled).

(** The [try] block of [parseRule(rule, source, context)], as in
    [BookSourceRuleEngine.parseRule_try]. *)
Definition parseRule_try (cache : Cache) (rule : jsstring) (source context_ : value)
    (now_lookup now_store : Z) (unhandled : Unhandled)
  : option (completion ParseResult * Cache * Unhandled) :=
  match rule with
  | [] => Some (Thrown (mkExn Error msg_rule_empty), cache, unhandled)
  | _ =>
      match _generateCacheKey rule source context_ with
      | Thrown e => Some (Thrown e, cache, unhandled)
      | Normal cacheKey =>
          let lookup :=
            if cache_enabled opts then
              match cache_get cache cacheKey with
              | Some cached =>
                  if (now_lookup - timestamp cached <? cache_ttl opts)%Z
                  then (Some (with_fromCache (result cached)), cache)
                  else (None, cache_delete cache cacheKey)
              | None => (None, cache)
              end
            else (None, cache) in
          match lookup with
          | (Some hit, cache) => Some (Normal hit, cache, unhandled)
          | (None, cache) =>
              match _executeRule rule source context_ unhandled with
              | None => None
              | Some (Thrown e, unhandled') => Some (Thrown e, cache, unhandled')
              | Some (Normal parseResult, unhandled') =>
                  if cache_enabled opts && success parseResult
                  then Some (Normal parseResult,
                             _cacheResult opts cache cacheKey parseResult now_store,
                             unhandled')
                  else Some (Normal parseResult, cache, unhandled')
              end
          end
      end
  end.

(** [parseRule(rule, source, context)]: the Outcome with which the promise
    of the call is fulfilled, the cache, and what the call leaves rejected.
    The promise itself is never rejected: the [catch] clause returns. *)
Definition parseRule (cache : Cache) (rule : jsstring) (source context_ : value)
    (now_lookup now_store : Z) (unhandled : Unhandled)
  : option (ParseResult * Cache * Unhandled) :=
  match parseRule_try cache rule source context_ now_lookup now_store unhandled with
  | None => None
  | Some (Normal parseResult, cache', unhandled') =>
      Some (parseResult, cache', unhandled')
  | Some (Thrown error, cache', unhandled') =>
      Some (failure_result rule error, cache', unhandled')
  end.

(** The rejections that the evaluation of a rule leaves: those of the
    branches of an operator, in the order of the calls.  The fallback
    operator calls every branch, and the last one a second time. *)
Definition branch_rejections (rule : jsstring) (source context_ : value) : list exn :=
  let cleanRule := trim rule in
  if includes (u "||") cleanRule then
    let rules := Fallback.parseFallbackRule cleanRule in
    flat_map (rejection source context_) rules
    ++ match last (map Some rules) None with
       | Some lastRule => rejection source context_ lastRule
       | None => []
       end
  else if includes (u "&&") cleanRule then
    match Concat.parseConcatRule cleanRule with
    | Normal rules => flat_map (rejection source context_) rules
    | Thrown _ => []
    end
  else [].

(** The call evaluates the rule: the rule is not empty, the cache key is
    built, and the cache is disabled or holds no entry under the key that is
    younger than [ttl]. *)
Definition evaluates (cache : Cache) (rule : jsstring) (source context_ : value)
    (now_lookup : Z) : bool :=
  match rule with
  | [] => false
  | _ =>
      match _generateCacheKey rule source context_ with
      | Thrown _ => false
      | Normal cacheKey =>
          negb (cache_enabled opts
                && match cache_get cache cacheKey with
                   | Some cached => (now_lookup - timestamp cached <? cache_ttl opts)%Z
                   | None => false
                   end)
      end
  end.

End Engine.

End Promises.

(* ================================================================== *)
(** ** The selectors behind the adapters *)

(* Message constants of the selectors, as code units. *)
(* "JSON selector parsing failed: " *)
Definition msg_json_selector_failed : jsstring :=
  [74; 83; 79; 78; 36873; 25321; 22120; 35299; 26512; 22833; 36133; 58; 32]%N.
(* "JSON parsing failed: " *)
Definition msg_json_parse_failed : jsstring :=
  [74; 83; 79; 78; 32; 35299; 26512; 22833; 36133; 58; 32]%N.
(* "unsupported data type: " *)
Definition msg_unsupported_data : jsstring :=
  [19981; 25903; 25345; 30340; 25968; 25454; 31867; 22411; 58; 32]%N.
(* "JavaScript selector execution failed: " *)
Definition msg_js_selector_failed : jsstring :=
  [74; 97; 118; 97; 83; 99; 114; 105; 112; 116; 36873; 25321; 22120; 25191;
   34892; 22833; 36133; 58; 32]%N.
(* "code execution failed: " *)
Definition msg_code_failed : jsstring :=
  [20195; 30721; 25191; 34892; 22833; 36133; 58; 32]%N.
(* "XPath selector parsing failed: " *)
Definition msg_xpath_failed : jsstring :=
  [88; 80; 97; 116; 104; 36873; 25321; 22120; 35299; 26512; 22833; 36133; 58; 32]%N.
(* "regex selector parsing failed: " *)
Definition msg_regex_failed : jsstring :=
  [27491; 21017; 36873; 25321; 22120; 35299; 26512; 22833; 36133; 58; 32]%N.
(* "regex replace selector parsing failed: " *)
Definition msg_regex_replace_failed : jsstring :=
  [27491; 21017; 26367; 25442; 36873; 25321; 22120; 35299; 26512; 22833; 36133;
   58; 32]%N.
(* "regex split selector parsing failed: " *)
Definition msg_regex_split_failed : jsstring :=
  [27491; 21017; 20998; 21106; 36873; 25321; 22120; 35299; 26512; 22833; 36133;
   58; 32]%N.
(* "regex test selector parsing failed: " *)
Definition msg_regex_test_failed : jsstring :=
  [27491; 21017; 39564; 35777; 36873; 25321; 22120; 35299; 26512; 22833; 36133;
   58; 32]%N.
(* "CSS :contains selector parsing failed: " *)
Definition msg_contains_failed : jsstring :=
  [67; 83; 83; 32; 58; 99; 111; 110; 116; 97; 105; 110; 115; 32; 36873; 25321;
   22120; 35299; 26512; 22833; 36133; 58; 32]%N.

(** [typeof v] *)
Definition js_typeof (v : value) : jsstring :=
  match v with
  | VUndefined => u "undefined"
  | VNull => u "object"
  | VBool _ => u "boolean"
  | VNum _ => u "number"
  | VStr _ => u "string"
  | VArr _ | VObj _ => u "object"
  end.

(** [s.split(sep)] for a separator [sep] that is not empty: the occurrences
    are taken left to right and do not overlap; [skip] counts the code units
    of an occurrence that are still to pass. *)
Fixpoint split_string (sep : jsstring) (skip : nat) (cur s : jsstring) : list jsstring :=
  match s with
  | [] => [cur]
  | x :: rest =>
      match skip with
      | S k => split_string sep k cur rest
      | O =>
          if startsWith sep s
          then cur :: split_string sep (List.length sep - 1) [] rest
          else split_string sep 0 (cur ++ [x]) rest
      end
  end.

(** The pair [(s.substring(0, i), s.substring(i + 1))] for [i = s.indexOf(c)],
    or [None] for [-1]. *)
Fixpoint split_first (c : N) (s : jsstring) : option (jsstring * jsstring) :=
  match s with
  | [] => None
  | x :: rest =>
      if N.eqb x c then Some ([], rest)
      else match split_first c rest with
           | Some (a, b) => Some (x :: a, b)
           | None => None
           end
  end.

(** No code unit of [s] is a line terminator: [s] is matched by [.*]. *)
Definition one_line (s : jsstring) : bool :=
  forallb (fun c => negb (is_line_terminator c)) s.

(** *** [selectors/json.js] *)

Module Json.

(** [JSON.parse] of the runtime and [JSONPath.query] of the [jsonpath]
    library; the query returns the array of the values that the path
    selects. *)
Record JsonLibrary := {
  JSON_parse : jsstring -> completion value;
  JSONPath_query : value -> jsstring -> completion (list value)
}.

Section WithLibrary.
Variable L : JsonLibrary.

(** [prepareJsonData(source)] *)
Definition prepareJsonData (source : value) : completion value :=
  match source with
  | VStr s =>
      match JSON_parse L s with
      | Normal jsonData => Normal jsonData
      | Thrown parseError =>
          Thrown (mkExn Error (msg_json_parse_failed ++ message parseError))
      end
  | VArr _ | VObj _ => Normal source
  | _ => Thrown (mkExn Error (msg_unsupported_data ++ js_typeof source))
  end.

(** [extractJsonResult(result)] *)
Definition extractJsonResult (result : list value) : value :=
  match result with
  | [] => VNull
  | [x] => x
  | _ => VArr result
  end.

(** [jsonSelector(source, path, options)] *)
Definition jsonSelector (source : value) (path : jsstring) : completion ParseResult :=
  let rethrow (error : exn) : completion ParseResult :=
    Thrown (mkExn RuleParseError (msg_json_selector_failed ++ message error)) in
  match prepareJsonData source with
  | Thrown error => rethrow error
  | Normal jsonData =>
      match JSONPath_query L jsonData path with
      | Thrown error => rethrow error
      | Normal result =>
          if isEmpty (VArr result)
          then Normal (plain_result false VNull path (u "json"))
          else
            let extractedData := extractJsonResult result in
            Normal (plain_result (negb (isEmpty extractedData)) extractedData path
                      (u "json"))
      end
  end.

End WithLibrary.

End Json.

(** *** [selectors/js.js] *)

Module Js.

(** The evaluation of a script by the runtime: [run code source context] is
    what the function built by [new Function] returns or throws for the
    expression [code], with [source] and [result] bound to the source, the
    tools of [prepareExecutionContext], and the properties of [context].  A
    result is a value of the model; it has no method [then]. *)
Definition Script := jsstring -> value -> value -> completion value.

Section WithRuntime.
Variable run : Script.

(** [executeJavaScript(code, context, options)] *)
Definition executeJavaScript (code : jsstring) (source context_ : value)
  : completion value :=
  match run code source context_ with
  | Normal result => Normal result
  | Thrown error => Thrown (mkExn Error (msg_code_failed ++ message error))
  end.

(** [jsSelector(source, code, context, options)] *)
Definition jsSelector (source : value) (code : jsstring) (context_ : value)
  : completion ParseResult :=
  match executeJavaScript code source context_ with
  | Normal result =>
      Normal (plain_result (negb (isEmpty result)) result code (u "js"))
  | Thrown error =>
      Thrown (mkExn RuleParseError (msg_js_selector_failed ++ message error))
  end.

End WithRuntime.

End Js.

(** *** [selectors/xpath.js] *)

Module XPath.

(** A node, as [extractXPathResult] reads it. *)
Record Node := {
  nodeType : nat;
  textContent : jsstring;
  (** [node.value], of an attribute node *)
  node_value : jsstring;
  (** [String(node)] *)
  node_string : jsstring
}.

(** An element of the array that [xpath.select] returns. *)
Inductive Item :=
| ItemString (s : jsstring)
| ItemNumber (z : Z)
| ItemBoolean (b : bool)
| ItemNode (n : Node).

(** What [xpath.select(expression, doc)] returns: an array, or the string,
    the number or the boolean that the expression denotes. *)
Inductive Selection :=
| SelectedItems (items : list Item)
| SelectedString (s : jsstring)
| SelectedNumber (z : Z)
| SelectedBoolean (b : bool).

(** The [jsdom] and [xpath] libraries: [prepareDocument(source)], which loads
    the source, and [xpath.select]. *)
Record XPathLibrary := {
  Document : Type;
  prepareDocument : value -> completion Document;
  select : jsstring -> Document -> completion Selection
}.

(** [isEmpty(result)] on what [select] returns *)
Definition isEmptySelection (result : Selection) : bool :=
  match result with
  | SelectedItems items => match items with [] => true | _ => false end
  | SelectedString s => isEmpty (VStr s)
  | SelectedNumber z => isEmpty (VNum z)
  | SelectedBoolean b => isEmpty (VBool b)
  end.

(** The function mapped over the array in [extractXPathResult]. *)
Definition item_text (node : Item) : jsstring :=
  match node with
  | ItemString s => s
  | ItemNumber z => js_String (VNum z)
  | ItemBoolean b => js_String (VBool b)
  | ItemNode n =>
      if Nat.eqb (nodeType n) 1 then trim (textContent n)
      else if Nat.eqb (nodeType n) 2 then node_value n
      else if Nat.eqb (nodeType n) 3 then trim (textContent n)
      else node_string n
  end.

(** [extractXPathResult(result)] *)
Definition extractXPathResult (result : Selection) : value :=
  match result with
  | SelectedItems items =>
      let values :=
        filter (fun v => negb (isEmpty v)) (map (fun node => VStr (item_text node)) items) in
      match values with
      | [v] => v
      | _ => VArr values
      end
  | SelectedString s => VStr s
  | SelectedNumber z => VStr (js_String (VNum z))
  | SelectedBoolean b => VStr (js_String (VBool b))
  end.

Section WithLibrary.
Variable L : XPathLibrary.

(** [xpathSelector(source, expression, options)] *)
Definition xpathSelector (source : value) (expression : jsstring)
  : completion ParseResult :=
  let rethrow (error : exn) : completion ParseResult :=
    Thrown (mkExn RuleParseError (msg_xpath_failed ++ message error)) in
  match prepareDocument L source with
  | Thrown error => rethrow error
  | Normal doc =>
      match select L expression doc with
      | Thrown error => rethrow error
      | Normal result =>
          if isEmptySelection result
          then Normal (plain_result false VNull expression (u "xpath"))
          else
            let extractedData := extractXPathResult result in
            Normal (plain_result (negb (isEmpty extractedData)) extractedData expression
                      (u "xpath"))
      end
  end.

End WithLibrary.

End XPath.

(** *** [selectors/regex.js] *)

Module Regex.

(** The array of a match: the matched text, then the captures; [None] is
    [undefined], the value of a group that took no part in the match. *)
Definition MatchArray := list (option jsstring).

(** The regular expressions of the runtime, as the selectors use them. *)
Record RegExpRuntime := {
  Pattern : Type;
  (** [new RegExp(regex, flags)] *)
  compile : jsstring -> jsstring -> completion Pattern;
  (** The results of the successive calls [regex.exec(text)] of a loop that
      runs until a call returns [null]; [None] when no call does. *)
  exec_loop : Pattern -> jsstring -> option (list MatchArray);
  (** [regex.exec(text)]; [None] is [null] *)
  exec_once : Pattern -> jsstring -> option MatchArray;
  (** [text.replace(regex, replacement)] *)
  replace_with : Pattern -> jsstring -> jsstring -> jsstring;
  (** [text.split(regex)] *)
  split_by : Pattern -> jsstring -> list (option jsstring);
  (** [regex.test(text)] *)
  test_on : Pattern -> jsstring -> bool
}.

(** The properties that [extractMatchGroups] reads on [options], with
    [{ groupIndex = null, allGroups = false }]. *)
Record MatchOptions := {
  groupIndex : option Z;
  allGroups : bool
}.

Inductive OperationType := OpMatch | OpReplace | OpSplit | OpTest.

Record Operation := {
  op_type : OperationType;
  op_pattern : jsstring;
  op_global : bool;
  (** present for [OpReplace] only *)
  op_replacement : jsstring
}.

(** [prepareTextSource(source)] *)
Definition prepareTextSource (source : value) : jsstring := js_String source.

(** [parseRegexOperation(pattern)] *)
Definition parseRegexOperation (pattern : jsstring) : Operation :=
  if includes (u ":test") pattern then
    {| op_type := OpTest;
       op_pattern := nth 0 (split_string (u ":test") 0 [] pattern) [];
       op_global := false;
       op_replacement := [] |}
  else if includes (u ":split") pattern then
    {| op_type := OpSplit;
       op_pattern := nth 0 (split_string (u ":split") 0 [] pattern) [];
       op_global := false;
       op_replacement := [] |}
  else if includes (u ":replace:") pattern then
    let parts := split_string (u ":replace:") 0 [] pattern in
    let regexPart := nth 0 parts [] in
    let replacement := nth 1 parts [] in
    if startsWith (u "g:") regexPart then
      {| op_type := OpReplace;
         op_pattern := substring 2 regexPart;
         op_global := true;
         op_replacement := replacement |}
    else
      {| op_type := OpReplace;
         op_pattern := regexPart;
         op_global := false;
         op_replacement := replacement |}
  else if startsWith (u "g:") pattern then
    {| op_type := OpMatch;
       op_pattern := substring 2 pattern;
       op_global := true;
       op_replacement := [] |}
  else
    {| op_type := OpMatch;
       op_pattern := pattern;
       op_global := false;
       op_replacement := [] |}.

(** The class of the flags in [parseRegexPattern]: [g], [i], [m], [s], [y]. *)
Definition is_flag (c : N) : bool :=
  ((c =? 103) || (c =? 105) || (c =? 109) || (c =? 115) || (c =? 121))%N.

(** The match of [parseRegexPattern]: a slash, a body of one code unit or
    more on one line, a slash, and flags up to the end.  The flags hold no
    slash: the second slash is the last of the pattern. *)
Definition match_wrapped (pattern : jsstring) : option (jsstring * jsstring) :=
  match pattern with
  | 47%N :: rest =>
      match Css.split_last 47 rest with
      | Some (body, flags_) =>
          match body with
          | [] => None
          | _ => if one_line body && forallb is_flag flags_
                 then Some (body, flags_) else None
          end
      | None => None
      end
  | _ => None
  end.

(** [parseRegexPattern(pattern, forceGlobal)]: [{ regex, flags }] *)
Definition parseRegexPattern (pattern : jsstring) (forceGlobal : bool)
  : jsstring * jsstring :=
  match match_wrapped pattern with
  | Some (body, flags_) =>
      (body,
       if forceGlobal && negb (includes (u "g") flags_) then flags_ ++ u "g" else flags_)
  | None => (pattern, if forceGlobal then u "g" else [])
  end.

Definition group_value (g : option jsstring) : value :=
  match g with
  | Some s => VStr s
  | None => VUndefined
  end.

(** [extractMatchGroups(match, options)] *)
Definition extractMatchGroups (match_ : MatchArray) (options : MatchOptions) : value :=
  let by_default :=
    if 1 <? List.length match_ then group_value (nth 1 match_ None)
    else group_value (nth 0 match_ None) in
  if allGroups options then VArr (map group_value (skipn 1 match_))
  else
    match groupIndex options with
    | Some g =>
        if ((0 <=? g) && (g <? Z.of_nat (List.length match_)))%Z
        then group_value (nth (Z.to_nat g) match_ None)
        else by_default
    | None => by_default
    end.

Section WithRuntime.
Variable R : RegExpRuntime.

(** [executeRegexMatch(text, regexStr, flags, options)]; [None] when the
    loop of the global match does not end. *)
Definition executeRegexMatch (text regexStr flags_ : jsstring) (options : MatchOptions)
  : option (completion value) :=
  match compile R regexStr flags_ with
  | Thrown e => Some (Thrown e)
  | Normal regex =>
      if includes (u "g") flags_ then
        match exec_loop R regex text with
        | None => None
        | Some found =>
            let matches := map (fun m => extractMatchGroups m options) found in
            Some (Normal (match matches with
                          | [] => VNull
                          | _ => VArr matches
                          end))
        end
      else
        Some (Normal (match exec_once R regex text with
                      | Some m => extractMatchGroups m options
                      | None => VNull
                      end))
  end.

(** [regexReplaceSelector(source, pattern, replacement, options)], with
    [options.global] as [isGlobal] *)
Definition regexReplaceSelector (source : value) (pattern replacement : jsstring)
    (isGlobal : bool) : completion ParseResult :=
  let text := prepareTextSource source in
  let '(regex, flags_) := parseRegexPattern pattern isGlobal in
  match compile R regex flags_ with
  | Thrown error =>
      Thrown (mkExn RuleParseError (msg_regex_replace_failed ++ message error))
  | Normal regexObj =>
      let result := replace_with R regexObj text replacement in
      Normal (plain_result true (VStr result) (pattern ++ u " -> " ++ replacement)
                (u "regex"))
  end.

(** The callback of the filter in [regexSplitSelector] on every part: a part
    that is [undefined] has no method [trim]. *)
Fixpoint keep_parts (parts : list (option jsstring)) : completion (list jsstring) :=
  match parts with
  | [] => Normal []
  | None :: _ =>
      Thrown (mkExn TypeError (u "Cannot read properties of undefined (reading 'trim')"))
  | Some part :: rest =>
      match keep_parts rest with
      | Thrown e => Thrown e
      | Normal kept =>
          if negb (isEmpty (VStr (trim part))) then Normal (part :: kept) else Normal kept
      end
  end.

(** [regexSplitSelector(source, pattern, options)] *)
Definition regexSplitSelector (source : value) (pattern : jsstring)
  : completion ParseResult :=
  let rethrow (error : exn) : completion ParseResult :=
    Thrown (mkExn RuleParseError (msg_regex_split_failed ++ message error)) in
  let text := prepareTextSource source in
  let '(regex, flags_) := parseRegexPattern pattern false in
  match compile R regex flags_ with
  | Thrown error => rethrow error
  | Normal regexObj =>
      match keep_parts (split_by R regexObj text) with
      | Thrown error => rethrow error
      | Normal result =>
          Normal (plain_result (0 <? List.length result)
                    (match result with
                     | [part] => VStr part
                     | _ => VArr (map VStr result)
                     end)
                    (u "split(" ++ pattern ++ u ")") (u "regex"))
      end
  end.

(** [regexTestSelector(source, pattern, options)] *)
Definition regexTestSelector (source : value) (pattern : jsstring)
  : completion ParseResult :=
  let text := prepareTextSource source in
  let '(regex, flags_) := parseRegexPattern pattern false in
  match compile R regex flags_ with
  | Thrown error =>
      Thrown (mkExn RuleParseError (msg_regex_test_failed ++ message error))
  | Normal regexObj =>
      let isValid := test_on R regexObj text in
      Normal (plain_result true (VBool isValid) (u "test(" ++ pattern ++ u ")")
                (u "regex"))
  end.

(** [regexSelector(source, pattern, options)]; [None] when it does not
    return. *)
Definition regexSelector (source : value) (pattern : jsstring) (options : MatchOptions)
  : option (completion ParseResult) :=
  let rethrow (error : exn) : completion ParseResult :=
    Thrown (mkExn RuleParseError (msg_regex_failed ++ message error)) in
  let caught (c : completion ParseResult) : completion ParseResult :=
    match c with
    | Normal r => Normal r
    | Thrown error => rethrow error
    end in
  let text := VStr (prepareTextSource source) in
  let operation := parseRegexOperation pattern in
  match op_type operation with
  | OpReplace =>
      Some (caught (regexReplaceSelector text (op_pattern operation)
                      (op_replacement operation) (op_global operation)))
  | OpSplit => Some (caught (regexSplitSelector text (op_pattern operation)))
  | OpTest => Some (caught (regexTestSelector text (op_pattern operation)))
  | OpMatch =>
      let '(regex, flags_) := parseRegexPattern (op_pattern operation) (op_global operation) in
      match executeRegexMatch (prepareTextSource source) regex flags_ options with
      | None => None
      | Some (Thrown error) => Some (rethrow error)
      | Some (Normal result) =>
          if isEmpty result
          then Some (Normal (plain_result false VNull pattern (u "regex")))
          else Some (Normal (plain_result true result pattern (u "regex")))
      end
  end.

End WithRuntime.

End Regex.

(** *** [selectors/css.js]: [cssContainsSelector] *)

Module CssContains.

(** The [cheerio] library on collections of elements. *)
Record Dom := {
  Elements : Type;
  (** [cheerio.load] on the source, then [$(selector)] *)
  select : value -> jsstring -> completion Elements;
  (** [elements.filter(...)]: the elements whose text includes [text] *)
  filter_text : Elements -> jsstring -> Elements;
  (** [elements.find(expression)] *)
  find : Elements -> jsstring -> completion Elements;
  (** [elements.length] *)
  count : Elements -> nat;
  (** For each element in order, the value that [extractCssResult] reads
      from it for the attribute. *)
  read : Elements -> option jsstring -> list value
}.

(** The lazy group of the pattern of [cssContainsSelector] and what follows
    it: the group has one code unit at least, and ends before the first
    closing parenthesis after that. *)
Definition close_paren (rest : jsstring) : option (jsstring * jsstring) :=
  match rest with
  | [] => None
  | c :: rest' =>
      match split_first 41 rest' with
      | Some (t, afterContains) => Some (c :: t, afterContains)
      | None => None
      end
  end.

(** The greedy first group: the last occurrence of [:contains(] that leaves
    a code unit before it and that the rest of the pattern matches. *)
Fixpoint last_contains (s : jsstring) : option (jsstring * jsstring * jsstring) :=
  match s with
  | [] => None
  | c :: rest =>
      match last_contains rest with
      | Some (baseSelector, containsText, afterContains) =>
          Some (c :: baseSelector, containsText, afterContains)
      | None =>
          if startsWith (u ":contains(") rest then
            match close_paren (skipn 10 rest) with
            | Some (containsText, afterContains) => Some ([c], containsText, afterContains)
            | None => None
            end
          else None
      end
  end.

(** The match of the selector against the pattern of [cssContainsSelector]:
    [(baseSelector, containsText, afterContains)].  No group crosses a line
    terminator. *)
Definition match_contains (selector_ : jsstring)
  : option (jsstring * jsstring * jsstring) :=
  if one_line selector_ then last_contains selector_ else None.

(** [containsText.replace(re, '')] for the global expression that matches a
    single or a double quotation mark. *)
Definition remove_quotes (s : jsstring) : jsstring :=
  filter (fun c => negb ((c =? 39) || (c =? 34))%N) s.

Section WithLibrary.
Variable cheerio : Css.Cheerio.
Variable dom : Dom.

(** [cssContainsSelector(source, selector, options)] *)
Definition cssContainsSelector (source : value) (selector_ : jsstring)
  : completion ParseResult :=
  let rethrow (error : exn) : completion ParseResult :=
    Thrown (mkExn RuleParseError (msg_contains_failed ++ message error)) in
  match match_contains selector_ with
  | None =>
      match Css.cssSelector cheerio source selector_ with
      | Normal r => Normal r
      | Thrown error => rethrow error
      end
  | Some (baseSelector, containsText, afterContains) =>
      match select dom source baseSelector with
      | Thrown error => rethrow error
      | Normal baseElements =>
          let filteredElements :=
            filter_text dom baseElements (remove_quotes containsText) in
          if Nat.eqb (count dom filteredElements) 0
          then Normal (plain_result false VNull selector_ (u "css"))
          else
            let by_default :=
              Normal (plain_result true
                        (Css.extractCssResult (read dom filteredElements None))
                        selector_ (u "css")) in
            match afterContains with
            | [] => by_default
            | _ =>
                let '(expression, attribute) := Css.parseCssExpression afterContains in
                match expression with
                | _ :: _ =>
                    match find dom filteredElements expression with
                    | Thrown error => rethrow error
                    | Normal finalElements =>
                        Normal (plain_result (0 <? count dom finalElements)
                                  (Css.extractCssResult (read dom finalElements attribute))
                                  selector_ (u "css"))
                    end
                | [] =>
                    match attribute with
                    | Some (c :: a) =>
                        Normal (plain_result true
                                  (Css.extractCssResult
                                     (read dom filteredElements (Some (c :: a))))
                                  selector_ (u "css"))
                    | _ => by_default
                    end
                end
            end
      end
  end.

End WithLibrary.

End CssContains.

(* ================================================================== *)
(** ** Further notions *)

Definition is_quote (c : N) : bool := ((c =? 34) || (c =? 39))%N.

(** A string without quotation marks, single or double. *)
Definition quote_free (s : jsstring) : bool := forallb (fun c => negb (is_quote c)) s.

(** A string without the code unit [c]. *)
Definition lacks (c : N) (s : jsstring) : bool := forallb (fun x => negb (N.eqb x c)) s.

(** What the attempt [c] adds to the results of a concatenation. *)
Definition concat_piece (ignoreEmpty : bool) (c : completion ParseResult)
  : list jsstring :=
  match c with
  | Normal r =>
      if success r && negb (isEmpty (data r)) then [stringify r]
      else if ignoreEmpty then [] else [[]]
  | Thrown _ => if ignoreEmpty then [] else [[]]
  end.

Definition concat_pieces (ignoreEmpty : bool) (cs : list (completion ParseResult))
  : list jsstring :=
  flat_map (concat_piece ignoreEmpty) cs.

(** What one turn of the loop of [batchRegexCleanOperator] computes from
    the rule and the text so far: the cleaned text and the rule applied, or
    what is thrown. *)
Definition batch_step (RE : RegExpEngine) (options : Options)
    (rule : RegexClean.CleanRule) (result : jsstring) : completion (jsstring * jsstring) :=
  match (match rule with
         | RegexClean.RuleString s => RegexClean.parseCleanRule s
         | RegexClean.RuleObject p r => Normal (p, r)
         end) with
  | Thrown e => Thrown e
  | Normal (pattern, replacement) =>
      match RegexClean.cleanText RE (VStr result) pattern replacement options with
      | Thrown e => Thrown e
      | Normal cleanResult =>
          Normal (cleanResult, u "##" ++ pattern ++ u "##" ++ replacement)
      end
  end.

(** The text that the loop of [batchRegexCleanOperator] leaves. *)
Definition batch_text (RE : RegExpEngine) (options : Options)
    (rules : list RegexClean.CleanRule) (text : jsstring) : jsstring :=
  fst (fst (RegexClean.batch_loop RE options rules 0 text [] [])).

(** The call of the selector in [_handleSingleSelector], before the index
    options are applied to what it returns. *)
Definition selector_call (AD : Adapters) (opts : BookSourceRuleEngine.EngineOptions)
    (rule : jsstring) (source context_ : value) : completion ParseResult :=
  let '(selectorType, expression, index) := BookSourceRuleEngine._parseSelector opts rule in
  let options := BookSourceRuleEngine.options_value index in
  if str_eqb selectorType (u "css") then
    if includes (u ":contains(") expression
    then cssContainsSelector AD source expression options
    else Css.cssSelector (cheerio AD) source expression
  else if str_eqb selectorType (u "xpath") then
    xpathSelector AD source expression options
  else if str_eqb selectorType (u "json") then
    jsonSelector AD source expression options
  else if str_eqb selectorType (u "regex") then
    regexSelector AD source expression options
  else if str_eqb selectorType (u "js") then
    jsSelector AD source expression
      (BookSourceRuleEngine.spread (BookSourceRuleEngine.context opts) context_)
  else Thrown (mkExn Error (msg_unsupported_selector ++ selectorType)).

(** The rule of the success predicate: a result with empty data is a
    failure. *)
Definition empty_fails (r : ParseResult) : Prop :=
  isEmpty (data r) = true -> success r = false.

(** Two results with the same success and the same data. *)
Definition same_verdict (a b : ParseResult) : Prop :=
  success a = success b /\ data a = data b.

(** Where a result of [RuleEngine] comes from when it is not built by an
    evaluator that computes success from emptiness: the two text selectors,
    the regular expression selector and the [:contains] selector, each
    called on the source of the rule. *)
Definition RuleEngine_origin (AD : Adapters) (source context : value)
    (out : ParseResult) : Prop :=
  (exists text, Text.textSelector source text = Normal out)
  \/ (exists text, Text.quotedTextSelector source text = Normal out)
  \/ (exists pattern, regexSelector AD source pattern context = Normal out)
  \/ (exists selector_, cssContainsSelector AD source selector_ context = Normal out).

(** The same for [BookSourceRuleEngine] on the rule [r]: the verdict of the
    result is that of the regular expression selector or of the [:contains]
    selector on the source, of the batch cleanup with the steps of the rule,
    or of an index operator. *)
Definition BookSource_origin (RE : RegExpEngine) (AD : Adapters)
    (opts : BookSourceRuleEngine.EngineOptions) (r : jsstring) (source : value)
    (out : ParseResult) : Prop :=
  exists origin,
    same_verdict out origin
    /\ ((exists pattern options, regexSelector AD source pattern options = Normal origin)
        \/ (exists selector_ options,
               cssContainsSelector AD source selector_ options = Normal origin)
        \/ (includes (u "##") (trim r) = true
            /\ exists input,
                 origin = RegexClean.batchRegexCleanOperator RE input
                            (map (fun pr => RegexClean.RuleObject (fst pr) (snd pr))
                               (BookSourceRuleEngine.clean_pairs
                                  (skipn 1 (split_hashes [] (trim r)))))
                            (BookSourceRuleEngine.operators opts))
        \/ (exists d v, indexOperator AD d v = Normal origin)
        \/ (exists d a b, rangeOperator AD d a b = Normal origin)
        \/ (exists d l, multiIndexOperator AD d l = Normal origin)).

(** The selectors of the adapters respect the rule. *)
Definition adapter_empty_fails
    (selector_ : value -> jsstring -> value -> completion ParseResult) : Prop :=
  forall source expression third out,
    selector_ source expression third = Normal out -> empty_fails out.

(** The adapters made of the selectors above on given libraries.  The
    regular expression selector and the index operators are left as they
    come. *)
Definition repository_adapters
    (cheerio_ : Css.Cheerio) (dom : CssContains.Dom) (json : Json.JsonLibrary)
    (run : Js.Script) (xpath : XPath.XPathLibrary) (others : Adapters) : Adapters :=
  {| cheerio := cheerio_;
     cssContainsSelector := fun source selector_ _ =>
       CssContains.cssContainsSelector cheerio_ dom source selector_;
     xpathSelector := fun source expression _ =>
       XPath.xpathSelector xpath source expression;
     jsonSelector := fun source path _ => Json.jsonSelector json source path;
     regexSelector := regexSelector others;
     jsSelector := fun source code context => Js.jsSelector run source code context;
     indexOperator := indexOperator others;
     rangeOperator := rangeOperator others;
     multiIndexOperator := multiIndexOperator others |}.

(* ================================================================== *)
(** ** Instances of the libraries *)

Module Instances.

(** The literal fragment of the regular expressions of [Examples], as the
    selectors of [selectors/regex.js] use it: a pattern made of decimal
    digits matches itself and has no group. *)
Fixpoint occurrences (p : jsstring) (skip : nat) (text : jsstring) : nat :=
  match text with
  | [] => 0
  | _ :: rest =>
      match skip with
      | S k => occurrences p k rest
      | O =>
          if startsWith p text then S (occurrences p (List.length p - 1) rest)
          else occurrences p 0 rest
      end
  end.

Definition digit_runtime : Regex.RegExpRuntime :=
  {| Regex.Pattern := jsstring * bool;
     Regex.compile := fun pattern flags_ =>
       match pattern with
       | [] => Thrown (mkExn SyntaxError (u "Invalid regular expression"))
       | _ => if forallb Examples.is_digit pattern
              then Normal (pattern, includes (u "g") flags_)
              else Thrown (mkExn SyntaxError (u "Invalid regular expression"))
       end;
     Regex.exec_loop := fun regex text =>
       Some (repeat [Some (fst regex)] (occurrences (fst regex) 0 text));
     Regex.exec_once := fun regex text =>
       if includes (fst regex) text then Some [Some (fst regex)] else None;
     Regex.replace_with := fun regex text replacement =>
       Examples.replace_literal (fst regex) replacement (snd regex) false 0 text;
     Regex.split_by := fun regex text =>
       map Some (split_string (fst regex) 0 [] text);
     Regex.test_on := fun regex text => includes (fst regex) text |}.

Definition default_match_options : Regex.MatchOptions :=
  {| Regex.groupIndex := None; Regex.allGroups := false |}.

(** The document [<li>a</li>]: one list item, with the text [a], without
    attribute and without element inside. *)
Record ListItem := {
  li_text : jsstring;
  li_html : jsstring;
  li_attributes : list (jsstring * jsstring)
}.

Definition list_page : value := VStr (u "<li>a</li>").

Definition list_items (source : value) (selector_ : jsstring) : list ListItem :=
  match source with
  | VStr s =>
      if str_eqb s (u "<li>a</li>") && str_eqb selector_ (u "li")
      then [{| li_text := u "a"; li_html := u "a"; li_attributes := [] |}]
      else []
  | _ => []
  end.

Fixpoint attribute_of (a : jsstring) (attributes : list (jsstring * jsstring)) : value :=
  match attributes with
  | [] => VUndefined
  | (k, v) :: rest => if str_eqb k a then VStr v else attribute_of a rest
  end.

Definition read_item (attribute : option jsstring) (item : ListItem) : value :=
  match attribute with
  | None | Some [] => VStr (li_html item)
  | Some a =>
      if str_eqb a (u "text") then VStr (trim (li_text item))
      else if str_eqb a (u "html") then VStr (li_html item)
      else if str_eqb a (u "outerHTML") then VStr (u "<li>" ++ li_html item ++ u "</li>")
      else attribute_of a (li_attributes item)
  end.

Definition list_dom : CssContains.Dom :=
  {| CssContains.Elements := list ListItem;
     CssContains.select := fun source selector_ => Normal (list_items source selector_);
     CssContains.filter_text := fun elements text =>
       filter (fun item => includes text (li_text item)) elements;
     CssContains.find := fun elements expression => Normal [];
     CssContains.count := fun elements => List.length elements;
     CssContains.read := fun elements attribute => map (read_item attribute) elements |}.

Definition list_cheerio : Css.Cheerio :=
  fun source expression attribute =>
    Normal (map (read_item attribute) (list_items source expression)).

(** Libraries that find nothing: a document without node, a JSON value in
    which no path selects anything, a script that evaluates to the empty
    string. *)
Definition empty_json : Json.JsonLibrary :=
  {| Json.JSON_parse := fun _ => Normal (VObj []);
     Json.JSONPath_query := fun _ _ => Normal [] |}.

Definition empty_script : Js.Script := fun _ _ _ => Normal (VStr []).

Definition empty_xpath : XPath.XPathLibrary :=
  {| XPath.Document := unit;
     XPath.prepareDocument := fun _ => Normal tt;
     XPath.select := fun _ _ => Normal (XPath.SelectedItems []) |}.

Definition list_adapters : Adapters :=
  repository_adapters list_cheerio list_dom empty_json empty_script empty_xpath
    Examples.sample_adapters.

End Instances.

(* ================================================================== *)
(** * Properties *)

(** ** Strings *)

Lemma str_eqb_eq : forall a b, str_eqb a b = true <-> a = b.
Proof.
  induction a as [|x a IH]; destruct b as [|y b]; simpl; split; intro H;
    try reflexivity; try discriminate.
  - apply andb_true_iff in H. destruct H as [Hx Hab].
    apply N.eqb_eq in Hx. apply IH in Hab. congruence.
  - inversion H; subst. rewrite N.eqb_refl. simpl. apply IH. reflexivity.
Qed.

Lemma str_eqb_refl : forall a, str_eqb a a = true.
Proof. intro a. apply str_eqb_eq. reflexivity. Qed.

Lemma str_eqb_neq : forall a b, str_eqb a b = false <-> a <> b.
Proof.
  intros a b. split.
  - intros H E. apply str_eqb_eq in E. congruence.
  - intro H. destruct (str_eqb a b) eqn:E; [|reflexivity].
    apply str_eqb_eq in E. contradiction.
Qed.

Lemma join_nil : forall l, join [] l = List.concat l.
Proof.
  induction l as [|x l IH]; [reflexivity|].
  destruct l as [|y l]; simpl in *.
  - rewrite app_nil_r. reflexivity.
  - rewrite IH. reflexivity.
Qed.

Lemma dropWhile_head : forall p s c rest,
  dropWhile p s = c :: rest -> p c = false.
Proof.
  induction s as [|x s IH]; simpl; intros c rest H; [discriminate|].
  destruct (p x) eqn:E.
  - eapply IH; eauto.
  - inversion H; subst. exact E.
Qed.

Lemma takeWhile_dropWhile : forall p s, takeWhile p s ++ dropWhile p s = s.
Proof.
  induction s as [|x s IH]; simpl; [reflexivity|].
  destruct (p x); simpl; congruence.
Qed.

Lemma takeWhile_all : forall p s, forallb p (takeWhile p s) = true.
Proof.
  induction s as [|x s IH]; simpl; [reflexivity|].
  destruct (p x) eqn:E; simpl; [rewrite E; exact IH | reflexivity].
Qed.

(** A trimmed string does not end with white space. *)
Lemma endsWithSpace_trimEnd : forall s, endsWithSpace (trimEnd s) = false.
Proof.
  intro s. unfold endsWithSpace, trimEnd. rewrite rev_involutive.
  destruct (dropWhile is_ws (rev s)) as [|c rest] eqn:E; [reflexivity|].
  eapply dropWhile_head; eauto.
Qed.

(** Trimming leaves a string that starts and ends outside white space. *)
Lemma trim_bracketed : forall a b x,
  is_ws a = false -> is_ws b = false -> trim (a :: x ++ [b]) = a :: x ++ [b].
Proof.
  intros a b x Ha Hb. unfold trim, trimStart, trimEnd. simpl. rewrite Ha.
  replace (rev (a :: x ++ [b])) with (b :: rev (a :: x)).
  - simpl. rewrite Hb. simpl. rewrite rev_app_distr, rev_involutive. reflexivity.
  - simpl. rewrite rev_app_distr. reflexivity.
Qed.

(** ** The fallback operator *)

Section FallbackProperties.
Variable St : Type.
Implicit Types sels pre post : list (Selector St).

(** A prefix of failed attempts only extends [rules] and [errors]. *)
Lemma fallback_loop_failed_prefix : forall pre st cs st1,
  executes pre st cs st1 -> all_failed cs ->
  forall rest i rules errs,
    Fallback.fallback_loop (pre ++ rest) i rules errs st
    = Fallback.fallback_loop rest (i + List.length pre)
        (rules ++ map (@rule_or_unknown St) pre)
        (errs ++ attempt_errors i pre cs) st1.
Proof.
  induction 1 as [st | sel tl st c st1 cs st2 Hex Hrun IH];
    intros Hfail rest i rules errs.
  - simpl. rewrite Nat.add_0_r, !app_nil_r. reflexivity.
  - inversion Hfail as [|? ? Hc Hcs]; subst.
    simpl. rewrite Hex.
    destruct c as [r | e]; simpl in Hc.
    + rewrite Hc. rewrite IH by assumption.
      rewrite <- !app_assoc. simpl. f_equal. lia.
    + rewrite IH by assumption.
      rewrite <- !app_assoc. simpl. f_equal. lia.
Qed.

Lemma last_map_Some : forall (front : list (Selector St)) x,
  last (map Some (front ++ [x])) None = Some x.
Proof.
  intros front x. rewrite map_app. simpl. apply last_last.
Qed.

End FallbackProperties.

(** C1.  If the sub-rules before [sel] all fail (each one throws, or returns
    without success, or returns empty data) and [sel] returns a successful
    result [r] with non-empty data, then [fallbackOperator] returns success
    with the data of [r], names [sel] as the rule used, and stops in the
    state that the call of [sel] left: whatever the sub-rules [post] to its
    right are, none of them is called. *)
Theorem fallbackOperator_first_success :
  forall (St : Type) (pre post : list (Selector St)) (sel : Selector St)
         (st st1 st2 : St) (cs : list (completion ParseResult)) (r : ParseResult),
    executes pre st cs st1 ->
    all_failed cs ->
    execute sel st1 = Some (Normal r, st2) ->
    success r = true ->
    isEmpty (data r) = false ->
    exists out,
      Fallback.fallbackOperator (pre ++ sel :: post) st = Some (out, st2)
      /\ success out = true
      /\ data out = data r
      /\ usedRule out = Some (rule_or_unknown sel)
      /\ fallbackIndex out = Some (List.length pre)
      /\ rule out = join (u " || ") (map (@rule_or_unknown St) (pre ++ [sel])).
Proof.
  intros St pre post sel st st1 st2 cs r Hrun Hfail Hex Hok Hdata.
  unfold Fallback.fallbackOperator.
  rewrite (fallback_loop_failed_prefix Hrun Hfail).
  simpl. rewrite Hex, Hok, Hdata. simpl.
  eexists. split; [reflexivity|]. simpl.
  repeat split. rewrite map_app. reflexivity.
Qed.

(** C5, as the code has it.  When every sub-rule fails, [fallbackOperator]
    calls the last sub-rule once more.  If that call returns, the result has
    success false, the data of the last sub-rule when it is truthy and null
    otherwise, and an error message that lists every failed attempt; if that
    call throws, the data is null and the message reports that exception
    only. *)
Theorem fallbackOperator_all_failed :
  forall (St : Type) (front : list (Selector St)) (lastSelector : Selector St)
         (st st1 st2 : St) (cs : list (completion ParseResult))
         (c : completion ParseResult),
    executes (front ++ [lastSelector]) st cs st1 ->
    all_failed cs ->
    execute lastSelector st1 = Some (c, st2) ->
    exists out,
      Fallback.fallbackOperator (front ++ [lastSelector]) st = Some (out, st2)
      /\ success out = false
      /\ match c with
         | Normal lastResult =>
             data out = (if truthy (data lastResult) then data lastResult else VNull)
             /\ error out =
                  Some (msg_all_failed ++
                        join (u "; ")
                          (map show_error
                             (attempt_errors 0 (front ++ [lastSelector]) cs)))
         | Thrown finalError =>
             data out = VNull
             /\ error out = Some (msg_all_failed_final ++ message finalError)
         end.
Proof.
  intros St front lastSelector st st1 st2 cs c Hrun Hfail Hex.
  unfold Fallback.fallbackOperator.
  pose proof (fallback_loop_failed_prefix Hrun Hfail [] 0 [] []) as Hloop.
  rewrite app_nil_r in Hloop. rewrite Hloop. simpl.
  rewrite last_map_Some, Hex.
  destruct c as [lastResult | finalError]; eexists; (split; [reflexivity|]);
    simpl; repeat split.
Qed.

Lemma fallbackOperator_first_success_witness :
  exists out,
    Fallback.fallbackOperator
      ([Examples.sel_none 0; Examples.sel_throw 1]
         ++ Examples.sel_title 2 :: [Examples.sel_loop 3]) []
    = Some (out, [0; 1; 2])
    /\ success out = true
    /\ data out = VStr (u "T")
    /\ usedRule out = Some (u "@css:.title@text")
    /\ fallbackIndex out = Some 2
    /\ rule out = u "@css:.none@text || @css:[ || @css:.title@text".
Proof.
  apply (@fallbackOperator_first_success (list nat)
           [Examples.sel_none 0; Examples.sel_throw 1] [Examples.sel_loop 3]
           (Examples.sel_title 2) [] [0; 1] [0; 1; 2]
           [Normal (plain_result false VNull (u ".none@text") (u "css"));
            Thrown (mkExn RuleParseError (msg_css_failed ++ u "parse error"))]
           (plain_result true (VStr (u "T")) (u ".title@text") (u "css"))).
  - repeat (econstructor; [reflexivity|]). constructor.
  - repeat constructor.
  - reflexivity.
  - reflexivity.
  - reflexivity.
Defined.

(** C5, as stated, fails on a chain that ends with the literal [@text:]: the
    last sub-rule's value is the empty string, and the operator returns null.
    The engine does so on the rule [@css:.none@text || @text:]. *)
Lemma fallbackOperator_last_value_counterexample :
  (exists lastResult out st,
     execute (Examples.sel_empty_text 1) [0] = Some (Normal lastResult, st)
     /\ succeeded (Normal lastResult) = false
     /\ data lastResult = VStr []
     /\ Fallback.fallbackOperator [Examples.sel_none 0; Examples.sel_empty_text 1] []
        = Some (out, [0; 1; 1])
     /\ success out = false
     /\ data out = VNull
     /\ data out <> data lastResult)
  /\ (exists lastResult out,
        RuleEngine.parseRule Examples.digit_regexp Examples.sample_adapters default_options 1
          Examples.html (u "@text:") (VObj []) = Some (Normal lastResult)
        /\ data lastResult = VStr []
        /\ RuleEngine.parse Examples.digit_regexp Examples.sample_adapters default_options 2
             Examples.html (u "@css:.none@text || @text:") (VObj []) = Some (Normal out)
        /\ success out = false
        /\ data out = VNull).
Proof.
  split.
  - eexists. eexists. eexists.
    split; [reflexivity|].
    split; [reflexivity|].
    split; [reflexivity|].
    split; [reflexivity|].
    split; [reflexivity|].
    split; [reflexivity|].
    discriminate.
  - eexists. eexists.
    split; [reflexivity|].
    split; [reflexivity|].
    split; [reflexivity|].
    split; reflexivity.
Qed.

Lemma fallbackOperator_all_failed_witness :
  exists out,
    Fallback.fallbackOperator ([Examples.sel_throw 0] ++ [Examples.sel_none 1]) []
    = Some (out, [0; 1; 1])
    /\ success out = false
    /\ data out = VNull
    /\ error out =
         Some (msg_all_failed ++
               u "[0] @css:[: " ++ msg_css_failed
               ++ u "parse error; [1] @css:.none@text: empty result").
Proof.
  destruct (@fallbackOperator_all_failed (list nat)
              [Examples.sel_throw 0] (Examples.sel_none 1) [] [0; 1] [0; 1; 1]
              [Thrown (mkExn RuleParseError (msg_css_failed ++ u "parse error"));
               Normal (plain_result false VNull (u ".none@text") (u "css"))]
              (Normal (plain_result false VNull (u ".none@text") (u "css"))))
    as [out [Hrun [Hok [Hdata Herr]]]].
  - repeat (econstructor; [reflexivity|]). constructor.
  - repeat constructor.
  - reflexivity.
  - exists out. repeat split; assumption.
Defined.

(** ** The concatenation operator *)

Section ConcatProperties.
Variable St : Type.

(** With [ignoreEmpty], the loop appends to [results] the processed data of
    the sub-rules that succeeded, and nothing for the others. *)
Lemma concat_loop_default : forall (sels : list (Selector St)) st cs st',
  executes sels st cs st' ->
  forall separator i results errs rules,
  exists errs',
    Concat.concat_loop separator true sels i results errs rules st
    = Some ((results
               ++ map (fun r => Concat.processDataForConcat (data r) r) (successes cs),
             errs',
             rules ++ map (@rule_or_unknown St) sels), st').
Proof.
  induction 1 as [st | sel tl st c st1 cs st2 Hex Hrun IH];
    intros separator i results errs rules.
  - exists errs. simpl. rewrite !app_nil_r. reflexivity.
  - simpl. rewrite Hex. destruct c as [r | e].
    + simpl. destruct (success r && negb (isEmpty (data r))) eqn:Hok.
      * destruct (IH separator (S i)
                    (results ++ [Concat.processDataForConcat (data r) r]) errs
                    (rules ++ [rule_or_unknown sel])) as [errs' Heq].
        exists errs'. rewrite Heq. simpl. rewrite <- !app_assoc. reflexivity.
      * simpl.
        destruct (IH separator (S i) results
                    (errs ++ [mkAttemptError (rule_or_unknown sel)
                                (u "empty result (ignored)") i])
                    (rules ++ [rule_or_unknown sel])) as [errs' Heq].
        exists errs'. rewrite Heq. rewrite <- !app_assoc. reflexivity.
    + simpl.
      destruct (IH separator (S i) results
                  (errs ++ [mkAttemptError (rule_or_unknown sel) (message e) i])
                  (rules ++ [rule_or_unknown sel])) as [errs' Heq].
      exists errs'. rewrite Heq. rewrite <- !app_assoc. reflexivity.
Qed.

End ConcatProperties.

(** [processDataForConcat] computes the text that the specification
    describes, on every non-empty value. *)
Lemma processDataForConcat_stringify : forall r,
  isEmpty (data r) = false ->
  Concat.processDataForConcat (data r) r = stringify r.
Proof.
  intros r Hne. unfold Concat.processDataForConcat, stringify.
  destruct (data r) as [| |b|z|s|items|props] eqn:Hd; simpl in Hne;
    try discriminate; try reflexivity.
  - destruct items as [|first items]; [discriminate|reflexivity].
  - destruct (str_eqb (selector r) (u "text")); [reflexivity|].
    simpl. symmetry. apply (trim_bracketed 123%N 125%N); reflexivity.
Qed.

Lemma successes_not_empty : forall cs r,
  In r (successes cs) -> isEmpty (data r) = false.
Proof.
  induction cs as [|c cs IH]; simpl; intros r Hin; [contradiction|].
  destruct c as [r0 | e]; [|auto].
  destruct (success r0 && negb (isEmpty (data r0))) eqn:Hok; [|auto].
  destruct Hin as [-> | Hin]; [|auto].
  apply andb_true_iff in Hok. destruct Hok as [_ Hok].
  apply negb_true_iff in Hok. exact Hok.
Qed.

Lemma map_process_stringify : forall cs,
  map (fun r => Concat.processDataForConcat (data r) r) (successes cs)
  = map stringify (successes cs).
Proof.
  intro cs. apply map_ext_in. intros r Hin.
  apply processDataForConcat_stringify. eapply successes_not_empty; eauto.
Qed.

(** C6.  With the empty separator and [ignoreEmpty], [concatOperator] returns
    the texts of the sub-rules that succeeded with non-empty data, joined in
    order; the sub-rules that fail, throw or return empty data add nothing;
    success is the non-emptiness of the joined string.  In particular, when
    [A] fails and [B] succeeds, the data of [A && B] is the text of [B]. *)
Theorem concatOperator_default :
  (forall (St : Type) (sels : list (Selector St)) (st st' : St)
          (cs : list (completion ParseResult)),
      executes sels st cs st' ->
      exists out,
        Concat.concatOperator [] true sels st = Some (out, st')
        /\ data out = VStr (List.concat (map stringify (successes cs)))
        /\ (success out = true <-> List.concat (map stringify (successes cs)) <> [])
        /\ processedCount out = Some (List.length (successes cs)))
  /\
  (forall (St : Type) (A B : Selector St) (st st1 st2 : St)
          (cA : completion ParseResult) (rB : ParseResult),
      execute A st = Some (cA, st1) ->
      succeeded cA = false ->
      execute B st1 = Some (Normal rB, st2) ->
      succeeded (Normal rB) = true ->
      exists out,
        Concat.concatOperator [] true [A; B] st = Some (out, st2)
        /\ data out = VStr (stringify rB)
        /\ (success out = true <-> stringify rB <> [])).
Proof.
  assert (General :
    forall (St : Type) (sels : list (Selector St)) (st st' : St)
           (cs : list (completion ParseResult)),
      executes sels st cs st' ->
      exists out,
        Concat.concatOperator [] true sels st = Some (out, st')
        /\ data out = VStr (List.concat (map stringify (successes cs)))
        /\ (success out = true <-> List.concat (map stringify (successes cs)) <> [])
        /\ processedCount out = Some (List.length (successes cs))).
  { intros St sels st st' cs Hrun.
    destruct (concat_loop_default Hrun [] 0 [] [] []) as [errs' Hloop].
    unfold Concat.concatOperator. rewrite Hloop. simpl.
    rewrite join_nil, map_process_stringify.
    eexists. split; [reflexivity|]. simpl.
    split; [reflexivity|]. split.
    - destruct (List.concat (map stringify (successes cs))); simpl; split;
        intro H; try discriminate; try reflexivity; congruence.
    - rewrite length_map. reflexivity. }
  split; [exact General|].
  intros St A B st st1 st2 cA rB HA HfailA HB HokB.
  destruct (General St [A; B] st st2 [cA; Normal rB]) as [out [Hrun [Hdata [Hok _]]]].
  - econstructor; [exact HA|]. econstructor; [exact HB|]. constructor.
  - assert (Hs : successes [cA; Normal rB] = [rB]).
    { simpl in HokB. destruct cA as [rA | e]; simpl in *.
      - rewrite HfailA, HokB. reflexivity.
      - rewrite HokB. reflexivity. }
    rewrite Hs in Hdata, Hok. simpl in Hdata, Hok. rewrite app_nil_r in Hdata, Hok.
    exists out. repeat split; try assumption; apply Hok.
Qed.

Lemma concatOperator_default_witness :
  (exists out,
     Concat.concatOperator [] true
       [Examples.sel_none 0; Examples.sel_title 1; Examples.sel_throw 2] []
     = Some (out, [0; 1; 2])
     /\ data out = VStr (u "T")
     /\ success out = true)
  /\ (exists out,
        Concat.concatOperator [] true [Examples.sel_throw 0; Examples.sel_title 1] []
        = Some (out, [0; 1])
        /\ data out = VStr (stringify Examples.title_result)).
Proof.
  split.
  - destruct (proj1 concatOperator_default (list nat)
                [Examples.sel_none 0; Examples.sel_title 1; Examples.sel_throw 2]
                [] [0; 1; 2]
                [Normal (plain_result false VNull (u ".none@text") (u "css"));
                 Normal Examples.title_result;
                 Thrown (mkExn RuleParseError (msg_css_failed ++ u "parse error"))])
      as [out [Hrun [Hdata [Hok _]]]].
    + repeat (econstructor; [reflexivity|]). constructor.
    + exists out. split; [exact Hrun|]. split; [exact Hdata|].
      apply Hok. discriminate.
  - destruct (proj2 concatOperator_default (list nat)
                (Examples.sel_throw 0) (Examples.sel_title 1) [] [0] [0; 1]
                (Thrown (mkExn RuleParseError (msg_css_failed ++ u "parse error")))
                Examples.title_result)
      as [out [Hrun [Hdata _]]]; try reflexivity.
    exists out. split; [exact Hrun | exact Hdata].
Defined.

(** ** The tokenizer of the concatenation operator *)

Lemma In_matches : forall (w : jsstring) (ms : list (nat * jsstring)) (i : nat),
  In i (map fst (filter (fun m => str_eqb (snd m) w) ms)) <-> In (i, w) ms.
Proof.
  intros w ms i. rewrite in_map_iff. split.
  - intros [[j tok] [Hfst Hin]]. simpl in Hfst. subst j.
    apply filter_In in Hin. destruct Hin as [Hin Heq]. simpl in Heq.
    apply str_eqb_eq in Heq. subst tok. exact Hin.
  - intro Hin. exists (i, w). split; [reflexivity|].
    apply filter_In. split; [exact Hin|]. simpl. apply str_eqb_refl.
Qed.

Lemma illegal_spacing_iff : forall ruleString i,
  Concat.illegal_spacing ruleString i = true <-> bad_spacing ruleString i.
Proof.
  intros ruleString i. unfold Concat.illegal_spacing, bad_spacing.
  rewrite !orb_true_iff, andb_true_iff, !Nat.eqb_eq, !Nat.leb_le.
  tauto.
Qed.

(** The first phase throws exactly when one of the operator tokens it visits
    has a refused spacing, and it throws nothing but the syntax error. *)
Lemma check_loop_throws : forall ruleString ms,
  (exists e, Concat.check_loop ruleString ms = Thrown e)
  <-> exists i, In (i, u "&&") ms /\ Concat.illegal_spacing ruleString i = true.
Proof.
  intros ruleString ms. induction ms as [|[index token] ms IH]; simpl.
  - split; [intros [e He]; discriminate | intros [i [[] _]]].
  - destruct (str_eqb token (u "&&")) eqn:Htok; simpl.
    + apply str_eqb_eq in Htok. subst token.
      destruct (Concat.illegal_spacing ruleString index) eqn:Hill.
      * split; [|intros _; eexists; reflexivity].
        intros _. exists index. split; [left; reflexivity | exact Hill].
      * rewrite IH. split.
        -- intros [i [Hin Hi]]. exists i. split; [right; exact Hin | exact Hi].
        -- intros [i [[Heq | Hin] Hi]].
           ++ inversion Heq; subst. congruence.
           ++ exists i. split; assumption.
    + rewrite IH. apply str_eqb_neq in Htok. split.
      * intros [i [Hin Hi]]. exists i. split; [right; exact Hin | exact Hi].
      * intros [i [[Heq | Hin] Hi]].
        -- inversion Heq; subst. contradiction Htok. reflexivity.
        -- exists i. split; assumption.
Qed.

Lemma check_loop_cases : forall ruleString ms,
  Concat.check_loop ruleString ms = Normal tt
  \/ Concat.check_loop ruleString ms = Thrown (mkExn SyntaxError msg_illegal_and).
Proof.
  intros ruleString ms. induction ms as [|[index token] ms IH]; simpl.
  - left. reflexivity.
  - destruct (negb (str_eqb token (u "&&"))); [exact IH|].
    destruct (Concat.illegal_spacing ruleString index); [right; reflexivity | exact IH].
Qed.

Lemma pushSegment_app : forall rules seg,
  Concat.pushSegment rules seg = rules ++ Concat.pushSegment [] seg.
Proof.
  intros rules seg. unfold Concat.pushSegment.
  destruct (startsWith (u "@text:") (trim seg) && negb (str_eqb seg (trim seg))
            && endsWithSpace seg); reflexivity.
Qed.

(** The second phase pushes the pieces between the delimiters. *)
Lemma split_loop_cut : forall ruleString ms rules hasDelimiter lastIndex,
  let ds := map fst (filter (fun m => str_eqb (snd m) (u " && ")) ms) in
  let '(rules', hasDelimiter', lastIndex') :=
    Concat.split_loop ruleString ms rules hasDelimiter lastIndex in
  Concat.pushSegment rules' (skipn lastIndex' ruleString)
    = rules ++ flat_map (Concat.pushSegment []) (cut ruleString ds lastIndex)
  /\ hasDelimiter' = hasDelimiter || negb (Nat.eqb (List.length ds) 0).
Proof.
  intros ruleString ms. induction ms as [|[index token] ms IH];
    intros rules hasDelimiter lastIndex; simpl.
  - split; [rewrite app_nil_r; apply pushSegment_app | rewrite orb_false_r; reflexivity].
  - destruct (str_eqb token (u " && ")) eqn:Htok; simpl.
    + specialize (IH (Concat.pushSegment rules (slice lastIndex index ruleString))
                     true (index + 4)).
      simpl in IH.
      destruct (Concat.split_loop ruleString ms
                  (Concat.pushSegment rules (slice lastIndex index ruleString))
                  true (index + 4)) as [[rules' hd'] li'].
      destruct IH as [IH1 IH2]. split.
      * rewrite IH1. rewrite (pushSegment_app rules). rewrite <- app_assoc. reflexivity.
      * rewrite IH2. rewrite orb_true_r. reflexivity.
    + apply IH.
Qed.

(** A pushed segment is empty exactly when the piece is blank. *)
Lemma pushSegment_empty : forall segs,
  existsb (fun seg => List.length seg =? 0) (flat_map (Concat.pushSegment []) segs) = true
  <-> exists seg, In seg segs /\ trim seg = [].
Proof.
  assert (One : forall seg,
    existsb (fun seg => List.length seg =? 0) (Concat.pushSegment [] seg) = true
    <-> trim seg = []).
  { intro seg. unfold Concat.pushSegment.
    destruct (startsWith (u "@text:") (trim seg)) eqn:Hstart; simpl.
    - assert (Hne : trim seg <> []).
      { intro E. rewrite E in Hstart. discriminate. }
      assert (Hs : trimStart seg <> []).
      { intro E. apply Hne. unfold trim. rewrite E. reflexivity. }
      destruct (negb (str_eqb seg (trim seg)) && endsWithSpace seg); simpl.
      + destruct (trimStart seg); [contradiction|]. simpl. split; [discriminate|].
        intro E. contradiction.
      + destruct (trim seg); [contradiction|]. simpl. split; discriminate.
    - destruct (trim seg); simpl; split; try reflexivity; discriminate. }
  induction segs as [|seg segs IH]; simpl.
  - split; [discriminate | intros [seg [[] _]]].
  - rewrite existsb_app, orb_true_iff, One, IH. split.
    + intros [H | [seg' [Hin H]]].
      * exists seg. split; [left; reflexivity | exact H].
      * exists seg'. split; [right; exact Hin | exact H].
    + intros [seg' [[-> | Hin] H]].
      * left. exact H.
      * right. exists seg'. split; assumption.
Qed.

(** What [parseConcatRule] returns once the first phase has passed. *)
Lemma parseConcatRule_second_phase : forall ruleString,
  Concat.check_loop ruleString (Concat.matchAll Concat.checkRE ruleString) = Normal tt ->
  Concat.parseConcatRule ruleString =
    let rules := flat_map (Concat.pushSegment []) (raw_segments ruleString) in
    if negb (Nat.eqb (List.length (delimiters ruleString)) 0)
       && existsb (fun seg => List.length seg =? 0) rules
    then Thrown (mkExn SyntaxError msg_empty_segment)
    else Normal rules.
Proof.
  intros ruleString Hcheck. unfold Concat.parseConcatRule. rewrite Hcheck.
  pose proof (split_loop_cut ruleString (Concat.matchAll Concat.splitRE ruleString)
                [] false 0) as H.
  simpl in H.
  destruct (Concat.split_loop ruleString (Concat.matchAll Concat.splitRE ruleString)
              [] false 0) as [[rules' hd'] li'].
  destruct H as [H1 H2]. rewrite H1, H2. reflexivity.
Qed.

(** C2.  [parseConcatRule] throws, and then a SyntaxError, exactly when a
    bare operator has no space on one side or two or more spaces on both
    sides, or when a delimiter was found and a segment is blank.  The rules
    [a&&b], [a &&b], [a&& b] and [a  &&  b] are refused; [a  && b] and
    [a &&  b] are accepted, the surplus space belonging to the piece next to
    it, which is then trimmed as every segment is. *)
Theorem parseConcatRule_syntax_errors :
  (forall ruleString,
      (exists e, Concat.parseConcatRule ruleString = Thrown e /\ name e = SyntaxError)
      <-> ((exists i, In i (bare_ands ruleString) /\ bad_spacing ruleString i)
           \/ (delimiters ruleString <> []
               /\ exists seg, In seg (raw_segments ruleString) /\ trim seg = [])))
  /\ (forall ruleString,
         (exists e, Concat.parseConcatRule ruleString = Thrown e)
         <-> (exists e, Concat.parseConcatRule ruleString = Thrown e /\ name e = SyntaxError))
  /\ Concat.parseConcatRule (u "a&&b") = Thrown (mkExn SyntaxError msg_illegal_and)
  /\ Concat.parseConcatRule (u "a &&b") = Thrown (mkExn SyntaxError msg_illegal_and)
  /\ Concat.parseConcatRule (u "a&& b") = Thrown (mkExn SyntaxError msg_illegal_and)
  /\ Concat.parseConcatRule (u "a  &&  b") = Thrown (mkExn SyntaxError msg_illegal_and)
  /\ (Concat.parseConcatRule (u "a  && b") = Normal [u "a"; u "b"]
      /\ raw_segments (u "a  && b") = [u "a "; u "b"])
  /\ (Concat.parseConcatRule (u "a &&  b") = Normal [u "a"; u "b"]
      /\ raw_segments (u "a &&  b") = [u "a"; u " b"]).
Proof.
  assert (Main : forall ruleString,
      (exists e, Concat.parseConcatRule ruleString = Thrown e /\ name e = SyntaxError)
      <-> ((exists i, In i (bare_ands ruleString) /\ bad_spacing ruleString i)
           \/ (delimiters ruleString <> []
               /\ exists seg, In seg (raw_segments ruleString) /\ trim seg = []))).
  { intro ruleString.
    assert (Hfirst :
      (exists i, In i (bare_ands ruleString) /\ bad_spacing ruleString i)
      <-> exists e, Concat.check_loop ruleString
                      (Concat.matchAll Concat.checkRE ruleString) = Thrown e).
    { rewrite check_loop_throws. split; intros [i [Hin Hi]]; exists i.
      - split; [apply In_matches; exact Hin | apply illegal_spacing_iff; exact Hi].
      - split; [apply In_matches; exact Hin | apply illegal_spacing_iff; exact Hi]. }
    destruct (check_loop_cases ruleString (Concat.matchAll Concat.checkRE ruleString))
      as [Hpass | Hthrow].
    - (* the first phase passes *)
      rewrite (parseConcatRule_second_phase _ Hpass). simpl.
      assert (Hno : ~ exists i, In i (bare_ands ruleString) /\ bad_spacing ruleString i).
      { rewrite Hfirst. intros [e He]. congruence. }
      destruct (negb (Nat.eqb (List.length (delimiters ruleString)) 0)) eqn:Hdel.
      + assert (Hd : delimiters ruleString <> []).
        { intro E. rewrite E in Hdel. discriminate. }
        simpl.
        destruct (existsb (fun seg => List.length seg =? 0)
                    (flat_map (Concat.pushSegment []) (raw_segments ruleString))) eqn:Hex.
        * split; [|intros _; eexists; split; reflexivity].
          intros _. right. split; [exact Hd|]. apply pushSegment_empty. exact Hex.
        * split; [intros [e [He _]]; discriminate|].
          intros [Hbad | [_ Hblank]]; [contradiction|].
          apply pushSegment_empty in Hblank. congruence.
      + simpl. split; [intros [e [He _]]; discriminate|].
        intros [Hbad | [Hd _]]; [contradiction|].
        destruct (delimiters ruleString); [contradiction Hd; reflexivity | discriminate].
    - (* the first phase throws *)
      unfold Concat.parseConcatRule. rewrite Hthrow. split.
      + intros _. left. apply Hfirst. eexists. exact Hthrow.
      + intros _. eexists. split; reflexivity. }
  split; [exact Main|].
  split.
  { intro ruleString. split; [|intros [e [He _]]; exists e; exact He].
    intros [e He]. exists e. split; [exact He|].
    destruct (check_loop_cases ruleString (Concat.matchAll Concat.checkRE ruleString))
      as [Hpass | Hthrow].
    - rewrite (parseConcatRule_second_phase _ Hpass) in He. simpl in He.
      destruct (negb (Nat.eqb (List.length (delimiters ruleString)) 0)
                && existsb (fun seg => List.length seg =? 0)
                     (flat_map (Concat.pushSegment []) (raw_segments ruleString)));
        [|discriminate].
      inversion He; subst. reflexivity.
    - unfold Concat.parseConcatRule in He. rewrite Hthrow in He.
      inversion He; subst. reflexivity. }
  repeat split; reflexivity.
Qed.

Lemma parseConcatRule_syntax_errors_witness :
  exists e, Concat.parseConcatRule (u "a && ") = Thrown e /\ name e = SyntaxError.
Proof.
  apply (proj2 (proj1 parseConcatRule_syntax_errors (u "a && "))).
  right. split.
  - discriminate.
  - exists []. split; [right; left; reflexivity | reflexivity].
Defined.

(** ** Literal text segments *)

Lemma trimEnd_split : forall s,
  s = trimEnd s ++ rev (takeWhile is_ws (rev s)).
Proof.
  intro s. unfold trimEnd. rewrite <- rev_app_distr, takeWhile_dropWhile.
  symmetry. apply rev_involutive.
Qed.

Lemma forallb_rev : forall (p : N -> bool) l, forallb p (rev l) = forallb p l.
Proof.
  intros p l. induction l as [|x l IH]; simpl; [reflexivity|].
  rewrite forallb_app, IH. simpl. rewrite andb_true_r. apply andb_comm.
Qed.

(** Stripping the leading white space keeps the end of a string. *)
Lemma endsWithSpace_trimStart : forall s,
  trimStart s <> [] -> endsWithSpace (trimStart s) = endsWithSpace s.
Proof.
  intros s Hne. unfold endsWithSpace, trimStart in *.
  rewrite <- (takeWhile_dropWhile is_ws s) at 2.
  rewrite rev_app_distr.
  destruct (rev (dropWhile is_ws s)) as [|c rest] eqn:E; [|reflexivity].
  exfalso. apply Hne. rewrite <- (rev_involutive (dropWhile is_ws s)), E. reflexivity.
Qed.

(** C7.  A segment whose trimmed form starts with [@text:] and that ends in
    white space is pushed with its leading white space stripped and its
    trailing white space kept.  The rule [@text:A && @text: -  && @text:B]
    is split into [@text:A], [@text: - ] with its trailing space, and
    [@text:B], and the engine evaluates it to [A - B]. *)
Theorem text_segment_keeps_trailing_space :
  (forall (rules : list jsstring) (seg : jsstring),
      startsWith (u "@text:") (trim seg) = true ->
      endsWithSpace seg = true ->
      Concat.pushSegment rules seg = rules ++ [trimStart seg]
      /\ exists trailing,
           trailing <> [] /\ forallb is_ws trailing = true
           /\ trimStart seg = trim seg ++ trailing)
  /\ Concat.parseConcatRule (u "@text:A && @text: -  && @text:B")
     = Normal [u "@text:A"; u "@text: - "; u "@text:B"]
  /\ (forall (RE : RegExpEngine) (AD : Adapters) (options : Options)
             (fuel : nat) (source context : value),
         separator options = [] ->
         2 <= fuel ->
         exists out,
           RuleEngine.parse RE AD options fuel source
             (u "@text:A && @text: -  && @text:B") context = Some (Normal out)
           /\ success out = true
           /\ data out = VStr (u "A - B")).
Proof.
  split; [|split].
  - intros rules seg Hstart Hend.
    assert (Hne : trim seg <> []).
    { intro E. rewrite E in Hstart. discriminate. }
    assert (Hs : trimStart seg <> []).
    { intro E. apply Hne. unfold trim. rewrite E. reflexivity. }
    assert (Hneq : str_eqb seg (trim seg) = false).
    { apply str_eqb_neq. intro E.
      pose proof (endsWithSpace_trimEnd (trimStart seg)) as Ht.
      fold (trim seg) in Ht. rewrite <- E in Ht. congruence. }
    split.
    + unfold Concat.pushSegment. rewrite Hstart, Hneq, Hend. reflexivity.
    + exists (rev (takeWhile is_ws (rev (trimStart seg)))).
      split; [|split].
      * pose proof (endsWithSpace_trimStart seg Hs) as He. rewrite Hend in He.
        unfold endsWithSpace in He.
        destruct (rev (trimStart seg)) as [|c rest]; [discriminate|].
        simpl. rewrite He. simpl. intro E. apply app_eq_nil in E.
        destruct E as [_ E]. discriminate.
      * rewrite forallb_rev. apply takeWhile_all.
      * unfold trim. apply trimEnd_split.
  - reflexivity.
  - intros RE AD options fuel source context Hsep Hfuel.
    destruct fuel as [|[|fuel]]; try lia.
    destruct options as [enableJS_ separator_ ignoreEmpty_ flags_ cs_ ml_ da_ soe_].
    simpl in Hsep. subst separator_.
    remember (RuleEngine.parse RE AD _ (S (S fuel)) source
                (u "@text:A && @text: -  && @text:B") context) as res eqn:E.
    vm_compute in E. subst res.
    eexists. split; [reflexivity|]. split; reflexivity.
Qed.

Lemma text_segment_keeps_trailing_space_witness :
  Concat.pushSegment [u "@text:A"] (u " @text: - ")
  = [u "@text:A"] ++ [trimStart (u " @text: - ")]
  /\ exists out,
       RuleEngine.parse Examples.digit_regexp Examples.sample_adapters default_options 2
         Examples.html (u "@text:A && @text: -  && @text:B") (VObj [])
       = Some (Normal out)
       /\ success out = true
       /\ data out = VStr (u "A - B").
Proof.
  split.
  - apply (proj1 text_segment_keeps_trailing_space [u "@text:A"] (u " @text: - "));
      reflexivity.
  - apply (proj2 (proj2 text_segment_keeps_trailing_space)).
    + reflexivity.
    + lia.
Defined.

(** ** Recursion of [RuleEngine.parseRule] *)

Section Recursion.
Variable RE : RegExpEngine.
Variable AD : Adapters.
Variable options : Options.

(** A rule that contains the fallback operator and that the splitter returns
    whole makes [parseRule] call itself on the same rule: no number of nested
    calls is enough for it to return. *)
Lemma parseRule_fallback_self : forall (rule : jsstring),
  rule <> [] ->
  includes (u "||") rule = true ->
  Fallback.parseFallbackRule rule = [rule] ->
  forall fuel source context,
    RuleEngine.parseRule RE AD options fuel source rule context = None.
Proof.
  intros rule Hne Hinc Hsplit fuel source context.
  induction fuel as [|fuel IH]; [reflexivity|].
  simpl. destruct rule as [|c rule']; [contradiction Hne; reflexivity|].
  rewrite Hinc. unfold RuleEngine.parseFallbackRule. rewrite Hsplit.
  simpl. unfold Fallback.fallbackOperator. simpl.
  unfold pure_execute at 1. rewrite IH. reflexivity.
Qed.

End Recursion.

(** C10, on the code.  On the rule [@text:'a||b'] the dispatch of [parseRule]
    sees the operator, the quote-aware splitter returns the rule as its only
    segment, and the selector built for it calls [parseRule] on the same
    string: whatever the number of nested calls allowed, [parseRule] does not
    return. *)
Theorem parseRule_quoted_fallback_diverges :
  forall (RE : RegExpEngine) (AD : Adapters) (options : Options)
         (fuel : nat) (source context : value),
    includes (u "||") (u "@text:'a||b'") = true
    /\ Fallback.parseFallbackRule (u "@text:'a||b'") = [u "@text:'a||b'"]
    /\ RuleEngine.parseRule RE AD options fuel source (u "@text:'a||b'") context = None
    /\ RuleEngine.parse RE AD options fuel source (u "@text:'a||b'") context = None.
Proof.
  intros RE AD options fuel source context.
  assert (H : RuleEngine.parseRule RE AD options fuel source (u "@text:'a||b'") context
              = None).
  { apply parseRule_fallback_self; [discriminate | reflexivity | reflexivity]. }
  repeat split; try reflexivity; [exact H|].
  unfold RuleEngine.parse. rewrite H. reflexivity.
Qed.

(** ** More nested calls never change a result of [RuleEngine.parseRule] *)

Section Extension.
Variable St : Type.

Lemma rule_or_unknown_ext : forall (a b : Selector St),
  extends_selector a b -> rule_or_unknown a = rule_or_unknown b.
Proof.
  intros a b [Hr _]. unfold rule_or_unknown. rewrite Hr. reflexivity.
Qed.

Lemma fallback_loop_ext : forall (sels sels' : list (Selector St)),
  Forall2 (@extends_selector St) sels sels' ->
  forall i rules errs st x,
    Fallback.fallback_loop sels i rules errs st = Some x ->
    Fallback.fallback_loop sels' i rules errs st = Some x.
Proof.
  induction 1 as [|a b sels sels' Hab Hrest IH]; intros i rules errs st x H.
  - exact H.
  - simpl in *. rewrite <- (rule_or_unknown_ext Hab).
    destruct (execute a st) as [[c st1]|] eqn:Hex; [|discriminate].
    rewrite (proj2 Hab _ _ Hex).
    destruct c as [r | e].
    + destruct (success r && negb (isEmpty (data r))); [exact H | apply IH; exact H].
    + apply IH. exact H.
Qed.

Lemma last_ext : forall (sels sels' : list (Selector St)),
  Forall2 (@extends_selector St) sels sels' ->
  match last (map Some sels) None, last (map Some sels') None with
  | Some a, Some b => extends_selector a b
  | None, None => True
  | _, _ => False
  end.
Proof.
  induction 1 as [|a b sels sels' Hab Hrest IH]; [exact I|].
  destruct Hrest as [|a' b' sels sels' Hab' Hrest]; [exact Hab|].
  exact IH.
Qed.

Lemma fallbackOperator_ext : forall (sels sels' : list (Selector St)) st x,
  Forall2 (@extends_selector St) sels sels' ->
  Fallback.fallbackOperator sels st = Some x ->
  Fallback.fallbackOperator sels' st = Some x.
Proof.
  intros sels sels' st x Hall H. unfold Fallback.fallbackOperator in *.
  destruct (Fallback.fallback_loop sels 0 [] [] st) as [[[r | [rules errs]] st1]|] eqn:Hloop;
    [| |discriminate];
    rewrite (fallback_loop_ext Hall _ _ _ _ Hloop); [exact H|].
  pose proof (last_ext Hall) as Hlast.
  rewrite <- (Forall2_length Hall).
  destruct (last (map Some sels) None) as [a|], (last (map Some sels') None) as [b|];
    try contradiction; [|exact H].
  destruct (execute a st1) as [[c st2]|] eqn:Hex; [|discriminate].
  rewrite (proj2 Hlast _ _ Hex).
  unfold Fallback.fallback_failure in *.
  rewrite <- (rule_or_unknown_ext Hlast). exact H.
Qed.

Lemma concat_loop_ext : forall (sels sels' : list (Selector St)),
  Forall2 (@extends_selector St) sels sels' ->
  forall separator ignoreEmpty i results errs rules st x,
    Concat.concat_loop separator ignoreEmpty sels i results errs rules st = Some x ->
    Concat.concat_loop separator ignoreEmpty sels' i results errs rules st = Some x.
Proof.
  induction 1 as [|a b sels sels' Hab Hrest IH];
    intros separator ignoreEmpty i results errs rules st x H.
  - exact H.
  - simpl in *. rewrite <- (rule_or_unknown_ext Hab).
    destruct (execute a st) as [[c st1]|] eqn:Hex; [|discriminate].
    rewrite (proj2 Hab _ _ Hex).
    destruct c as [r | e].
    + destruct (success r && negb (isEmpty (data r))); [apply IH; exact H|].
      destruct (negb ignoreEmpty); apply IH; exact H.
    + apply IH. exact H.
Qed.

Lemma concatOperator_ext : forall (sels sels' : list (Selector St)) separator ignoreEmpty st x,
  Forall2 (@extends_selector St) sels sels' ->
  Concat.concatOperator separator ignoreEmpty sels st = Some x ->
  Concat.concatOperator separator ignoreEmpty sels' st = Some x.
Proof.
  intros sels sels' separator ignoreEmpty st x Hall H. unfold Concat.concatOperator in *.
  destruct (Concat.concat_loop separator ignoreEmpty sels 0 [] [] [] st)
    as [[[[results errs] rules] st1]|] eqn:Hloop; [|discriminate].
  rewrite (concat_loop_ext Hall _ _ _ _ _ _ _ Hloop). exact H.
Qed.

End Extension.

Section FuelMonotone.
Variable RE : RegExpEngine.
Variable AD : Adapters.
Variable options : Options.

Lemma selectors_ext : forall (f g : RuleEngine.ParseRule) source context rules,
  extends_parseRule f g ->
  Forall2 (@extends_selector unit)
    (map (fun r => mkSelector r (pure_execute (f source r context))) rules)
    (map (fun r => mkSelector r (pure_execute (g source r context))) rules).
Proof.
  intros f g source context rules Hfg.
  induction rules as [|r rules IH]; simpl; constructor; [|exact IH].
  split; [reflexivity|]. simpl. intros st x H. unfold pure_execute in *.
  destruct (f source r context) as [c|] eqn:Hf; [|discriminate].
  rewrite (Hfg _ _ _ _ Hf). exact H.
Qed.

Lemma parseRule_unfold : forall fuel source r context,
  RuleEngine.parseRule RE AD options (S fuel) source r context =
  match r with
  | [] => Some (Thrown (mkExn Error msg_rule_empty))
  | _ =>
      if includes (u "||") r then
        RuleEngine.parseFallbackRule (RuleEngine.parseRule RE AD options fuel)
          source r context
      else if includes (u "&&") r then
        RuleEngine.parseConcatRule options (RuleEngine.parseRule RE AD options fuel)
          source r context
      else if includes (u "##") r then
        Some (RuleEngine.parseCleanRule RE AD options source r context)
      else Some (RuleEngine.parseSingleSelector AD options source r context)
  end.
Proof. reflexivity. Qed.

(** A call that returns within [fuel] nested calls returns the same with one
    more: running out of fuel is the only way for the bound to show. *)
Lemma parseRule_fuel_monotone : forall fuel,
  extends_parseRule (RuleEngine.parseRule RE AD options fuel)
                    (RuleEngine.parseRule RE AD options (S fuel)).
Proof.
  induction fuel as [|fuel IH]; intros source r context x H; [discriminate|].
  rewrite parseRule_unfold in H. rewrite parseRule_unfold.
  destruct r as [|c r']; [exact H|].
  destruct (includes (u "||") (c :: r')).
  - unfold RuleEngine.parseFallbackRule in *.
    destruct (Fallback.fallbackOperator
                (map (fun r => mkSelector r
                                 (pure_execute (RuleEngine.parseRule RE AD options fuel
                                                  source r context)))
                     (Fallback.parseFallbackRule (c :: r'))) tt) as [[out st]|] eqn:Hop;
      [|discriminate].
    assert (Hop' :
      Fallback.fallbackOperator
        (map (fun r => mkSelector r
                         (pure_execute (RuleEngine.parseRule RE AD options (S fuel)
                                          source r context)))
             (Fallback.parseFallbackRule (c :: r'))) tt = Some (out, st)).
    { eapply fallbackOperator_ext; [apply selectors_ext; exact IH | exact Hop]. }
    rewrite Hop'. exact H.
  - destruct (includes (u "&&") (c :: r')); [|exact H].
    unfold RuleEngine.parseConcatRule in *.
    destruct (Concat.parseConcatRule (c :: r')) as [rules | e]; [|exact H].
    destruct (Concat.concatOperator (separator options) (ignoreEmpty options)
                (map (fun r => mkSelector r
                                 (pure_execute (RuleEngine.parseRule RE AD options fuel
                                                  source r context)))
                     rules) tt) as [[out st]|] eqn:Hop; [|discriminate].
    assert (Hop' :
      Concat.concatOperator (separator options) (ignoreEmpty options)
        (map (fun r => mkSelector r
                         (pure_execute (RuleEngine.parseRule RE AD options (S fuel)
                                          source r context)))
             rules) tt = Some (out, st)).
    { eapply concatOperator_ext; [apply selectors_ext; exact IH | exact Hop]. }
    rewrite Hop'. exact H.
Qed.

End FuelMonotone.

(** ** [RuleEngine.parseRule] on a bounded call stack *)

Section StackAgreement.
Variable RE : RegExpEngine.
Variable AD : Adapters.
Variable options : Options.

Lemma parseRule_stack_unfold : forall depth source r context,
  CallStack.parseRule RE AD options (S depth) source r context =
  match r with
  | [] => Some (Thrown (mkExn Error msg_rule_empty))
  | _ =>
      if includes (u "||") r then
        RuleEngine.parseFallbackRule (CallStack.parseRule RE AD options depth)
          source r context
      else if includes (u "&&") r then
        RuleEngine.parseConcatRule options (CallStack.parseRule RE AD options depth)
          source r context
      else if includes (u "##") r then
        Some (RuleEngine.parseCleanRule RE AD options source r context)
      else Some (RuleEngine.parseSingleSelector AD options source r context)
  end.
Proof. reflexivity. Qed.

(** Where the nesting of a call stays within the bound, the stack is not
    seen: what [parseRule] returns or throws within [n] nested calls is what
    it returns or throws on a stack with room for [n] calls. *)
Lemma parseRule_stack_agrees : forall n,
  extends_parseRule (RuleEngine.parseRule RE AD options n)
                    (CallStack.parseRule RE AD options n).
Proof.
  induction n as [|n IH]; intros source r context x H; [discriminate|].
  rewrite parseRule_unfold in H. rewrite parseRule_stack_unfold.
  destruct r as [|c r']; [exact H|].
  destruct (includes (u "||") (c :: r')).
  - unfold RuleEngine.parseFallbackRule in *.
    destruct (Fallback.fallbackOperator
                (map (fun r => mkSelector r
                                 (pure_execute (RuleEngine.parseRule RE AD options n
                                                  source r context)))
                     (Fallback.parseFallbackRule (c :: r'))) tt) as [[out st]|] eqn:Hop;
      [|discriminate].
    assert (Hop' :
      Fallback.fallbackOperator
        (map (fun r => mkSelector r
                         (pure_execute (CallStack.parseRule RE AD options n
                                          source r context)))
             (Fallback.parseFallbackRule (c :: r'))) tt = Some (out, st)).
    { eapply fallbackOperator_ext; [apply selectors_ext; exact IH | exact Hop]. }
    rewrite Hop'. exact H.
  - destruct (includes (u "&&") (c :: r')); [|exact H].
    unfold RuleEngine.parseConcatRule in *.
    destruct (Concat.parseConcatRule (c :: r')) as [rules | e]; [|exact H].
    destruct (Concat.concatOperator (separator options) (ignoreEmpty options)
                (map (fun r => mkSelector r
                                 (pure_execute (RuleEngine.parseRule RE AD options n
                                                  source r context)))
                     rules) tt) as [[out st]|] eqn:Hop; [|discriminate].
    assert (Hop' :
      Concat.concatOperator (separator options) (ignoreEmpty options)
        (map (fun r => mkSelector r
                         (pure_execute (CallStack.parseRule RE AD options n
                                          source r context)))
             rules) tt = Some (out, st)).
    { eapply concatOperator_ext; [apply selectors_ext; exact IH | exact Hop]. }
    rewrite Hop'. exact H.
Qed.

End StackAgreement.

(** ** The cleanup rule of [rule-engine.js] in general *)

Lemma split_hashes_not_nil : forall s cur, split_hashes cur s <> [].
Proof.
  induction s as [|x rest IH]; intro cur; simpl; [discriminate|].
  destruct rest as [|y rest']; [discriminate|].
  destruct (N.eqb x 35 && N.eqb y 35); [discriminate | apply IH].
Qed.

Lemma join_cons : forall sep x l, l <> [] -> join sep (x :: l) = x ++ sep ++ join sep l.
Proof.
  intros sep x l Hne. destruct l as [|y l]; [contradiction Hne; reflexivity | reflexivity].
Qed.

(** Joining the parts of a split gives the string back. *)
Lemma join_split_hashes : forall s cur,
  join (u "##") (split_hashes cur s) = cur ++ s.
Proof.
  assert (H : forall n s, List.length s <= n ->
                forall cur, join (u "##") (split_hashes cur s) = cur ++ s).
  { induction n as [|n IH]; intros s Hlen cur.
    - destruct s; [simpl; rewrite app_nil_r; reflexivity | simpl in Hlen; lia].
    - destruct s as [|x rest]; [simpl; rewrite app_nil_r; reflexivity|].
      destruct rest as [|y rest']; [reflexivity|].
      simpl in Hlen.
      change (split_hashes cur (x :: y :: rest'))
        with (if N.eqb x 35 && N.eqb y 35 then cur :: split_hashes [] rest'
              else split_hashes (cur ++ [x]) (y :: rest')).
      destruct (N.eqb x 35 && N.eqb y 35) eqn:Hxy.
      + apply andb_true_iff in Hxy. destruct Hxy as [Hx Hy].
        apply N.eqb_eq in Hx. apply N.eqb_eq in Hy. subst x y.
        rewrite join_cons by apply split_hashes_not_nil.
        rewrite IH by lia. reflexivity.
      + rewrite IH by (simpl; lia). rewrite <- app_assoc. reflexivity. }
  intros s cur. apply (H (List.length s)). lia.
Qed.

(** A part that has no [#] ends at the next [##]. *)
Lemma split_hashes_part : forall x cur rest,
  forallb (fun c => negb (N.eqb c 35)) x = true ->
  split_hashes cur (x ++ 35%N :: 35%N :: rest) = (cur ++ x) :: split_hashes [] rest.
Proof.
  induction x as [|c x IH]; intros cur rest Hx.
  - simpl. rewrite app_nil_r. reflexivity.
  - simpl in Hx. apply andb_true_iff in Hx. destruct Hx as [Hc Hx].
    apply negb_true_iff in Hc.
    change ((c :: x) ++ 35%N :: 35%N :: rest) with (c :: (x ++ 35%N :: 35%N :: rest)).
    destruct (x ++ 35%N :: 35%N :: rest) as [|y tl] eqn:E.
    + destruct x; discriminate.
    + change (split_hashes cur (c :: y :: tl))
        with (if N.eqb c 35 && N.eqb y 35 then cur :: split_hashes [] tl
              else split_hashes (cur ++ [c]) (y :: tl)).
      rewrite Hc. cbn [andb]. rewrite <- E. rewrite IH by exact Hx.
      rewrite <- app_assoc. reflexivity.
Qed.

Lemma until_hashes_part : forall x acc rest,
  forallb (fun c => negb (N.eqb c 35)) x = true ->
  RegexClean.until_hashes acc (x ++ 35%N :: 35%N :: rest) = Some (acc ++ x, rest).
Proof.
  induction x as [|c x IH]; intros acc rest Hx.
  - simpl. rewrite app_nil_r. reflexivity.
  - simpl in Hx. apply andb_true_iff in Hx. destruct Hx as [Hc Hx].
    apply negb_true_iff in Hc.
    change ((c :: x) ++ 35%N :: 35%N :: rest) with (c :: (x ++ 35%N :: 35%N :: rest)).
    destruct (x ++ 35%N :: 35%N :: rest) as [|y tl] eqn:E.
    + destruct x; discriminate.
    + change (RegexClean.until_hashes acc (c :: y :: tl))
        with (if N.eqb c 35 && N.eqb y 35 then Some (acc, tl)
              else RegexClean.until_hashes (acc ++ [c]) (y :: tl)).
      rewrite Hc. cbn [andb]. rewrite <- E. rewrite IH by exact Hx.
      rewrite <- app_assoc. reflexivity.
Qed.

(** On every rule [X##p##rest], whatever [rest] holds, [RuleEngine] replaces
    the matches of [p] in the value of [X] by the whole of [rest]: a second
    pair [##p2##r2] in [rest] is part of the replacement text. *)
Lemma parseCleanRule_single_replace :
  forall (RE : RegExpEngine) (AD : Adapters) (options : Options)
         (source context : value) (X p rest : jsstring) (c : N)
         (selectorResult : ParseResult),
    forallb (fun c => negb (N.eqb c 35)) X = true ->
    forallb (fun c => negb (N.eqb c 35)) (c :: p) = true ->
    existsb is_line_terminator ((c :: p) ++ u "##" ++ rest) = false ->
    RuleEngine.parseSingleSelector AD options source X context = Normal selectorResult ->
    success selectorResult = true ->
    isEmpty (data selectorResult) = false ->
    RuleEngine.parseCleanRule RE AD options source
      (X ++ u "##" ++ (c :: p) ++ u "##" ++ rest) context
    = RegexClean.regexCleanOperator RE (data selectorResult) (c :: p) rest options.
Proof.
  intros RE AD options source context X p rest c selectorResult HX Hp Hlt Hsel Hok Hne.
  assert (Hparts :
    split_hashes [] (X ++ u "##" ++ (c :: p) ++ u "##" ++ rest)
    = X :: (c :: p) :: split_hashes [] rest).
  { change (X ++ u "##" ++ (c :: p) ++ u "##" ++ rest)
      with (X ++ 35%N :: 35%N :: ((c :: p) ++ 35%N :: 35%N :: rest)).
    rewrite (split_hashes_part X [] _ HX).
    rewrite (split_hashes_part (c :: p) [] rest Hp). reflexivity. }
  assert (Hclean :
    RegexClean.parseCleanRule (u "##" ++ (c :: p) ++ u "##" ++ rest)
    = Normal (c :: p, rest)).
  { unfold RegexClean.parseCleanRule, RegexClean.match_clean_rule.
    change (u "##" ++ (c :: p) ++ u "##" ++ rest)
      with (35%N :: 35%N :: c :: (p ++ 35%N :: 35%N :: rest)).
    change ((c :: p) ++ u "##" ++ rest)
      with (c :: (p ++ 35%N :: 35%N :: rest)) in Hlt.
    cbv beta iota. rewrite Hlt. cbn [N.eqb Pos.eqb andb negb].
    simpl in Hp. apply andb_true_iff in Hp. destruct Hp as [_ Hp].
    rewrite (until_hashes_part p [c] rest Hp). reflexivity. }
  unfold RuleEngine.parseCleanRule. rewrite Hparts.
  pose proof (split_hashes_not_nil rest []) as Hnn.
  pose proof (join_split_hashes rest []) as Hjoin.
  destruct (split_hashes [] rest) as [|part parts]; [contradiction Hnn; reflexivity|].
  replace (List.length (X :: (c :: p) :: part :: parts) <? 3) with false
    by (symmetry; apply Nat.ltb_ge; simpl; lia).
  cbn [nth skipn]. rewrite Hsel, Hok, Hne. cbn [negb orb].
  rewrite Hjoin. cbn [app] in *. rewrite Hclean. reflexivity.
Qed.

(** ** Cleanup chains in the two engines *)

(** In [engine.js] two cleanup steps are applied one after the other: the
    second step works on the text that the first step returns. *)
Lemma apply_clean_two_steps :
  forall (RE : RegExpEngine) (AD : Adapters) (opts : BookSourceRuleEngine.EngineOptions)
         (input : value) (p1 r1 p2 r2 t1 t2 : jsstring),
    RegexClean.cleanText RE input p1 r1 (BookSourceRuleEngine.operators opts) = Normal t1 ->
    RegexClean.cleanText RE (VStr t1) p2 r2 (BookSourceRuleEngine.operators opts) = Normal t2 ->
    exists out,
      BookSourceRuleEngine.apply_clean RE opts input [(p1, r1); (p2, r2)] = Normal out
      /\ data out = VStr t2.
Proof.
  intros RE AD opts input p1 r1 p2 r2 t1 t2 H1 H2.
  unfold BookSourceRuleEngine.apply_clean, RegexClean.batchRegexCleanOperator.
  simpl.
  assert (Hin : RegexClean.cleanText RE (VStr (RegexClean.convertToString input)) p1 r1
                  (BookSourceRuleEngine.operators opts) = Normal t1).
  { unfold RegexClean.cleanText in *. simpl. exact H1. }
  rewrite Hin, H2. eexists. split; reflexivity.
Qed.

(** C3, on the code.  On the rule [@text:1##1##2##2##3] the chain asks for 1
    to become 2 and then 2 to become 3, which gives the text 3.
    [RuleEngine.parseCleanRule] takes everything after the second [##] as
    one replacement and returns the text 2##2##3; the sibling
    [BookSourceRuleEngine._handleCleanRule] applies the two steps in turn. *)
Theorem clean_chain_single_replace :
  (exists out,
     RuleEngine.parse Examples.digit_regexp Examples.sample_adapters default_options 1
       Examples.html (u "@text:1##1##2##2##3") (VObj []) = Some (Normal out)
     /\ success out = true
     /\ data out = VStr (u "2##2##3")
     /\ rule out = u "##1##2##2##3")
  /\ RegexClean.parseCleanRule (u "##1##2##2##3") = Normal (u "1", u "2##2##3")
  /\ RegexClean.cleanText Examples.digit_regexp (VStr (u "1")) (u "1") (u "2")
       default_options = Normal (u "2")
  /\ RegexClean.cleanText Examples.digit_regexp (VStr (u "2")) (u "2") (u "3")
       default_options = Normal (u "3")
  /\ (exists out,
        BookSourceRuleEngine._handleCleanRule Examples.digit_regexp Examples.sample_adapters
          BookSourceRuleEngine.default_engine_options
          (u "##1##2##2##3") (VStr (u "1")) (VObj []) = Normal out
        /\ data out = VStr (u "3")).
Proof.
  split; [|split; [|split; [|split]]]; try reflexivity.
  - eexists. split; [reflexivity|]. repeat split.
  - eexists. split; [reflexivity|]. reflexivity.
Qed.

(** ** Success and emptiness *)

Section EmptinessProperties.
Variable St : Type.

(** A result that leaves the loop of the fallback operator is non-empty. *)
Lemma fallback_loop_returns_non_empty : forall (sels : list (Selector St)) i rules errs st out st',
  Fallback.fallback_loop sels i rules errs st = Some (inl out, st') ->
  success out = true /\ isEmpty (data out) = false.
Proof.
  induction sels as [|sel sels IH]; simpl; intros i rules errs st out st' H.
  - discriminate.
  - destruct (execute sel st) as [[[r | e] st1]|]; [| |discriminate].
    + destruct (success r && negb (isEmpty (data r))) eqn:Hok.
      * inversion H; subst. simpl.
        apply andb_true_iff in Hok. destruct Hok as [_ Hok].
        apply negb_true_iff in Hok. split; [reflexivity | exact Hok].
      * eapply IH; eauto.
    + eapply IH; eauto.
Qed.

End EmptinessProperties.

(** ** The operators return when the selectors do *)

Section Totality.
Variable St : Type.

Lemma fallback_loop_total : forall (sels : list (Selector St)),
  Forall (@returns St) sels ->
  forall i rules errs st, Fallback.fallback_loop sels i rules errs st <> None.
Proof.
  induction 1 as [|sel sels Hsel Hsels IH]; intros i rules errs st; simpl.
  - discriminate.
  - destruct (execute sel st) as [[[r | e] st1]|] eqn:Hex.
    + destruct (success r && negb (isEmpty (data r))); [discriminate | apply IH].
    + apply IH.
    + exfalso. exact (Hsel st Hex).
Qed.

Lemma last_Some_In : forall (sels : list (Selector St)) l,
  last (map Some sels) None = Some l -> In l sels.
Proof.
  induction sels as [|sel sels IH]; simpl; intros l H; [discriminate|].
  destruct sels as [|sel' sels'].
  - simpl in H. inversion H; subst. left. reflexivity.
  - right. apply IH. exact H.
Qed.

Lemma fallbackOperator_total : forall (sels : list (Selector St)) st,
  Forall (@returns St) sels -> Fallback.fallbackOperator sels st <> None.
Proof.
  intros sels st Hall. unfold Fallback.fallbackOperator.
  destruct (Fallback.fallback_loop sels 0 [] [] st) as [[[r | [rules errs]] st1]|] eqn:Hloop.
  - discriminate.
  - destruct (last (map Some sels) None) as [lastSelector|] eqn:Hlast; [|discriminate].
    apply last_Some_In in Hlast.
    pose proof (proj1 (Forall_forall _ _) Hall _ Hlast st1) as Hret.
    destruct (execute lastSelector st1) as [[[lastResult | e] st2]|];
      [discriminate | discriminate | contradiction Hret; reflexivity].
  - exfalso. exact (fallback_loop_total Hall 0 [] [] st Hloop).
Qed.

Lemma concat_loop_total : forall (sels : list (Selector St)),
  Forall (@returns St) sels ->
  forall separator ignoreEmpty i results errs rules st,
    Concat.concat_loop separator ignoreEmpty sels i results errs rules st <> None.
Proof.
  induction 1 as [|sel sels Hsel Hsels IH];
    intros separator ignoreEmpty i results errs rules st; simpl.
  - discriminate.
  - destruct (execute sel st) as [[[r | e] st1]|] eqn:Hex.
    + destruct (success r && negb (isEmpty (data r))); [apply IH|].
      destruct (negb ignoreEmpty); apply IH.
    + apply IH.
    + exfalso. exact (Hsel st Hex).
Qed.

Lemma concatOperator_total : forall (sels : list (Selector St)) separator ignoreEmpty st,
  Forall (@returns St) sels -> Concat.concatOperator separator ignoreEmpty sels st <> None.
Proof.
  intros sels separator ignoreEmpty st Hall. unfold Concat.concatOperator.
  destruct (Concat.concat_loop separator ignoreEmpty sels 0 [] [] [] st)
    as [[[[results errs] rules] st1]|] eqn:Hloop; [discriminate|].
  exfalso. exact (concat_loop_total Hall separator ignoreEmpty 0 [] [] [] st Hloop).
Qed.

End Totality.

(** ** The entry point of [BookSourceRuleEngine] *)

Section EntryPoint.
Import BookSourceRuleEngine.
Variable RE : RegExpEngine.
Variable AD : Adapters.
Variable opts : EngineOptions.

Lemma async_selectors_return : forall rules,
  Forall (@returns unit) (map async_selector rules).
Proof.
  intro rules. apply Forall_forall. intros sel Hin.
  apply in_map_iff in Hin. destruct Hin as [r [<- _]].
  intros st. discriminate.
Qed.

(** The evaluation of a rule returns or throws; it always ends. *)
Lemma _executeRule_total : forall r source context_,
  _executeRule RE AD opts r source context_ <> None.
Proof.
  intros r source context_. unfold _executeRule.
  destruct (includes (u "||") (trim r)).
  - unfold _handleFallbackRule.
    pose proof (@fallbackOperator_total unit
                  (map async_selector (Fallback.parseFallbackRule (trim r))) tt
                  (async_selectors_return _)) as H.
    destruct (Fallback.fallbackOperator
                (map async_selector (Fallback.parseFallbackRule (trim r))) tt)
      as [[out st]|]; [discriminate | contradiction H; reflexivity].
  - destruct (includes (u "&&") (trim r)).
    + unfold _handleConcatRule.
      destruct (Concat.parseConcatRule (trim r)) as [rules | e]; [|discriminate].
      pose proof (@concatOperator_total unit (map async_selector rules)
                    (separator (operators opts)) (ignoreEmpty (operators opts)) tt
                    (async_selectors_return _)) as H.
      destruct (Concat.concatOperator (separator (operators opts))
                  (ignoreEmpty (operators opts)) (map async_selector rules) tt)
        as [[out st]|]; [discriminate | contradiction H; reflexivity].
    + destruct (includes (u "##") (trim r)); discriminate.
Qed.

Lemma parseRule_try_total : forall cache r source context_ t1 t2,
  parseRule_try RE AD opts cache r source context_ t1 t2 <> None.
Proof.
  intros cache r source context_ t1 t2. unfold parseRule_try.
  destruct r as [|c r']; [discriminate|].
  destruct (_generateCacheKey (c :: r') source context_) as [k | e]; [|discriminate].
  pose proof (_executeRule_total (c :: r') source context_) as Hex.
  destruct (cache_enabled opts).
  - destruct (cache_get cache k) as [cached|].
    + destruct (t1 - timestamp cached <? cache_ttl opts)%Z; [discriminate|].
      destruct (_executeRule RE AD opts (c :: r') source context_) as [[pr | e]|];
        [| discriminate | contradiction Hex; reflexivity].
      destruct (true && success pr); discriminate.
    + destruct (_executeRule RE AD opts (c :: r') source context_) as [[pr | e]|];
        [| discriminate | contradiction Hex; reflexivity].
      destruct (true && success pr); discriminate.
  - destruct (_executeRule RE AD opts (c :: r') source context_) as [[pr | e]|];
      [| discriminate | contradiction Hex; reflexivity].
    destruct (false && success pr); discriminate.
Qed.

(** *** The promises of the branches *)

Lemma last_Some_map : forall (A B : Type) (f : A -> B) (l : list A),
  last (map Some (map f l)) None = option_map f (last (map Some l) None).
Proof.
  intros A B f l. induction l as [|a l IH]; [reflexivity|].
  destruct l as [|b l]; [reflexivity|]. exact IH.
Qed.

Lemma branch_fallback_loop : forall source context_ rules i rs es unhandled,
  exists rs' es',
    Fallback.fallback_loop (map async_selector rules) i rs es tt
    = Some (inr (rs', es'), tt)
    /\ Fallback.fallback_loop
         (map (Promises.branch_selector AD opts source context_) rules) i rs es unhandled
       = Some (inr (rs', es'),
               unhandled ++ flat_map (Promises.rejection AD opts source context_) rules).
Proof.
  intros source context_ rules.
  induction rules as [|r rest IH]; intros i rs es unhandled.
  - exists rs, es. simpl. rewrite app_nil_r. split; reflexivity.
  - cbn [map Fallback.fallback_loop flat_map].
    cbn [execute async_selector Promises.branch_selector pure_execute
         promise_view plain_result success andb].
    destruct (IH (S i)
                (rs ++ [rule_or_unknown (async_selector r)])
                (es ++ [mkAttemptError (rule_or_unknown (async_selector r))
                          (u "empty result") i])
                (unhandled ++ Promises.rejection AD opts source context_ r))
      as [rs' [es' [H1 H2]]].
    exists rs', es'. split; [exact H1|].
    rewrite app_assoc. exact H2.
Qed.

Lemma branch_fallbackOperator : forall source context_ rules unhandled,
  exists out,
    Fallback.fallbackOperator (map async_selector rules) tt = Some (out, tt)
    /\ Fallback.fallbackOperator
         (map (Promises.branch_selector AD opts source context_) rules) unhandled
       = Some (out,
               unhandled
               ++ flat_map (Promises.rejection AD opts source context_) rules
               ++ match last (map Some rules) None with
                  | Some lastRule => Promises.rejection AD opts source context_ lastRule
                  | None => []
                  end).
Proof.
  intros source context_ rules unhandled. unfold Fallback.fallbackOperator.
  destruct (branch_fallback_loop source context_ rules 0 [] [] unhandled)
    as [rs' [es' [H1 H2]]].
  rewrite H1, H2. rewrite !last_Some_map, !length_map.
  destruct (last (map Some rules) None) as [lastRule|]; cbn [option_map].
  - cbn [execute async_selector Promises.branch_selector pure_execute].
    eexists. split; [reflexivity|]. rewrite app_assoc. reflexivity.
  - eexists. split; [reflexivity|]. rewrite app_nil_r. reflexivity.
Qed.

Lemma branch_concat_loop : forall source context_ separator_ ignoreEmpty_ rules
    i results errs rs unhandled,
  exists x,
    Concat.concat_loop separator_ ignoreEmpty_ (map async_selector rules)
      i results errs rs tt = Some (x, tt)
    /\ Concat.concat_loop separator_ ignoreEmpty_
         (map (Promises.branch_selector AD opts source context_) rules)
         i results errs rs unhandled
       = Some (x, unhandled ++ flat_map (Promises.rejection AD opts source context_) rules).
Proof.
  intros source context_ separator_ ignoreEmpty_ rules.
  induction rules as [|r rest IH]; intros i results errs rs unhandled.
  - eexists. simpl. rewrite app_nil_r. split; reflexivity.
  - cbn [map Concat.concat_loop flat_map].
    cbn [execute async_selector Promises.branch_selector pure_execute
         promise_view plain_result success andb].
    destruct (negb ignoreEmpty_).
    + destruct (IH (S i) (results ++ [[]])
                  (errs ++ [mkAttemptError (rule_or_unknown (async_selector r))
                              (u "empty result") i])
                  (rs ++ [rule_or_unknown (async_selector r)])
                  (unhandled ++ Promises.rejection AD opts source context_ r))
        as [x [H1 H2]].
      exists x. split; [exact H1|]. rewrite app_assoc. exact H2.
    + destruct (IH (S i) results
                  (errs ++ [mkAttemptError (rule_or_unknown (async_selector r))
                              (u "empty result (ignored)") i])
                  (rs ++ [rule_or_unknown (async_selector r)])
                  (unhandled ++ Promises.rejection AD opts source context_ r))
        as [x [H1 H2]].
      exists x. split; [exact H1|]. rewrite app_assoc. exact H2.
Qed.

(** The values of the evaluation are those of [BookSourceRuleEngine]; the
    rejections are those of the branches. *)
Lemma _executeRule_promises : forall r source context_ unhandled,
  Promises._executeRule RE AD opts r source context_ unhandled
  = match _executeRule RE AD opts r source context_ with
    | None => None
    | Some c =>
        Some (c, unhandled ++ Promises.branch_rejections AD opts r source context_)
    end.
Proof.
  intros r source context_ unhandled.
  unfold Promises._executeRule, _executeRule, Promises.branch_rejections.
  destruct (includes (u "||") (trim r)).
  - unfold Promises._handleFallbackRule, _handleFallbackRule.
    destruct (branch_fallbackOperator source context_
                (Fallback.parseFallbackRule (trim r)) unhandled) as [out [H1 H2]].
    rewrite H1, H2. reflexivity.
  - destruct (includes (u "&&") (trim r)).
    + unfold Promises._handleConcatRule, _handleConcatRule.
      destruct (Concat.parseConcatRule (trim r)) as [rules | e];
        [|rewrite app_nil_r; reflexivity].
      unfold Concat.concatOperator.
      destruct (branch_concat_loop source context_ (separator (operators opts))
                  (ignoreEmpty (operators opts)) rules 0 [] [] [] unhandled)
        as [[[results errs] rs] [H1 H2]].
      rewrite H1, H2. reflexivity.
    + rewrite app_nil_r. destruct (includes (u "##") (trim r)); reflexivity.
Qed.

Lemma parseRule_promises : forall cache r source context_ t1 t2 unhandled,
  Promises.parseRule RE AD opts cache r source context_ t1 t2 unhandled
  = match parseRule RE AD opts cache r source context_ t1 t2 with
    | None => None
    | Some (out, cache') =>
        Some (out, cache',
              unhandled
              ++ if Promises.evaluates opts cache r source context_ t1
                 then Promises.branch_rejections AD opts r source context_
                 else [])
    end.
Proof.
  intros cache r source context_ t1 t2 unhandled.
  unfold Promises.parseRule, Promises.parseRule_try, parseRule, parseRule_try,
    Promises.evaluates.
  destruct r as [|c r']; [rewrite app_nil_r; reflexivity|].
  destruct (_generateCacheKey (c :: r') source context_) as [k | e];
    [|rewrite app_nil_r; reflexivity].
  rewrite _executeRule_promises.
  destruct (cache_enabled opts); cbn [andb negb].
  - destruct (cache_get cache k) as [cached|]; cbn [negb].
    + destruct (t1 - timestamp cached <? cache_ttl opts)%Z; cbn [negb];
        [rewrite app_nil_r; reflexivity|].
      destruct (_executeRule RE AD opts (c :: r') source context_) as [[pr | e]|];
        [| reflexivity | reflexivity].
      destruct (success pr); reflexivity.
    + destruct (_executeRule RE AD opts (c :: r') source context_) as [[pr | e]|];
        [| reflexivity | reflexivity].
      destruct (success pr); reflexivity.
  - destruct (_executeRule RE AD opts (c :: r') source context_) as [[pr | e]|];
      reflexivity.
Qed.

(** What the call returns when it does not evaluate the rule: a result of
    the cache, or the failure made of the error on the rule or on the key. *)
Lemma parseRule_not_evaluated : forall cache r source context_ t1 t2 out cache',
  parseRule RE AD opts cache r source context_ t1 t2 = Some (out, cache') ->
  Promises.evaluates opts cache r source context_ t1 = false ->
  fromCache out = true
  \/ (exists e, out = failure_result r e).
Proof.
  intros cache r source context_ t1 t2 out cache' Hrun Hev.
  unfold parseRule, parseRule_try in Hrun. unfold Promises.evaluates in Hev.
  destruct r as [|c r'].
  { right. inversion Hrun. eauto. }
  destruct (_generateCacheKey (c :: r') source context_) as [k | e].
  2:{ right. inversion Hrun. eauto. }
  destruct (cache_enabled opts); [|discriminate].
  destruct (cache_get cache k) as [cached|]; [|discriminate].
  destruct (t1 - timestamp cached <? cache_ttl opts)%Z; [|discriminate].
  left. inversion Hrun. reflexivity.
Qed.

(** What the call returns when it evaluates the rule. *)
Lemma parseRule_evaluated : forall cache r source context_ t1 t2 out cache',
  parseRule RE AD opts cache r source context_ t1 t2 = Some (out, cache') ->
  Promises.evaluates opts cache r source context_ t1 = true ->
  (forall e, _executeRule RE AD opts r source context_ = Some (Thrown e) ->
             out = failure_result r e)
  /\ (forall res, _executeRule RE AD opts r source context_ = Some (Normal res) ->
                  out = res).
Proof.
  intros cache r source context_ t1 t2 out cache' Hrun Hev.
  unfold parseRule, parseRule_try in Hrun. unfold Promises.evaluates in Hev.
  destruct r as [|c r']; [discriminate|].
  destruct (_generateCacheKey (c :: r') source context_) as [k | e0]; [|discriminate].
  assert (Hmiss : forall cache0,
            match _executeRule RE AD opts (c :: r') source context_ with
            | None => None
            | Some (Thrown e) => Some (failure_result (c :: r') e, cache0)
            | Some (Normal pr) =>
                if cache_enabled opts && success pr
                then Some (pr, _cacheResult opts cache0 k pr t2)
                else Some (pr, cache0)
            end = Some (out, cache') ->
            (forall e, _executeRule RE AD opts (c :: r') source context_ = Some (Thrown e) ->
                       out = failure_result (c :: r') e)
            /\ (forall res, _executeRule RE AD opts (c :: r') source context_
                            = Some (Normal res) -> out = res)).
  { intros cache0 H.
    destruct (_executeRule RE AD opts (c :: r') source context_) as [[pr | e]|];
      [| |discriminate].
    - split; [intros e He; discriminate|].
      intros res Hres. inversion Hres; subst res.
      destruct (cache_enabled opts && success pr); inversion H; reflexivity.
    - split; [|intros res Hres; discriminate].
      intros e' He. inversion He; subst e'. inversion H. reflexivity. }
  destruct (cache_enabled opts); cbn [andb negb] in Hev.
  - destruct (cache_get cache k) as [cached|].
    + destruct (t1 - timestamp cached <? cache_ttl opts)%Z; [discriminate|].
      apply (Hmiss (cache_delete cache k)).
      destruct (_executeRule RE AD opts (c :: r') source context_) as [[pr | e]|];
        [| exact Hrun | exact Hrun].
      destruct (true && success pr); exact Hrun.
    + apply (Hmiss cache).
      destruct (_executeRule RE AD opts (c :: r') source context_) as [[pr | e]|];
        [| exact Hrun | exact Hrun].
      destruct (true && success pr); exact Hrun.
  - apply (Hmiss cache).
    destruct (_executeRule RE AD opts (c :: r') source context_) as [[pr | e]|];
      [| exact Hrun | exact Hrun].
    destruct (false && success pr); exact Hrun.
Qed.

Lemma parseRule_total : forall cache r source context_ t1 t2,
  exists out cache', parseRule RE AD opts cache r source context_ t1 t2 = Some (out, cache').
Proof.
  intros cache r source context_ t1 t2. unfold parseRule.
  pose proof (parseRule_try_total cache r source context_ t1 t2) as Htot.
  destruct (parseRule_try RE AD opts cache r source context_ t1 t2)
    as [[[res | e] cache']|]; [| |contradiction Htot; reflexivity]; eauto.
Qed.

(** What the selector throws, [_handleSingleSelector] throws; a failure that
    the selector returns, it returns as it is. *)
Lemma _handleSingleSelector_call : forall r source context_,
  (forall e, selector_call AD opts r source context_ = Thrown e ->
             _handleSingleSelector AD opts r source context_ = Thrown e)
  /\ (forall res, selector_call AD opts r source context_ = Normal res ->
                  success res = false ->
                  _handleSingleSelector AD opts r source context_ = Normal res).
Proof.
  intros r source context_. unfold selector_call, _handleSingleSelector.
  destruct (_parseSelector opts r) as [[selectorType expression] index].
  assert (Hthrow : forall c e, c = Thrown e -> then_index AD c index = Thrown e).
  { intros c e ->. reflexivity. }
  assert (Hret : forall c res, c = Normal res -> success res = false ->
                               then_index AD c index = Normal res).
  { intros c res -> Hfail. unfold then_index, _applyIndexOptions.
    rewrite Hfail. reflexivity. }
  destruct (str_eqb selectorType (u "css")).
  { destruct (includes (u ":contains(") expression).
    - split; [intros e H; exact H | intros res H _; exact H].
    - split; [intros e H; exact (Hthrow _ _ H) | intros res H Hf; exact (Hret _ _ H Hf)]. }
  destruct (str_eqb selectorType (u "xpath")).
  { split; [intros e H; exact (Hthrow _ _ H) | intros res H Hf; exact (Hret _ _ H Hf)]. }
  destruct (str_eqb selectorType (u "json")).
  { split; [intros e H; exact (Hthrow _ _ H) | intros res H Hf; exact (Hret _ _ H Hf)]. }
  destruct (str_eqb selectorType (u "regex")).
  { split; [intros e H; exact (Hthrow _ _ H) | intros res H Hf; exact (Hret _ _ H Hf)]. }
  destruct (str_eqb selectorType (u "js")).
  { split; [intros e H; exact (Hthrow _ _ H) | intros res H Hf; exact (Hret _ _ H Hf)]. }
  split; [intros e H; exact H | intros res H; discriminate].
Qed.

(** A rule without operator and without cleanup: the call returns what the
    evaluation of its selector gives, and leaves nothing rejected. *)
Lemma parseRule_single : forall cache r source context_ t1 t2,
  includes (u "||") (trim r) = false ->
  includes (u "&&") (trim r) = false ->
  includes (u "##") (trim r) = false ->
  Promises.evaluates opts cache r source context_ t1 = true ->
  exists cache',
    Promises.parseRule RE AD opts cache r source context_ t1 t2 []
    = Some (match _handleSingleSelector AD opts (trim r) source context_ with
            | Normal res => res
            | Thrown e => failure_result r e
            end, cache', []).
Proof.
  intros cache r source context_ t1 t2 Hf Hc Hh Hev.
  destruct (parseRule_total cache r source context_ t1 t2) as [out [cache' Hrun]].
  exists cache'. rewrite parseRule_promises, Hrun, Hev.
  unfold Promises.branch_rejections. rewrite Hf, Hc.
  destruct (parseRule_evaluated _ _ _ _ _ _ Hrun Hev) as [Hthrow Hret].
  assert (Hex : _executeRule RE AD opts r source context_
                = Some (_handleSingleSelector AD opts (trim r) source context_)).
  { unfold _executeRule. rewrite Hf, Hc, Hh. reflexivity. }
  destruct (_handleSingleSelector AD opts (trim r) source context_) as [res | e].
  - rewrite (Hret res Hex). reflexivity.
  - rewrite (Hthrow e Hex). reflexivity.
Qed.

(** A branch whose selector throws leaves its error among the rejections. *)
Lemma In_rejection : forall source context_ seg e rules,
  In seg rules ->
  _handleSingleSelector AD opts seg source context_ = Thrown e ->
  In e (flat_map (Promises.rejection AD opts source context_) rules).
Proof.
  intros source context_ seg e rules Hin Hthrow.
  apply in_flat_map. exists seg. split; [exact Hin|].
  unfold Promises.rejection. rewrite Hthrow. left. reflexivity.
Qed.

End EntryPoint.




(** ** The result cache *)

Section CacheProperties.
Import BookSourceRuleEngine History.

Lemma cache_get_In : forall (cache : Cache) k e,
  cache_get cache k = Some e -> In (k, e) cache.
Proof.
  induction cache as [|[k' e'] cache IH]; simpl; intros k e H; [discriminate|].
  destruct (str_eqb k' k) eqn:Hk.
  - apply str_eqb_eq in Hk. inversion H; subst. left. reflexivity.
  - right. apply IH. exact H.
Qed.

Lemma In_cache_delete : forall (cache : Cache) k' x,
  In x (cache_delete cache k') -> In x cache.
Proof.
  induction cache as [|[k e] cache IH]; simpl; intros k' x H; [contradiction|].
  destruct (str_eqb k k').
  - right. exact H.
  - destruct H as [H | H]; [left; exact H | right; eapply IH; eauto].
Qed.

Lemma In_cache_set : forall (cache : Cache) k' e' k e,
  In (k, e) (cache_set cache k' e') -> In (k, e) cache \/ (k = k' /\ e = e').
Proof.
  induction cache as [|[k0 e0] cache IH]; simpl; intros k' e' k e H.
  - destruct H as [H | []]. inversion H; subst. right. split; reflexivity.
  - destruct (str_eqb k0 k') eqn:Hk.
    + apply str_eqb_eq in Hk. subst k0.
      destruct H as [H | H].
      * inversion H; subst. right. split; reflexivity.
      * left. right. exact H.
    + destruct H as [H | H].
      * left. left. exact H.
      * destruct (IH _ _ _ _ H) as [Hin | Hnew]; [left; right; exact Hin | right; exact Hnew].
Qed.

Lemma In_cacheResult : forall opts (cache : Cache) k' r now k e,
  In (k, e) (_cacheResult opts cache k' r now) ->
  In (k, e) cache \/ (k = k' /\ result e = r).
Proof.
  intros opts cache k' r now k e H. unfold _cacheResult in H.
  apply In_cache_set in H. destruct H as [H | [Hk He]].
  - left. destruct (cache_maxSize opts <=? List.length cache); [|exact H].
    destruct cache as [|[firstKey e0] rest]; [exact H|].
    eapply In_cache_delete; eauto.
  - right. split; [exact Hk | rewrite He; reflexivity].
Qed.

Variable RE : RegExpEngine.
Variable AD : Adapters.
Variable opts : EngineOptions.
Hypothesis Henabled : cache_enabled opts = true.

(** The triple under study. *)
Variable rule0 : jsstring.
Variables source0 context0 : value.

Local Abbreviation coherent0 := (coherent RE AD opts rule0 source0 context0).

(** Switching the cache off does not change how a rule is evaluated. *)
Lemma _executeRule_cache_flag : forall b r source context_,
  _executeRule RE AD (with_cache_enabled b opts) r source context_
  = _executeRule RE AD opts r source context_.
Proof. reflexivity. Qed.

(** A call that does not collide with the triple keeps its entries coherent. *)
Lemma parseRule_keeps_coherent : forall cache r source context_ t1 t2 out cache',
  coherent0 cache ->
  (forall k, _generateCacheKey r source context_ = Normal k ->
             _generateCacheKey rule0 source0 context0 = Normal k ->
             r = rule0 /\ source = source0 /\ context_ = context0) ->
  parseRule RE AD opts cache r source context_ t1 t2 = Some (out, cache') ->
  coherent0 cache'.
Proof.
  intros cache r source context_ t1 t2 out cache' Hcoh Hcol Hrun.
  unfold parseRule, parseRule_try in Hrun.
  destruct r as [|c r']; [inversion Hrun; subst; exact Hcoh|].
  destruct (_generateCacheKey (c :: r') source context_) as [k' | e] eqn:Hkey;
    [|inversion Hrun; subst; exact Hcoh].
  rewrite Henabled in Hrun.
  assert (Hdel : coherent0 (cache_delete cache k')).
  { intros k e Hk Hin. apply (Hcoh k e Hk). eapply In_cache_delete; eauto. }
  assert (Hmiss : forall cache1,
    coherent0 cache1 ->
    match _executeRule RE AD opts (c :: r') source context_ with
    | None => None
    | Some (Thrown e) => Some (failure_result (c :: r') e, cache1)
    | Some (Normal parseResult) =>
        if true && success parseResult
        then Some (parseResult, _cacheResult opts cache1 k' parseResult t2)
        else Some (parseResult, cache1)
    end = Some (out, cache') ->
    coherent0 cache').
  { intros cache1 Hc1 H.
    destruct (_executeRule RE AD opts (c :: r') source context_) as [[pr | e]|] eqn:Hex;
      [| inversion H; subst; exact Hc1 | discriminate].
    destruct (true && success pr); [|inversion H; subst; exact Hc1].
    inversion H; subst. intros k e Hk Hin.
    apply In_cacheResult in Hin. destruct Hin as [Hin | [Hkk Hres]].
    - exact (Hc1 k e Hk Hin).
    - subst k. destruct (Hcol k' eq_refl Hk) as [Hr [Hs Hc]].
      rewrite <- Hr, <- Hs, <- Hc, Hres. exact Hex. }
  destruct (cache_get cache k') as [cached|] eqn:Hget.
  - destruct (t1 - timestamp cached <? cache_ttl opts)%Z.
    + inversion Hrun; subst. exact Hcoh.
    + apply (Hmiss (cache_delete cache k') Hdel).
      destruct (_executeRule RE AD opts (c :: r') source context_) as [[pr | e]|];
        [| exact Hrun | exact Hrun].
      destruct (true && success pr); exact Hrun.
  - apply (Hmiss cache Hcoh).
    destruct (_executeRule RE AD opts (c :: r') source context_) as [[pr | e]|];
      [| exact Hrun | exact Hrun].
    destruct (true && success pr); exact Hrun.
Qed.

(** A history without collision leaves a coherent cache. *)
Lemma replay_coherent : forall history cache cache',
  coherent0 cache ->
  Forall (no_collision rule0 source0 context0) history ->
  replay RE AD opts cache history = Some cache' ->
  coherent0 cache'.
Proof.
  induction history as [|c history IH]; simpl; intros cache cache' Hcoh Hall Hrun.
  - inversion Hrun; subst. exact Hcoh.
  - inversion Hall as [|? ? Hc Hrest]; subst.
    destruct (parseRule RE AD opts cache (call_rule c) (call_source c) (call_context c)
                (call_lookup c) (call_store c)) as [[out cache1]|] eqn:Hstep;
      [|discriminate].
    apply (IH cache1 cache'); [|exact Hrest | exact Hrun].
    eapply parseRule_keeps_coherent; [exact Hcoh | exact Hc | exact Hstep].
Qed.

(** On a coherent cache, the result with the cache is the result without it,
    up to the mark [fromCache]. *)
Lemma parseRule_coherent_result :
  forall cache t1 t2 out cache' cache_off t1' t2' out_off cache_off',
    coherent0 cache ->
    parseRule RE AD opts cache rule0 source0 context0 t1 t2 = Some (out, cache') ->
    parseRule RE AD (with_cache_enabled false opts) cache_off rule0 source0 context0 t1' t2'
    = Some (out_off, cache_off') ->
    out = out_off \/ out = with_fromCache out_off.
Proof.
  intros cache t1 t2 out cache' cache_off t1' t2' out_off cache_off' Hcoh Hon Hoff.
  unfold parseRule, parseRule_try in Hon, Hoff.
  destruct rule0 as [|c r'] eqn:Hrule.
  { inversion Hon; inversion Hoff; subst. left. reflexivity. }
  destruct (_generateCacheKey (c :: r') source0 context0) as [k | e] eqn:Hkey.
  2:{ inversion Hon; inversion Hoff; subst. left. reflexivity. }
  rewrite Henabled in Hon. simpl in Hoff.
  rewrite _executeRule_cache_flag in Hoff.
  assert (Hmiss : forall cache1,
    match _executeRule RE AD opts (c :: r') source0 context0 with
    | None => None
    | Some (Thrown e) => Some (failure_result (c :: r') e, cache1)
    | Some (Normal parseResult) =>
        if true && success parseResult
        then Some (parseResult, _cacheResult opts cache1 k parseResult t2)
        else Some (parseResult, cache1)
    end = Some (out, cache') ->
    out = out_off \/ out = with_fromCache out_off).
  { intros cache1 H.
    destruct (_executeRule RE AD opts (c :: r') source0 context0) as [[pr | e]|];
      [| inversion H; inversion Hoff; subst; left; reflexivity | discriminate].
    inversion Hoff; subst.
    destruct (true && success out_off); inversion H; subst; left; reflexivity. }
  destruct (cache_get cache k) as [cached|] eqn:Hget.
  - destruct (t1 - timestamp cached <? cache_ttl opts)%Z.
    + apply cache_get_In in Hget.
      pose proof (Hcoh k cached Hkey Hget) as Hex.
      rewrite Hex in Hoff. inversion Hon; inversion Hoff; subst.
      right. reflexivity.
    + apply (Hmiss (cache_delete cache k)).
      destruct (_executeRule RE AD opts (c :: r') source0 context0) as [[pr | e]|];
        [| exact Hon | exact Hon].
      destruct (true && success pr); exact Hon.
  - apply (Hmiss cache).
    destruct (_executeRule RE AD opts (c :: r') source0 context0) as [[pr | e]|];
      [| exact Hon | exact Hon].
    destruct (true && success pr); exact Hon.
Qed.

End CacheProperties.

(** With the cache enabled, after any history of calls in which the calls
    that share the cache key of a triple are calls on that triple, the next
    call on the triple returns what the engine returns with the cache
    disabled, or that result marked [fromCache]. *)
Lemma cache_transparent_without_collision :
  forall (RE : RegExpEngine) (AD : Adapters)
         (opts : BookSourceRuleEngine.EngineOptions)
         (r : jsstring) (source context : value)
         (history : list History.Call)
         (cache cache_on cache_off cache_off' : BookSourceRuleEngine.Cache)
         (t1 t2 t1' t2' : Z) (out_on out_off : ParseResult),
    BookSourceRuleEngine.cache_enabled opts = true ->
    Forall (History.no_collision r source context) history ->
    History.replay RE AD opts [] history = Some cache ->
    BookSourceRuleEngine.parseRule RE AD opts cache r source context t1 t2
    = Some (out_on, cache_on) ->
    BookSourceRuleEngine.parseRule RE AD (History.with_cache_enabled false opts)
      cache_off r source context t1' t2' = Some (out_off, cache_off') ->
    (out_on = out_off \/ out_on = BookSourceRuleEngine.with_fromCache out_off)
    /\ (history = [] -> out_on = out_off).
Proof.
  intros RE AD opts r source context history cache cache_on cache_off cache_off'
         t1 t2 t1' t2' out_on out_off Henabled Hcol Hreplay Hon Hoff.
  assert (Hempty : History.coherent RE AD opts r source context []).
  { intros k e _ []. }
  assert (Hcoh : History.coherent RE AD opts r source context cache).
  { eapply replay_coherent; eauto. }
  split.
  { eapply parseRule_coherent_result; [exact Henabled | exact Hcoh | exact Hon | exact Hoff]. }
  intros ->. simpl in Hreplay. inversion Hreplay; subst cache.
  unfold BookSourceRuleEngine.parseRule, BookSourceRuleEngine.parseRule_try in Hon, Hoff.
  destruct r as [|c r']; [congruence|].
  destruct (BookSourceRuleEngine._generateCacheKey (c :: r') source context) as [k | e];
    [|congruence].
  rewrite Henabled in Hon. simpl in Hon, Hoff.
  change (BookSourceRuleEngine._executeRule RE AD (History.with_cache_enabled false opts))
    with (BookSourceRuleEngine._executeRule RE AD opts) in Hoff.
  destruct (BookSourceRuleEngine._executeRule RE AD opts (c :: r') source context)
    as [[pr | e]|]; [| congruence | discriminate].
  destruct (success pr); simpl in Hon; congruence.
Qed.

(** The case of one triple.  Fix a rule, a source and a context, and call an
    engine with the cache enabled on that triple and on no other, any number
    of times, at any times of the clock.  Each call returns the result that
    the engine gives with the cache disabled, or that same result marked
    [fromCache]: the data and the success are those of the engine without
    cache, and the first call returns exactly its result. *)
Lemma cache_transparent :
  forall (RE : RegExpEngine) (AD : Adapters)
         (opts : BookSourceRuleEngine.EngineOptions)
         (r : jsstring) (source context : value)
         (history : list History.Call)
         (cache cache_on cache_off cache_off' : BookSourceRuleEngine.Cache)
         (t1 t2 t1' t2' : Z) (out_on out_off : ParseResult),
    BookSourceRuleEngine.cache_enabled opts = true ->
    Forall (fun c => History.call_rule c = r
                     /\ History.call_source c = source
                     /\ History.call_context c = context) history ->
    History.replay RE AD opts [] history = Some cache ->
    BookSourceRuleEngine.parseRule RE AD opts cache r source context t1 t2
    = Some (out_on, cache_on) ->
    BookSourceRuleEngine.parseRule RE AD (History.with_cache_enabled false opts)
      cache_off r source context t1' t2' = Some (out_off, cache_off') ->
    (out_on = out_off \/ out_on = BookSourceRuleEngine.with_fromCache out_off)
    /\ data out_on = data out_off
    /\ success out_on = success out_off
    /\ (history = [] -> out_on = out_off).
Proof.
  intros RE AD opts r source context history cache cache_on cache_off cache_off'
         t1 t2 t1' t2' out_on out_off Henabled Hsame Hreplay Hon Hoff.
  assert (Hcol : Forall (History.no_collision r source context) history).
  { eapply Forall_impl; [|exact Hsame]. intros c Hc k _ _. exact Hc. }
  destruct (@cache_transparent_without_collision RE AD opts r source context history
              cache cache_on cache_off cache_off' t1 t2 t1' t2' out_on out_off
              Henabled Hcol Hreplay Hon Hoff) as [Hres Hfirst].
  split; [exact Hres|].
  split; [destruct Hres as [-> | ->]; reflexivity|].
  split; [destruct Hres as [-> | ->]; reflexivity|].
  exact Hfirst.
Qed.

Lemma cache_transparent_witness :
  History.replay Examples.digit_regexp Examples.sample_adapters Examples.caching_options
    [] [Examples.title_call] = Some Examples.title_cache
  /\ BookSourceRuleEngine.parseRule Examples.digit_regexp Examples.sample_adapters
       Examples.caching_options Examples.title_cache
       (u "@css:.title@text") Examples.html (VObj []) 5 6
     = Some (BookSourceRuleEngine.with_fromCache Examples.title_result, Examples.title_cache)
  /\ BookSourceRuleEngine.parseRule Examples.digit_regexp Examples.sample_adapters
       (History.with_cache_enabled false Examples.caching_options) []
       (u "@css:.title@text") Examples.html (VObj []) 5 6
     = Some (Examples.title_result, [])
  /\ data (BookSourceRuleEngine.with_fromCache Examples.title_result)
     = data Examples.title_result
  /\ success (BookSourceRuleEngine.with_fromCache Examples.title_result)
     = success Examples.title_result.
Proof.
  split; [reflexivity|]. split; [reflexivity|]. split; [reflexivity|].
  destruct (@cache_transparent Examples.digit_regexp Examples.sample_adapters
              Examples.caching_options
              (u "@css:.title@text") Examples.html (VObj [])
              [Examples.title_call] Examples.title_cache Examples.title_cache [] []
              5 6 5 6
              (BookSourceRuleEngine.with_fromCache Examples.title_result)
              Examples.title_result)
    as [_ [Hdata [Hsuccess _]]].
  - reflexivity.
  - constructor; [|constructor]. repeat split.
  - reflexivity.
  - reflexivity.
  - reflexivity.
  - split; [exact Hdata | exact Hsuccess].
Defined.

(** ** Two remarks on the engines *)

(** The scenario of the specification: the first alternative matches
    nothing, the second one finds the title. *)
Lemma fallback_scenario :
  exists out,
    RuleEngine.parse Examples.digit_regexp Examples.sample_adapters default_options 2
      Examples.html (u "@css:.none@text || @css:.title@text") (VObj [])
    = Some (Normal out)
    /\ success out = true
    /\ data out = VStr (u "T")
    /\ fallbackIndex out = Some 1.
Proof.
  eexists. split; [reflexivity|]. repeat split.
Qed.

(** The cache key reads the first hundred code units of a source string:
    two sources that agree on them have the same key. *)
Lemma cache_key_source_prefix : forall (r s1 s2 : jsstring) (context : value),
  firstn 100 s1 = firstn 100 s2 ->
  BookSourceRuleEngine._generateCacheKey r (VStr s1) context
  = BookSourceRuleEngine._generateCacheKey r (VStr s2) context.
Proof.
  intros r s1 s2 context H. unfold BookSourceRuleEngine._generateCacheKey.
  rewrite H. reflexivity.
Qed.

(** C9, on the code.  Two pages that differ only after their first hundred
    code units have the same cache key.  An engine with the cache enabled is
    called with the rule [@css:.title@text] on the page whose title is [T],
    then on the page whose title is [U]: the second call returns the title
    [T] of the first page, marked [fromCache], where the engine without cache
    returns [U].  The cache changes the data of the result. *)
Theorem cache_returns_other_source :
  let engine := BookSourceRuleEngine.parseRule Examples.digit_regexp Pages.page_adapters in
  let rule := u "@css:.title@text" in
  Pages.page (u "T") <> Pages.page (u "U")
  /\ BookSourceRuleEngine._generateCacheKey rule (Pages.page (u "T")) (VObj [])
     = BookSourceRuleEngine._generateCacheKey rule (Pages.page (u "U")) (VObj [])
  /\ exists first cache cached fresh,
       engine Examples.caching_options [] rule (Pages.page (u "T")) (VObj []) 0%Z 1%Z
       = Some (first, cache)
       /\ success first = true /\ data first = VStr (u "T") /\ fromCache first = false
       /\ engine Examples.caching_options cache rule (Pages.page (u "U")) (VObj []) 2%Z 3%Z
          = Some (cached, cache)
       /\ success cached = true /\ data cached = VStr (u "T") /\ fromCache cached = true
       /\ engine (History.with_cache_enabled false Examples.caching_options) []
            rule (Pages.page (u "U")) (VObj []) 2%Z 3%Z
          = Some (fresh, [])
       /\ success fresh = true /\ data fresh = VStr (u "U")
       /\ data cached <> data fresh.
Proof.
  cbv zeta. split; [discriminate|]. split; [reflexivity|].
  do 4 eexists.
  split; [vm_compute; reflexivity|]. do 3 (split; [reflexivity|]).
  split; [vm_compute; reflexivity|]. do 3 (split; [reflexivity|]).
  split; [vm_compute; reflexivity|]. do 2 (split; [reflexivity|]).
  discriminate.
Qed.

(* ================================================================== *)
(** ** More on strings *)

Lemma dropWhile_length : forall p s, List.length (dropWhile p s) <= List.length s.
Proof.
  induction s as [|c rest IH]; simpl; [lia|].
  destruct (p c); simpl; lia.
Qed.

Lemma trim_length : forall s, List.length (trim s) <= List.length s.
Proof.
  intros s. unfold trim, trimEnd, trimStart.
  rewrite length_rev.
  pose proof (dropWhile_length is_ws (rev (dropWhile is_ws s))) as H1.
  rewrite length_rev in H1.
  pose proof (dropWhile_length is_ws s). lia.
Qed.

Lemma trimStart_length : forall s, List.length (trimStart s) <= List.length s.
Proof. intros s. apply dropWhile_length. Qed.

Lemma forallb_dropWhile : forall (q p : N -> bool) s,
  forallb q s = true -> forallb q (dropWhile p s) = true.
Proof.
  induction s as [|c rest IH]; simpl; intros H; [reflexivity|].
  apply andb_true_iff in H as [Hc Hr].
  destruct (p c); [auto|]. simpl. now rewrite Hc, Hr.
Qed.

Lemma forallb_trimStart : forall (q : N -> bool) s,
  forallb q s = true -> forallb q (trimStart s) = true.
Proof. intros q s. apply forallb_dropWhile. Qed.

Lemma forallb_trim : forall (q : N -> bool) s,
  forallb q s = true -> forallb q (trim s) = true.
Proof.
  intros q s H. unfold trim, trimEnd.
  rewrite forallb_rev. apply forallb_dropWhile.
  rewrite forallb_rev. now apply forallb_trimStart.
Qed.

Lemma dropWhile_nil : forall p s, dropWhile p s = [] -> forallb p s = true.
Proof.
  induction s as [|c rest IH]; simpl; intros H; [reflexivity|].
  destruct (p c); [auto | discriminate].
Qed.

Lemma dropWhile_idempotent : forall p s, dropWhile p (dropWhile p s) = dropWhile p s.
Proof.
  intros p s. destruct (dropWhile p s) as [|c rest] eqn:E; [reflexivity|].
  apply dropWhile_head in E. simpl. now rewrite E.
Qed.

(** A string that holds a code unit that is no white space does not trim to
    the empty string. *)
Lemma trim_not_nil : forall s c, In c s -> is_ws c = false -> trim s <> [].
Proof.
  intros s c Hin Hc Ht.
  unfold trim, trimEnd in Ht.
  apply (f_equal (@rev N)) in Ht. rewrite rev_involutive in Ht. simpl in Ht.
  apply dropWhile_nil in Ht. rewrite forallb_rev in Ht.
  unfold trimStart in Ht.
  destruct (dropWhile is_ws s) as [|d rest] eqn:E.
  - apply dropWhile_nil in E.
    rewrite forallb_forall in E. specialize (E c Hin). congruence.
  - apply dropWhile_head in E. simpl in Ht. rewrite E in Ht. discriminate.
Qed.

(** Trimming twice is trimming once. *)
Lemma trim_idempotent : forall s, trim (trim s) = trim s.
Proof.
  intros s. unfold trim.
  assert (Hstart : trimStart (trimEnd (trimStart s)) = trimEnd (trimStart s)).
  { pose proof (trimEnd_split (trimStart s)) as Hsplit.
    destruct (trimEnd (trimStart s)) as [|c r] eqn:E; [reflexivity|].
    unfold trimStart in *.
    destruct (dropWhile is_ws s) as [|d rest] eqn:Ed.
    - simpl in Hsplit. discriminate.
    - simpl in Hsplit. injection Hsplit as Hd _. subst d.
      apply dropWhile_head in Ed. simpl. now rewrite Ed. }
  rewrite Hstart. unfold trimEnd.
  rewrite rev_involutive, dropWhile_idempotent. reflexivity.
Qed.

Lemma includes_app_r : forall w x y, includes w y = true -> includes w (x ++ y) = true.
Proof.
  induction x as [|c x IH]; simpl; intros y H; [exact H|].
  rewrite (IH y H). apply orb_true_r.
Qed.

Lemma startsWith_app : forall w s t, startsWith w s = true -> startsWith w (s ++ t) = true.
Proof.
  induction w as [|x w IH]; intros s t H; [reflexivity|].
  destruct s as [|y s]; simpl in *; [discriminate|].
  apply andb_true_iff in H as [H1 H2]. rewrite H1. simpl. now apply IH.
Qed.

Lemma includes_app_l : forall w x y, includes w x = true -> includes w (x ++ y) = true.
Proof.
  induction x as [|c x IH]; intros y H.
  - simpl in H. rewrite orb_false_r in H.
    destruct w; [|discriminate]. destruct y; reflexivity.
  - simpl in H. apply orb_true_iff in H as [H|H].
    + change (includes w ((c :: x) ++ y))
        with (startsWith w ((c :: x) ++ y) || includes w (x ++ y)).
      now rewrite (startsWith_app _ _ y H).
    + change (includes w ((c :: x) ++ y))
        with (startsWith w ((c :: x) ++ y) || includes w (x ++ y)).
      rewrite (IH y H). apply orb_true_r.
Qed.

Lemma startsWith_self_app : forall w t, startsWith w (w ++ t) = true.
Proof.
  induction w as [|x w IH]; intros t; [reflexivity|].
  simpl. now rewrite N.eqb_refl, IH.
Qed.

Lemma includes_startsWith : forall w s, startsWith w s = true -> includes w s = true.
Proof. intros w s H. destruct s; simpl in *; rewrite H; reflexivity. Qed.

Lemma includes_middle : forall w x y, includes w (x ++ w ++ y) = true.
Proof.
  intros w x y. apply includes_app_r, includes_startsWith, startsWith_self_app.
Qed.

(* ================================================================== *)
(** ** The tokenizer of the fallback operator *)

(** Induction for a scan that reads one code unit or two at a time. *)
Lemma list_ind_two : forall (A : Type) (P : list A -> Prop),
  P [] ->
  (forall c rest, P rest -> (forall d rest', rest = d :: rest' -> P rest') -> P (c :: rest)) ->
  forall s, P s.
Proof.
  intros A P Hnil Hcons s.
  assert (H : P s /\ (forall d rest', s = d :: rest' -> P rest')).
  { induction s as [|c rest [IH1 IH2]].
    - split; [exact Hnil | intros; discriminate].
    - split; [apply Hcons; assumption|].
      intros d rest' E. injection E as _ E. now subst. }
  exact (proj1 H).
Qed.

Lemma fallback_scan_cons : forall char rest rules current inString stringChar,
  Fallback.fallback_scan (char :: rest) rules current inString stringChar =
  if negb inString && (N.eqb char 34 || N.eqb char 39) then
    Fallback.fallback_scan rest rules (current ++ [char]) true (Some char)
  else if inString && match stringChar with
                      | Some q => N.eqb char q
                      | None => false
                      end then
    Fallback.fallback_scan rest rules (current ++ [char]) false None
  else
    match rest with
    | nextChar :: rest' =>
        if negb inString && N.eqb char 124 && N.eqb nextChar 124 then
          Fallback.fallback_scan rest' (rules ++ [trim current]) [] inString stringChar
        else Fallback.fallback_scan rest rules (current ++ [char]) inString stringChar
    | [] => Fallback.fallback_scan rest rules (current ++ [char]) inString stringChar
    end.
Proof. reflexivity. Qed.

(** The rules found so far are only ever appended to. *)
Lemma fallback_scan_rules : forall s pre rules current inString stringChar,
  Fallback.fallback_scan s (pre ++ rules) current inString stringChar
  = (pre ++ fst (Fallback.fallback_scan s rules current inString stringChar),
     snd (Fallback.fallback_scan s rules current inString stringChar)).
Proof.
  intros s. induction s as [|c rest IH1 IH2] using list_ind_two; intros.
  - reflexivity.
  - rewrite !fallback_scan_cons.
    destruct (negb inString && (N.eqb c 34 || N.eqb c 39)); [apply IH1|].
    destruct (inString && match stringChar with
                          | Some q => N.eqb c q
                          | None => false
                          end); [apply IH1|].
    destruct rest as [|d rest']; [apply IH1|].
    destruct (negb inString && N.eqb c 124 && N.eqb d 124).
    + rewrite <- app_assoc. apply (IH2 d rest' eq_refl).
    + apply IH1.
Qed.

(** Outside a literal, code units that are neither quotation marks nor
    vertical bars go to the current segment. *)
Lemma fallback_scan_plain : forall a rest rules current,
  quote_free a = true -> lacks 124 a = true ->
  Fallback.fallback_scan (a ++ rest) rules current false None
  = Fallback.fallback_scan rest rules (current ++ a) false None.
Proof.
  induction a as [|c a IH]; intros rest rules current Hq Hp.
  - simpl. now rewrite app_nil_r.
  - simpl in Hq, Hp.
    apply andb_true_iff in Hq as [Hc Hq]. apply andb_true_iff in Hp as [Hc' Hp].
    apply negb_true_iff in Hc. apply negb_true_iff in Hc'. unfold is_quote in Hc.
    change ((c :: a) ++ rest) with (c :: (a ++ rest)).
    rewrite fallback_scan_cons, Hc, Hc'. cbn [negb andb].
    replace (current ++ c :: a) with ((current ++ [c]) ++ a)
      by (rewrite <- app_assoc; reflexivity).
    destruct (a ++ rest) as [|d l] eqn:E.
    + rewrite <- E. now apply IH.
    + rewrite <- E. now apply IH.
Qed.

(** Inside a literal opened by [q], everything up to the next [q] goes to
    the current segment, vertical bars included. *)
Lemma fallback_scan_in_string : forall body q rest rules current,
  lacks q body = true ->
  Fallback.fallback_scan (body ++ q :: rest) rules current true (Some q)
  = Fallback.fallback_scan rest rules (current ++ body ++ [q]) false None.
Proof.
  induction body as [|c body IH]; intros q rest rules current Hb.
  - simpl app. rewrite fallback_scan_cons. cbn [negb andb]. now rewrite N.eqb_refl.
  - simpl in Hb. apply andb_true_iff in Hb as [Hc Hb]. apply negb_true_iff in Hc.
    change ((c :: body) ++ q :: rest) with (c :: (body ++ q :: rest)).
    rewrite fallback_scan_cons, Hc. cbn [negb andb].
    replace (current ++ (c :: body) ++ [q]) with ((current ++ [c]) ++ body ++ [q])
      by (rewrite <- app_assoc; reflexivity).
    destruct (body ++ q :: rest) as [|d l] eqn:E.
    + destruct body; discriminate.
    + rewrite <- E. now apply IH.
Qed.

(** A literal that is never closed takes the rest of the rule. *)
Lemma fallback_scan_unclosed : forall b q rules current,
  lacks q b = true ->
  Fallback.fallback_scan b rules current true (Some q) = (rules, current ++ b).
Proof.
  induction b as [|c b IH]; intros q rules current Hb.
  - simpl. now rewrite app_nil_r.
  - simpl in Hb. apply andb_true_iff in Hb as [Hc Hb]. apply negb_true_iff in Hc.
    rewrite fallback_scan_cons, Hc. cbn [negb andb].
    replace (current ++ c :: b) with ((current ++ [c]) ++ b)
      by (rewrite <- app_assoc; reflexivity).
    destruct b as [|d l]; now apply IH.
Qed.

Lemma is_quote_not_ws : forall q, is_quote q = true -> is_ws q = false.
Proof.
  intros q H. unfold is_quote in H. apply orb_true_iff in H as [H|H];
    apply N.eqb_eq in H; subst; reflexivity.
Qed.

Lemma single_segment : forall current,
  trim current <> [] ->
  match trim current with
  | [] => @nil jsstring
  | t => [] ++ [t]
  end = [trim current].
Proof. intros current H. destruct (trim current); [congruence | reflexivity]. Qed.

Lemma parseFallbackRule_cons : forall a b,
  quote_free a = true -> lacks 124 a = true ->
  Fallback.parseFallbackRule (a ++ u "||" ++ b) = trim a :: Fallback.parseFallbackRule b.
Proof.
  intros a b Hq Hp. unfold Fallback.parseFallbackRule.
  rewrite (fallback_scan_plain a (u "||" ++ b) [] [] Hq Hp).
  change (u "||" ++ b) with (124%N :: 124%N :: b).
  rewrite fallback_scan_cons. cbn [negb andb orb N.eqb Pos.eqb app].
  change (Fallback.fallback_scan b [trim a] [] false None)
    with (Fallback.fallback_scan b ([trim a] ++ []) [] false None).
  rewrite (fallback_scan_rules b [trim a] [] [] false None).
  destruct (Fallback.fallback_scan b [] [] false None) as [rules current].
  cbn [fst snd]. destruct (trim current); reflexivity.
Qed.

Lemma parseFallbackRule_plain : forall a,
  quote_free a = true -> lacks 124 a = true ->
  Fallback.parseFallbackRule a = match trim a with [] => [] | t => [t] end.
Proof.
  intros a Hq Hp. unfold Fallback.parseFallbackRule.
  rewrite <- (app_nil_r a) at 1.
  rewrite (fallback_scan_plain a [] [] [] Hq Hp). simpl.
  destruct (trim a); reflexivity.
Qed.

(** X1.  [parseFallbackRule] splits at the first [||] that follows text
    without quotation marks and without vertical bars: the text before it,
    trimmed, is the first segment (an empty one is kept), and the rest is
    split in the same way.  Such a text without any operator is one segment,
    or none when it is blank. *)
Theorem parseFallbackRule_split : forall a b,
  quote_free a = true -> lacks 124 a = true ->
  Fallback.parseFallbackRule (a ++ u "||" ++ b) = trim a :: Fallback.parseFallbackRule b
  /\ Fallback.parseFallbackRule a = match trim a with [] => [] | t => [t] end.
Proof.
  intros a b Hq Hp. split.
  - now apply parseFallbackRule_cons.
  - now apply parseFallbackRule_plain.
Qed.

Lemma parseFallbackRule_split_witness :
  Fallback.parseFallbackRule (u "@css:.a " ++ u "||" ++ u " @css:.b || ")
  = trim (u "@css:.a ") :: Fallback.parseFallbackRule (u " @css:.b || ").
Proof.
  exact (proj1 (parseFallbackRule_split (u "@css:.a ") (u " @css:.b || ") eq_refl eq_refl)).
Defined.

(** X2.  A rule whose only quotation marks delimit one closed literal, and
    whose vertical bars all lie inside that literal, is a single segment for
    [parseFallbackRule].  When the literal holds the operator [||] and the
    rule has no white space around it, [RuleEngine.parseRule] sends the rule
    to [parseFallbackRule], gets the rule itself back, and never returns. *)
Theorem parseFallbackRule_quoted_whole : forall a q body d,
  is_quote q = true ->
  quote_free a = true -> lacks 124 a = true ->
  lacks q body = true ->
  quote_free d = true -> lacks 124 d = true ->
  Fallback.parseFallbackRule (a ++ q :: body ++ q :: d) = [trim (a ++ q :: body ++ q :: d)]
  /\ (includes (u "||") body = true ->
      trim (a ++ q :: body ++ q :: d) = a ++ q :: body ++ q :: d ->
      forall (RE : RegExpEngine) (AD : Adapters) (options : Options)
             (fuel : nat) (source context : value),
        RuleEngine.parseRule RE AD options fuel source (a ++ q :: body ++ q :: d) context
        = None).
Proof.
  intros a q body d Hquote Ha Ha' Hbody Hd Hd'.
  assert (Hseg : Fallback.parseFallbackRule (a ++ q :: body ++ q :: d)
                 = [trim (a ++ q :: body ++ q :: d)]).
  { unfold Fallback.parseFallbackRule.
    rewrite (fallback_scan_plain a _ [] [] Ha Ha').
    rewrite fallback_scan_cons.
    unfold is_quote in Hquote. rewrite Hquote. cbn [negb andb].
    rewrite (fallback_scan_in_string body q d _ _ Hbody).
    rewrite <- (app_nil_r d) at 1.
    rewrite (fallback_scan_plain d [] _ _ Hd Hd'). cbn [Fallback.fallback_scan].
    replace (((([] ++ a) ++ [q]) ++ body ++ [q]) ++ d) with (a ++ q :: body ++ q :: d)
      by (simpl; repeat (rewrite <- app_assoc; simpl); reflexivity).
    apply single_segment.
    apply trim_not_nil with (c := q).
    - apply in_or_app. right. left. reflexivity.
    - apply is_quote_not_ws. exact Hquote. }
  split; [exact Hseg|].
  intros Hop Htrim RE AD options fuel source context.
  apply parseRule_fallback_self.
  - destruct a; discriminate.
  - apply includes_app_r.
    change (q :: body ++ q :: d) with ([q] ++ body ++ q :: d).
    apply includes_app_r. apply includes_app_l. exact Hop.
  - now rewrite Hseg, Htrim.
Qed.

Lemma parseFallbackRule_quoted_whole_witness :
  Fallback.parseFallbackRule (u "@js:" ++ 34%N :: u "a||b" ++ 34%N :: u ".length")
  = [trim (u "@js:" ++ 34%N :: u "a||b" ++ 34%N :: u ".length")]
  /\ forall fuel,
       RuleEngine.parseRule Examples.digit_regexp Examples.sample_adapters default_options
         fuel Examples.html (u "@js:" ++ 34%N :: u "a||b" ++ 34%N :: u ".length") (VObj [])
       = None.
Proof.
  destruct (parseFallbackRule_quoted_whole (u "@js:") 34%N (u "a||b") (u ".length")
              eq_refl eq_refl eq_refl eq_refl eq_refl eq_refl) as [H1 H2].
  split; [exact H1|].
  intros fuel. apply H2; reflexivity.
Defined.

(** X3.  A quotation mark that is never closed (an apostrophe in plain
    text) switches the splitting off up to the end of the rule: the rule is a
    single segment whatever operators follow the mark, and when [||] follows
    it [RuleEngine.parseRule] never returns. *)
Theorem parseFallbackRule_unclosed_quote : forall a q b,
  is_quote q = true ->
  quote_free a = true -> lacks 124 a = true ->
  lacks q b = true ->
  Fallback.parseFallbackRule (a ++ q :: b) = [trim (a ++ q :: b)]
  /\ (includes (u "||") b = true ->
      trim (a ++ q :: b) = a ++ q :: b ->
      forall (RE : RegExpEngine) (AD : Adapters) (options : Options)
             (fuel : nat) (source context : value),
        RuleEngine.parseRule RE AD options fuel source (a ++ q :: b) context = None).
Proof.
  intros a q b Hquote Ha Ha' Hb.
  assert (Hseg : Fallback.parseFallbackRule (a ++ q :: b) = [trim (a ++ q :: b)]).
  { unfold Fallback.parseFallbackRule.
    rewrite (fallback_scan_plain a _ [] [] Ha Ha').
    rewrite fallback_scan_cons.
    unfold is_quote in Hquote. rewrite Hquote. cbn [negb andb].
    rewrite (fallback_scan_unclosed b q _ _ Hb).
    replace ((([] ++ a) ++ [q]) ++ b) with (a ++ q :: b)
      by (simpl; repeat (rewrite <- app_assoc; simpl); reflexivity).
    apply single_segment.
    apply trim_not_nil with (c := q).
    - apply in_or_app. right. left. reflexivity.
    - apply is_quote_not_ws. exact Hquote. }
  split; [exact Hseg|].
  intros Hop Htrim RE AD options fuel source context.
  apply parseRule_fallback_self.
  - destruct a; discriminate.
  - apply includes_app_r.
    change (q :: b) with ([q] ++ b). apply includes_app_r. exact Hop.
  - now rewrite Hseg, Htrim.
Qed.

Lemma parseFallbackRule_unclosed_quote_witness :
  Fallback.parseFallbackRule (u "@text:it" ++ 39%N :: u "s || @text:x")
  = [trim (u "@text:it" ++ 39%N :: u "s || @text:x")]
  /\ forall fuel,
       RuleEngine.parseRule Examples.digit_regexp Examples.sample_adapters default_options
         fuel Examples.html (u "@text:it" ++ 39%N :: u "s || @text:x") (VObj [])
       = None.
Proof.
  destruct (parseFallbackRule_unclosed_quote (u "@text:it") 39%N (u "s || @text:x")
              eq_refl eq_refl eq_refl eq_refl) as [H1 H2].
  split; [exact H1|].
  intros fuel. apply H2; reflexivity.
Defined.

(* ================================================================== *)
(** ** Rules without quotation marks: the segments get shorter *)

Lemma includes_cons : forall w c rest,
  includes w (c :: rest) = startsWith w (c :: rest) || includes w rest.
Proof. reflexivity. Qed.

Lemma quote_free_app : forall a b,
  quote_free (a ++ b) = quote_free a && quote_free b.
Proof. intros a b. apply forallb_app. Qed.

Lemma startsWith_bars : forall c d rest,
  startsWith (u "||") (c :: d :: rest) = N.eqb c 124 && N.eqb d 124.
Proof.
  intros. change (u "||") with [124%N; 124%N]. cbn [startsWith].
  now rewrite (N.eqb_sym 124 c), (N.eqb_sym 124 d), andb_true_r.
Qed.

Lemma includes_bars_short : forall c, includes (u "||") [c] = false.
Proof.
  intros. change (u "||") with [124%N; 124%N]. cbn [includes startsWith].
  now rewrite andb_false_r.
Qed.

(** What the scan of [parseFallbackRule] leaves on a text without quotation
    marks: every segment it closes, and the segment it is left with, is made
    of code units of the text, and each closing has passed an operator. *)
Lemma fallback_scan_bound : forall s,
  quote_free s = true ->
  forall rules current,
  exists new,
    fst (Fallback.fallback_scan s rules current false None) = rules ++ new
    /\ (forall seg, In seg new ->
          List.length seg + 2 <= List.length current + List.length s
          /\ (quote_free current = true -> quote_free seg = true))
    /\ List.length (snd (Fallback.fallback_scan s rules current false None))
       <= List.length current + List.length s
    /\ (quote_free current = true ->
        quote_free (snd (Fallback.fallback_scan s rules current false None)) = true)
    /\ (new <> [] ->
        List.length (snd (Fallback.fallback_scan s rules current false None)) + 2
        <= List.length current + List.length s)
    /\ (includes (u "||") s = true -> new <> []).
Proof.
  intros s. induction s as [|c rest IH1 IH2] using list_ind_two; intros Hq rules current.
  - exists []. simpl. rewrite app_nil_r.
    repeat split; try lia; try contradiction; try congruence; auto; discriminate.
  - simpl in Hq. apply andb_true_iff in Hq as [Hc Hq].
    apply negb_true_iff in Hc.
    rewrite fallback_scan_cons.
    assert (Hc2 : N.eqb c 34 || N.eqb c 39 = false) by exact Hc.
    rewrite Hc2. cbn [negb andb].
    destruct rest as [|d rest'].
    + exists []. cbn [Fallback.fallback_scan fst snd]. rewrite app_nil_r, length_app.
      simpl List.length.
      repeat split; try lia; try contradiction; try congruence.
      * intros Hcur. rewrite quote_free_app, Hcur. simpl. now rewrite Hc.
      * intros H. rewrite includes_bars_short in H. discriminate.
    + destruct (N.eqb c 124 && N.eqb d 124) eqn:Hop.
      * assert (Hq' : quote_free rest' = true).
        { simpl in Hq. now apply andb_true_iff in Hq as [_ Hq]. }
        destruct (IH2 d rest' eq_refl Hq' (rules ++ [trim current]) [])
          as [new [Hfst [Hsegs [Hlen [Hqf [Hlen2 _]]]]]].
        exists (trim current :: new).
        rewrite Hfst, <- app_assoc. simpl List.length in *.
        split; [reflexivity|].
        split.
        { intros seg [Hs|Hs].
          - subst seg. pose proof (trim_length current). split; [lia|].
            intros Hcur. now apply forallb_trim.
          - destruct (Hsegs seg Hs) as [H1 H2]. split; [lia | auto]. }
        split; [lia|].
        split; [auto|].
        split; [intros _; lia | intros _; discriminate].
      * destruct (IH1 Hq rules (current ++ [c]))
          as [new [Hfst [Hsegs [Hlen [Hqf [Hlen2 Hinc]]]]]].
        assert (Hqc : quote_free current = true -> quote_free (current ++ [c]) = true).
        { intros Hcur. rewrite quote_free_app, Hcur. simpl. now rewrite Hc. }
        exists new. rewrite length_app in *. simpl List.length in *.
        split; [exact Hfst|].
        split.
        { intros seg Hs. destruct (Hsegs seg Hs) as [H1 H2]. split; [lia | auto]. }
        split; [lia|].
        split; [auto|].
        split; [intros Hn; specialize (Hlen2 Hn); lia|].
        intros H. apply Hinc. rewrite includes_cons in H.
        apply orb_true_iff in H as [H|H]; [|exact H].
        rewrite startsWith_bars in H. congruence.
Qed.

(** The segments of a fallback rule without quotation marks have no
    quotation marks, and are shorter than the rule when it has an operator. *)
Lemma parseFallbackRule_shorter : forall s seg,
  quote_free s = true ->
  In seg (Fallback.parseFallbackRule s) ->
  quote_free seg = true
  /\ (includes (u "||") s = true -> List.length seg + 2 <= List.length s).
Proof.
  intros s seg Hq Hin. unfold Fallback.parseFallbackRule in Hin.
  destruct (fallback_scan_bound s Hq [] []) as [new [Hfst [Hsegs [Hlen [Hqf [Hlen2 Hinc]]]]]].
  destruct (Fallback.fallback_scan s [] [] false None) as [rules current].
  cbn [fst snd] in *. simpl in Hfst. subst rules. simpl in Hlen, Hlen2.
  assert (Hlast : seg = trim current \/ In seg new).
  { destruct (trim current) as [|x t] eqn:E; [now right|].
    apply in_app_or in Hin as [Hin|[Hin|[]]]; [now right | now left]. }
  destruct Hlast as [Hs|Hs].
  - subst seg. split; [apply forallb_trim; auto|].
    intros H. specialize (Hlen2 (Hinc H)). pose proof (trim_length current). lia.
  - destruct (Hsegs seg Hs) as [H1 H2]. split; [auto|]. intros _. simpl in H1. lia.
Qed.

(** On a text without quotation marks the two expressions of
    [parseConcatRule] can only match the operator. *)
Lemma matchers_without_quotes : forall t,
  quote_free t = true ->
  Concat.checkRE t = Concat.match_word (u "&&") t
  /\ Concat.splitRE t = Concat.match_word (u " && ") t.
Proof.
  intros t Hq. unfold Concat.checkRE, Concat.splitRE, Concat.alt, Concat.match_literal.
  destruct t as [|c rest]; [split; reflexivity|].
  simpl in Hq. apply andb_true_iff in Hq as [Hc _]. apply negb_true_iff in Hc.
  unfold is_quote in Hc. apply orb_false_iff in Hc as [H1 H2].
  rewrite H1, H2. split; reflexivity.
Qed.

Lemma firstn_startsWith : forall w s,
  startsWith w s = true -> firstn (List.length w) s = w.
Proof.
  induction w as [|x w IH]; intros s H; [reflexivity|].
  destruct s as [|y s]; simpl in H; [discriminate|].
  apply andb_true_iff in H as [H1 H2]. apply N.eqb_eq in H1. subst y.
  simpl. now rewrite IH.
Qed.

(** An occurrence of the word [w] in a text without quotation marks gives a
    match of [w]. *)
Lemma matchAll_from_finds : forall (re : Concat.matcher) (w : jsstring),
  (forall t, quote_free t = true -> re t = Concat.match_word w t) ->
  w <> [] ->
  forall s idx,
    quote_free s = true -> includes w s = true ->
    exists i, In (i, w) (Concat.matchAll_from re s idx 0).
Proof.
  intros re w Hre Hw. induction s as [|c rest IH]; intros idx Hq Hinc.
  - destruct w; [congruence | discriminate].
  - cbn [Concat.matchAll_from]. rewrite (Hre _ Hq). unfold Concat.match_word.
    destruct (startsWith w (c :: rest)) eqn:Hs.
    + exists idx. left. now rewrite (firstn_startsWith _ _ Hs).
    + rewrite includes_cons, Hs in Hinc. simpl in Hinc.
      simpl in Hq. apply andb_true_iff in Hq as [_ Hq].
      destruct (IH (S idx) Hq Hinc) as [i Hi]. exists i. exact Hi.
Qed.

(** A match reported at [i] is a match of the expression at [i]. *)
Lemma matchAll_from_sound : forall (re : Concat.matcher) s idx skip i tok,
  In (i, tok) (Concat.matchAll_from re s idx skip) ->
  exists k len,
    i = idx + k /\ re (skipn k s) = Some len /\ tok = firstn len (skipn k s).
Proof.
  intros re. induction s as [|c rest IH]; intros idx skip i tok Hin; [contradiction|].
  cbn [Concat.matchAll_from] in Hin.
  assert (Htail : forall sk, In (i, tok) (Concat.matchAll_from re rest (S idx) sk) ->
            exists k len,
              i = idx + k /\ re (skipn k (c :: rest)) = Some len
              /\ tok = firstn len (skipn k (c :: rest))).
  { intros sk H. destruct (IH _ _ _ _ H) as [k [len [H1 [H2 H3]]]].
    exists (S k), len. simpl. repeat split; [lia | exact H2 | exact H3]. }
  destruct skip as [|sk]; [|eauto].
  destruct (re (c :: rest)) as [len|] eqn:E; [|eauto].
  destruct Hin as [Hin|Hin]; [|eauto].
  injection Hin as Hi Ht. exists 0, len. simpl. repeat split; [lia | exact E | now symmetry].
Qed.

(** A bare operator with a space on each side is an occurrence of the
    delimiter. *)
Lemma legal_spacing_delimiter : forall s i t,
  skipn i s = 38%N :: 38%N :: t ->
  Concat.illegal_spacing s i = false ->
  includes (u " && ") s = true.
Proof.
  intros s i t Hskip Hlegal. unfold Concat.illegal_spacing in Hlegal.
  apply orb_false_iff in Hlegal as [Hlegal _].
  apply orb_false_iff in Hlegal as [Hl Hr].
  apply Nat.eqb_neq in Hl. apply Nat.eqb_neq in Hr.
  unfold Concat.leftSpaces in Hl. unfold Concat.rightSpaces in Hr.
  assert (Ht : skipn (i + 2) s = t).
  { rewrite Nat.add_comm, <- skipn_skipn, Hskip. reflexivity. }
  rewrite Ht in Hr.
  destruct t as [|x t']; [simpl in Hr; congruence|].
  simpl in Hr. unfold Concat.is_space in Hr at 1.
  destruct (N.eqb x 32) eqn:Hx; [|simpl in Hr; congruence].
  apply N.eqb_eq in Hx. subst x.
  destruct (rev (firstn i s)) as [|y r] eqn:Erev; [simpl in Hl; congruence|].
  simpl in Hl. unfold Concat.is_space in Hl at 1.
  destruct (N.eqb y 32) eqn:Hy; [|simpl in Hl; congruence].
  apply N.eqb_eq in Hy. subst y.
  apply (f_equal (@rev N)) in Erev. rewrite rev_involutive in Erev. simpl in Erev.
  rewrite <- (firstn_skipn i s), Erev, Hskip, <- app_assoc.
  change ([32%N] ++ 38%N :: 38%N :: 32%N :: t') with (u " && " ++ t').
  apply includes_middle.
Qed.

(** A rule without quotation marks that holds the operator and passes the
    first phase has a delimiter. *)
Lemma delimiters_without_quotes : forall s,
  quote_free s = true ->
  includes (u "&&") s = true ->
  Concat.check_loop s (Concat.matchAll Concat.checkRE s) = Normal tt ->
  delimiters s <> [].
Proof.
  intros s Hq Hinc Hcheck.
  destruct (@matchAll_from_finds Concat.checkRE (u "&&")
              (fun t H => proj1 (matchers_without_quotes t H))
              ltac:(discriminate) s 0 Hq Hinc) as [i Hi].
  destruct (Concat.illegal_spacing s i) eqn:Hill.
  { assert (Hthrow : exists e, Concat.check_loop s (Concat.matchAll Concat.checkRE s)
                               = Thrown e).
    { apply check_loop_throws. exists i. split; [exact Hi | exact Hill]. }
    destruct Hthrow as [e He]. congruence. }
  destruct (matchAll_from_sound _ _ _ _ _ _ Hi) as [k [len [Hk [_ Htok]]]].
  simpl in Hk. subst k.
  assert (Hskip : exists t, skipn i s = 38%N :: 38%N :: t).
  { exists (skipn len (skipn i s)).
    rewrite <- (firstn_skipn len (skipn i s)) at 1. now rewrite <- Htok. }
  destruct Hskip as [t Hskip].
  pose proof (legal_spacing_delimiter s i Hskip Hill) as Hdelim.
  destruct (@matchAll_from_finds Concat.splitRE (u " && ")
              (fun t H => proj2 (matchers_without_quotes t H))
              ltac:(discriminate) s 0 Hq Hdelim) as [j Hj].
  intros Hnil.
  assert (Hin : In j (delimiters s)) by (apply In_matches; exact Hj).
  rewrite Hnil in Hin. contradiction.
Qed.

(** A delimiter lies inside the rule, with its four code units. *)
Lemma delimiter_inside : forall s d, In d (delimiters s) -> d + 4 <= List.length s.
Proof.
  intros s d Hd. apply In_matches in Hd.
  destruct (matchAll_from_sound _ _ _ _ _ _ Hd) as [k [len [Hk [_ Htok]]]].
  simpl in Hk. subst k.
  apply (f_equal (@List.length N)) in Htok.
  rewrite length_firstn, length_skipn in Htok. simpl in Htok. lia.
Qed.

Lemma forallb_firstn : forall (p : N -> bool) n l,
  forallb p l = true -> forallb p (firstn n l) = true.
Proof.
  induction n as [|n IH]; intros l H; [reflexivity|].
  destruct l as [|c l]; [reflexivity|]. simpl in *.
  apply andb_true_iff in H as [H1 H2]. now rewrite H1, IH.
Qed.

Lemma forallb_skipn : forall (p : N -> bool) n l,
  forallb p l = true -> forallb p (skipn n l) = true.
Proof.
  induction n as [|n IH]; intros l H; [exact H|].
  destruct l as [|c l]; [reflexivity|]. simpl in *.
  apply andb_true_iff in H as [_ H2]. now apply IH.
Qed.

(** The pieces between delimiters are shorter than the rule by a delimiter
    at least. *)
Lemma cut_shorter : forall s ds lastIndex piece,
  Forall (fun d => d + 4 <= List.length s) ds ->
  (4 <= lastIndex /\ lastIndex <= List.length s) \/ ds <> [] ->
  In piece (cut s ds lastIndex) ->
  List.length piece + 4 <= List.length s
  /\ (quote_free s = true -> quote_free piece = true).
Proof.
  intros s ds. induction ds as [|d rest IH]; intros lastIndex piece Hds Hpos Hin.
  - destruct Hpos as [Hpos|Hpos]; [|congruence].
    destruct Hin as [Hin|[]]. subst piece. rewrite length_skipn.
    split; [lia | apply forallb_skipn].
  - inversion Hds as [|d' rest' Hd Hrest]; subst.
    destruct Hin as [Hin|Hin].
    + subst piece. unfold slice. rewrite length_firstn, length_skipn.
      split; [lia|]. intros Hq. now apply forallb_firstn, forallb_skipn.
    + apply (IH (d + 4) piece Hrest); [left; lia | exact Hin].
Qed.

Lemma pushSegment_shorter : forall seg x,
  In x (Concat.pushSegment [] seg) ->
  List.length x <= List.length seg
  /\ (quote_free seg = true -> quote_free x = true).
Proof.
  intros seg x Hin. unfold Concat.pushSegment in Hin.
  destruct (startsWith (u "@text:") (trim seg) && negb (str_eqb seg (trim seg))
            && endsWithSpace seg);
    destruct Hin as [Hin|[]]; subst x.
  - split; [apply trimStart_length | apply forallb_trimStart].
  - split; [apply trim_length | apply forallb_trim].
Qed.

(** The segments of a concatenation rule without quotation marks have no
    quotation marks and are shorter than the rule. *)
Lemma parseConcatRule_shorter : forall s segs seg,
  quote_free s = true ->
  includes (u "&&") s = true ->
  Concat.parseConcatRule s = Normal segs ->
  In seg segs ->
  quote_free seg = true /\ List.length seg + 4 <= List.length s.
Proof.
  intros s segs seg Hq Hinc Hparse Hin.
  assert (Hcheck : Concat.check_loop s (Concat.matchAll Concat.checkRE s) = Normal tt).
  { destruct (check_loop_cases s (Concat.matchAll Concat.checkRE s)) as [H|H]; [exact H|].
    unfold Concat.parseConcatRule in Hparse. rewrite H in Hparse. discriminate. }
  rewrite (parseConcatRule_second_phase s Hcheck) in Hparse. cbv zeta in Hparse.
  destruct (negb (Nat.eqb (List.length (delimiters s)) 0)
            && existsb (fun seg0 => List.length seg0 =? 0)
                 (flat_map (Concat.pushSegment []) (raw_segments s))); [discriminate|].
  injection Hparse as Hsegs. subst segs.
  apply in_flat_map in Hin as [piece [Hpiece Hx]].
  destruct (pushSegment_shorter _ _ Hx) as [Hlen Hqf].
  unfold raw_segments in Hpiece.
  destruct (@cut_shorter s (delimiters s) 0 piece) as [Hplen Hpq].
  - apply Forall_forall. intros d Hd. now apply delimiter_inside.
  - right. now apply delimiters_without_quotes.
  - exact Hpiece.
  - split; [auto | lia].
Qed.

(* ================================================================== *)
(** ** Termination and exceptions of [RuleEngine.parseRule] *)

Section Termination.
Variable RE : RegExpEngine.
Variable AD : Adapters.
Variable options : Options.

Lemma segment_selectors_return : forall (f : RuleEngine.ParseRule) source context rules,
  (forall r, In r rules -> f source r context <> None) ->
  Forall (@returns unit)
    (map (fun r => mkSelector r (pure_execute (f source r context))) rules).
Proof.
  intros f source context rules H. apply Forall_forall. intros sel Hin.
  apply in_map_iff in Hin as [r [Hsel Hr]]. subst sel.
  intros st. simpl. unfold pure_execute. specialize (H r Hr).
  destruct (f source r context); [discriminate | congruence].
Qed.

Lemma parseRule_returns : forall fuel rule source context,
  quote_free rule = true ->
  List.length rule < fuel ->
  RuleEngine.parseRule RE AD options fuel source rule context <> None.
Proof.
  induction fuel as [|fuel IH]; intros rule source context Hq Hlen; [lia|].
  rewrite parseRule_unfold.
  destruct rule as [|c rest]; [discriminate|].
  cbv beta iota.
  destruct (includes (u "||") (c :: rest)) eqn:Hf.
  - unfold RuleEngine.parseFallbackRule.
    match goal with
    | |- context [Fallback.fallbackOperator ?sels tt] =>
        destruct (Fallback.fallbackOperator sels tt) as [[out st]|] eqn:E
    end; [discriminate|].
    exfalso. revert E. apply fallbackOperator_total, segment_selectors_return.
    intros r Hr. destruct (parseFallbackRule_shorter _ _ Hq Hr) as [Hqr Hlr].
    apply IH; [exact Hqr|]. specialize (Hlr Hf). lia.
  - destruct (includes (u "&&") (c :: rest)) eqn:Hc.
    + unfold RuleEngine.parseConcatRule.
      destruct (Concat.parseConcatRule (c :: rest)) as [segs|e] eqn:Ep; [|discriminate].
      match goal with
      | |- context [Concat.concatOperator ?sep ?ign ?sels tt] =>
          destruct (Concat.concatOperator sep ign sels tt) as [[out st]|] eqn:E
      end; [discriminate|].
      exfalso. revert E. apply concatOperator_total, segment_selectors_return.
      intros r Hr. destruct (@parseConcatRule_shorter (c :: rest) segs r Hq Hc Ep Hr) as [Hqr Hlr].
      apply IH; [exact Hqr | lia].
    + destruct (includes (u "##") (c :: rest)); discriminate.
Qed.

Lemma parseConcatRule_thrown_name : forall s e,
  Concat.parseConcatRule s = Thrown e -> name e = SyntaxError.
Proof.
  intros s e. unfold Concat.parseConcatRule.
  destruct (check_loop_cases s (Concat.matchAll Concat.checkRE s)) as [H|H]; rewrite H.
  - destruct (Concat.split_loop s (Concat.matchAll Concat.splitRE s) [] false 0)
      as [[rules hasDelimiter] lastIndex].
    destruct (hasDelimiter && _); intros E; [|discriminate].
    injection E as E. now subst e.
  - intros E. injection E as E. now subst e.
Qed.

Lemma parseRule_fallback_not_thrown : forall fuel rule source context e,
  includes (u "||") rule = true ->
  RuleEngine.parseRule RE AD options fuel source rule context <> Some (Thrown e).
Proof.
  intros fuel rule source context e Hf.
  destruct fuel as [|fuel]; [discriminate|].
  rewrite parseRule_unfold.
  destruct rule as [|c rest]; [discriminate|].
  cbv beta iota. rewrite Hf.
  unfold RuleEngine.parseFallbackRule.
  match goal with
  | |- context [Fallback.fallbackOperator ?sels tt] =>
      destruct (Fallback.fallbackOperator sels tt) as [[out st]|]
  end; discriminate.
Qed.

Lemma parseRule_concat_thrown : forall fuel rule source context e,
  includes (u "||") rule = false ->
  includes (u "&&") rule = true ->
  RuleEngine.parseRule RE AD options fuel source rule context = Some (Thrown e) ->
  Concat.parseConcatRule rule = Thrown e.
Proof.
  intros fuel rule source context e Hf Hc.
  destruct fuel as [|fuel]; [discriminate|].
  rewrite parseRule_unfold.
  destruct rule as [|c rest]; [discriminate|].
  cbv beta iota. rewrite Hf, Hc.
  unfold RuleEngine.parseConcatRule.
  destruct (Concat.parseConcatRule (c :: rest)) as [segs|e'].
  - match goal with
    | |- context [Concat.concatOperator ?sep ?ign ?sels tt] =>
        destruct (Concat.concatOperator sep ign sels tt) as [[out st]|]
    end; discriminate.
  - intros E. now injection E as ->.
Qed.

End Termination.



(** X5.  [RuleEngine.parseRule] never throws on a rule that holds [||]: what
    a branch throws, a syntax error of [&&] included, is caught by the
    fallback operator.  On a rule that holds [&&] and no [||] it throws only
    the syntax error of [parseConcatRule] on that very rule; what the
    segments throw is caught by the concatenation operator. *)
Theorem parseRule_operators_catch :
  forall (RE : RegExpEngine) (AD : Adapters) (options : Options)
         (fuel : nat) (source : value) (rule : jsstring) (context : value) (e : exn),
    (includes (u "||") rule = true ->
     RuleEngine.parseRule RE AD options fuel source rule context <> Some (Thrown e))
    /\ (includes (u "||") rule = false ->
        includes (u "&&") rule = true ->
        RuleEngine.parseRule RE AD options fuel source rule context = Some (Thrown e) ->
        Concat.parseConcatRule rule = Thrown e /\ name e = SyntaxError).
Proof.
  intros RE AD options fuel source rule context e. split.
  - apply parseRule_fallback_not_thrown.
  - intros Hf Hc H.
    pose proof (@parseRule_concat_thrown RE AD options fuel rule source context e Hf Hc H)
      as Hp.
    split; [exact Hp | exact (parseConcatRule_thrown_name _ Hp)].
Qed.

Lemma parseRule_operators_catch_witness :
  RuleEngine.parseRule Examples.digit_regexp Examples.sample_adapters default_options 3
    Examples.html (u "a&&b || @css:.title@text") (VObj [])
  <> Some (Thrown (mkExn SyntaxError msg_illegal_and))
  /\ (Concat.parseConcatRule (u "a&&b") = Thrown (mkExn SyntaxError msg_illegal_and)
      /\ name (mkExn SyntaxError msg_illegal_and) = SyntaxError).
Proof.
  split.
  - apply (proj1 (parseRule_operators_catch Examples.digit_regexp Examples.sample_adapters
                    default_options 3 Examples.html (u "a&&b || @css:.title@text")
                    (VObj []) (mkExn SyntaxError msg_illegal_and))).
    reflexivity.
  - apply (proj2 (parseRule_operators_catch Examples.digit_regexp Examples.sample_adapters
                    default_options 3 Examples.html (u "a&&b")
                    (VObj []) (mkExn SyntaxError msg_illegal_and)));
      reflexivity.
Defined.



(* ================================================================== *)
(** ** More on the tokenizer of the concatenation operator *)

Lemma cut_length : forall s ds lastIndex,
  List.length (cut s ds lastIndex) = S (List.length ds).
Proof.
  intros s ds. induction ds as [|d rest IH]; intros lastIndex; simpl; [reflexivity|].
  now rewrite IH.
Qed.

Lemma pushSegment_single : forall seg,
  Concat.pushSegment [] seg = [trimStart seg] \/ Concat.pushSegment [] seg = [trim seg].
Proof.
  intros seg. unfold Concat.pushSegment.
  destruct (startsWith (u "@text:") (trim seg) && negb (str_eqb seg (trim seg))
            && endsWithSpace seg); [left | right]; reflexivity.
Qed.

Lemma flat_map_pushSegment_length : forall segs,
  List.length (flat_map (Concat.pushSegment []) segs) = List.length segs.
Proof.
  induction segs as [|seg rest IH]; [reflexivity|].
  simpl. rewrite length_app, IH.
  destruct (pushSegment_single seg) as [H|H]; rewrite H; reflexivity.
Qed.

Lemma trimStart_trim : forall s, trimStart (trim s) = trim s.
Proof.
  intros s. unfold trim.
  pose proof (trimEnd_split (trimStart s)) as Hsplit.
  destruct (trimEnd (trimStart s)) as [|c r] eqn:E; [reflexivity|].
  unfold trimStart in *.
  destruct (dropWhile is_ws s) as [|d rest] eqn:Ed.
  - simpl in Hsplit. discriminate.
  - simpl in Hsplit. injection Hsplit as Hd _. subst d.
    apply dropWhile_head in Ed. simpl. now rewrite Ed.
Qed.

(** X7.  The segments that [parseConcatRule] returns: one more than the
    rule has delimiters, none with white space in front, and, when the rule
    has a delimiter, none empty. *)
Theorem parseConcatRule_segments : forall ruleString segs,
  Concat.parseConcatRule ruleString = Normal segs ->
  List.length segs = S (List.length (delimiters ruleString))
  /\ Forall (fun seg => trimStart seg = seg) segs
  /\ (delimiters ruleString <> [] -> Forall (fun seg => seg <> []) segs).
Proof.
  intros s segs Hparse.
  assert (Hcheck : Concat.check_loop s (Concat.matchAll Concat.checkRE s) = Normal tt).
  { destruct (check_loop_cases s (Concat.matchAll Concat.checkRE s)) as [H|H]; [exact H|].
    unfold Concat.parseConcatRule in Hparse. rewrite H in Hparse. discriminate. }
  rewrite (parseConcatRule_second_phase s Hcheck) in Hparse. cbv zeta in Hparse.
  destruct (negb (Nat.eqb (List.length (delimiters s)) 0)
            && existsb (fun seg0 => List.length seg0 =? 0)
                 (flat_map (Concat.pushSegment []) (raw_segments s))) eqn:Hempty;
    [discriminate|].
  injection Hparse as Hsegs. subst segs.
  split; [|split].
  - rewrite flat_map_pushSegment_length. unfold raw_segments. apply cut_length.
  - apply Forall_forall. intros seg Hin.
    apply in_flat_map in Hin as [piece [_ Hin]].
    destruct (pushSegment_single piece) as [H|H]; rewrite H in Hin;
      destruct Hin as [Hin|[]]; subst seg.
    + apply dropWhile_idempotent.
    + apply trimStart_trim.
  - intros Hd. apply Forall_forall. intros seg Hin Hnil.
    apply andb_false_iff in Hempty as [Hempty|Hempty].
    + apply negb_false_iff, Nat.eqb_eq in Hempty.
      destruct (delimiters s); [congruence | discriminate].
    + assert (Hex : existsb (fun seg0 => List.length seg0 =? 0)
                      (flat_map (Concat.pushSegment []) (raw_segments s)) = true).
      { apply existsb_exists. exists seg. split; [exact Hin|]. now subst seg. }
      congruence.
Qed.

Lemma parseConcatRule_segments_witness :
  List.length [u "@css:.a"; u "@text: - "; u "b"]
  = S (List.length (delimiters (u " @css:.a && @text: -  && b ")))
  /\ Forall (fun seg => trimStart seg = seg) [u "@css:.a"; u "@text: - "; u "b"]
  /\ (delimiters (u " @css:.a && @text: -  && b ") <> [] ->
      Forall (fun seg => seg <> []) [u "@css:.a"; u "@text: - "; u "b"]).
Proof.
  apply (parseConcatRule_segments (u " @css:.a && @text: -  && b ")). reflexivity.
Defined.

Lemma literal_tail_closed : forall body q rest,
  lacks q body = true -> lacks 92 body = true ->
  Concat.literal_tail q (body ++ q :: rest) = Some (S (List.length body)).
Proof.
  induction body as [|c body IH]; intros q rest Hq Hb.
  - simpl. now rewrite N.eqb_refl.
  - simpl in Hq, Hb.
    apply andb_true_iff in Hq as [Hc Hq]. apply andb_true_iff in Hb as [Hc' Hb].
    apply negb_true_iff in Hc. apply negb_true_iff in Hc'.
    change ((c :: body) ++ q :: rest) with (c :: (body ++ q :: rest)).
    cbn [Concat.literal_tail]. rewrite Hc, Hc', (IH q rest Hq Hb). reflexivity.
Qed.

(** Both expressions match a closed literal without backslash as a whole. *)
Lemma literal_matched : forall (re : Concat.matcher) q body rest,
  re = Concat.checkRE \/ re = Concat.splitRE ->
  is_quote q = true ->
  lacks q body = true -> lacks 92 body = true ->
  re (q :: body ++ q :: rest) = Some (S (S (List.length body))).
Proof.
  intros re q body rest Hre Hquote Hq Hb.
  assert (Hlit : Concat.match_literal q (q :: body ++ q :: rest)
                 = Some (S (S (List.length body)))).
  { unfold Concat.match_literal. rewrite N.eqb_refl.
    now rewrite (literal_tail_closed body q rest Hq Hb). }
  unfold is_quote in Hquote. apply orb_true_iff in Hquote as [H|H];
    apply N.eqb_eq in H; subst q;
    destruct Hre as [-> | ->]; unfold Concat.checkRE, Concat.splitRE, Concat.alt;
    rewrite ?Hlit; try reflexivity.
Qed.

(** Neither expression matches at a code unit that is no quotation mark and
    no ampersand, when no ampersand follows it. *)
Lemma plain_unmatched : forall (re : Concat.matcher) c t,
  re = Concat.checkRE \/ re = Concat.splitRE ->
  is_quote c = false -> N.eqb c 38 = false ->
  startsWith [38%N] t = false ->
  re (c :: t) = None.
Proof.
  intros re c t Hre Hc Hamp Ht.
  unfold is_quote in Hc. apply orb_false_iff in Hc as [H1 H2].
  destruct Hre as [-> | ->];
    unfold Concat.checkRE, Concat.splitRE, Concat.alt, Concat.match_literal,
      Concat.match_word;
    rewrite H1, H2.
  - change (u "&&") with [38%N; 38%N]. cbn [startsWith].
    now rewrite (N.eqb_sym 38 c), Hamp.
  - change (u " && ") with [32%N; 38%N; 38%N; 32%N].
    destruct t as [|x t'].
    + cbn [startsWith]. now rewrite andb_false_r.
    + cbn [startsWith] in *. rewrite andb_true_r in Ht. rewrite Ht.
      cbn [andb]. now rewrite andb_false_r.
Qed.

Lemma matchAll_from_plain : forall (re : Concat.matcher) p rest idx,
  re = Concat.checkRE \/ re = Concat.splitRE ->
  quote_free p = true -> lacks 38 p = true ->
  startsWith [38%N] rest = false ->
  Concat.matchAll_from re (p ++ rest) idx 0
  = Concat.matchAll_from re rest (idx + List.length p) 0.
Proof.
  intros re. induction p as [|c p IH]; intros rest idx Hre Hq Ha Hrest.
  - simpl. now rewrite Nat.add_0_r.
  - simpl in Hq, Ha.
    apply andb_true_iff in Hq as [Hc Hq]. apply andb_true_iff in Ha as [Hc' Ha].
    apply negb_true_iff in Hc. apply negb_true_iff in Hc'.
    change ((c :: p) ++ rest) with (c :: (p ++ rest)).
    cbn [Concat.matchAll_from].
    rewrite (@plain_unmatched re c (p ++ rest) Hre Hc Hc').
    + rewrite (IH rest (S idx) Hre Hq Ha Hrest). simpl List.length.
      f_equal. lia.
    + destruct p as [|d p']; [exact Hrest|].
      simpl in Ha. apply andb_true_iff in Ha as [Hd _]. apply negb_true_iff in Hd.
      cbn [startsWith app]. now rewrite (N.eqb_sym 38 d), Hd.
Qed.

Lemma matchAll_from_cons : forall (re : Concat.matcher) c rest idx,
  Concat.matchAll_from re (c :: rest) idx 0 =
  match re (c :: rest) with
  | Some len => (idx, firstn len (c :: rest)) :: Concat.matchAll_from re rest (S idx) (len - 1)
  | None => Concat.matchAll_from re rest (S idx) 0
  end.
Proof. reflexivity. Qed.

Lemma matchAll_from_skip : forall (re : Concat.matcher) t idx k,
  Concat.matchAll_from re t idx k
  = Concat.matchAll_from re (skipn k t) (idx + k) 0.
Proof.
  intros re. induction t as [|c t IH]; intros idx k.
  - destruct k; reflexivity.
  - destruct k as [|k].
    + simpl skipn. now rewrite Nat.add_0_r.
    + cbn [Concat.matchAll_from skipn]. rewrite IH. f_equal. lia.
Qed.

Lemma firstn_past : forall (body : jsstring) q d,
  firstn (S (List.length body)) (body ++ q :: d) = body ++ [q].
Proof.
  induction body as [|c body IH]; intros q d; [reflexivity|].
  simpl. f_equal. apply IH.
Qed.

Lemma skipn_past : forall (body : jsstring) q d,
  skipn (S (List.length body)) (body ++ q :: d) = d.
Proof.
  induction body as [|c body IH]; intros q d; [reflexivity|].
  simpl. apply IH.
Qed.

(** The matches of either expression on plain text around one closed
    literal: the literal, and nothing else. *)
Lemma matchAll_one_literal : forall (re : Concat.matcher) p q body d,
  re = Concat.checkRE \/ re = Concat.splitRE ->
  is_quote q = true ->
  quote_free p = true -> lacks 38 p = true ->
  lacks q body = true -> lacks 92 body = true ->
  quote_free d = true -> lacks 38 d = true ->
  Concat.matchAll re (p ++ q :: body ++ q :: d)
  = [(List.length p, q :: body ++ [q])].
Proof.
  intros re p q body d Hre Hquote Hp Hp' Hbody Hbody' Hd Hd'.
  unfold Concat.matchAll.
  rewrite (@matchAll_from_plain re p (q :: body ++ q :: d) 0 Hre Hp Hp').
  2:{ simpl. unfold is_quote in Hquote.
      apply orb_true_iff in Hquote as [H|H]; apply N.eqb_eq in H; subst q; reflexivity. }
  cbn [Concat.matchAll_from].
  rewrite (@literal_matched re q body d Hre Hquote Hbody Hbody').
  simpl Nat.add. f_equal.
  - f_equal.
    change (firstn (S (S (List.length body))) (q :: body ++ q :: d))
      with (q :: firstn (S (List.length body)) (body ++ q :: d)).
    now rewrite firstn_past.
  - rewrite matchAll_from_skip.
    replace (S (S (List.length body)) - 1) with (S (List.length body)) by lia.
    rewrite skipn_past.
    rewrite <- (app_nil_r d) at 1.
    rewrite (@matchAll_from_plain re d [] _ Hre Hd Hd' eq_refl). reflexivity.
Qed.

Lemma quoted_token_differs : forall q x w c,
  is_quote q = true -> is_quote c = false -> str_eqb (q :: x) (c :: w) = false.
Proof.
  intros q x w c Hq Hc. simpl.
  destruct (N.eqb q c) eqn:E; [|reflexivity].
  apply N.eqb_eq in E. subst c. congruence.
Qed.

(** A rule that the tokenizer of the concatenation operator returns whole
    makes [parseRule] call itself on the same rule until the call stack is
    full.  The operator of the innermost call that fits catches the
    [RangeError], and every operator above it reads a failed sub-rule: the
    outermost call returns a failure whose data is the empty string, whatever
    the size of the stack. *)
Lemma parseRule_concat_self_fails :
  forall (RE : RegExpEngine) (AD : Adapters) (options : Options) (rule : jsstring),
  rule <> [] ->
  includes (u "||") rule = false ->
  includes (u "&&") rule = true ->
  Concat.parseConcatRule rule = Normal [rule] ->
  forall depth source context,
    exists out,
      CallStack.parseRule RE AD options (S depth) source rule context = Some (Normal out)
      /\ success out = false /\ data out = VStr [] /\ selector out = u "concat".
Proof.
  intros RE AD options rule Hne Hor Hinc Hsplit depth source context.
  induction depth as [|depth IH].
  - destruct rule as [|c rule']; [contradiction Hne; reflexivity|].
    cbn [CallStack.parseRule]. rewrite Hor, Hinc.
    unfold RuleEngine.parseConcatRule. rewrite Hsplit.
    unfold Concat.concatOperator. cbn [map Concat.concat_loop execute pure_execute].
    destruct (ignoreEmpty options); cbn [negb];
      eexists; (split; [reflexivity|]); repeat split; cbn [success data];
      destruct (separator options); reflexivity.
  - destruct IH as [inner [Hinner [Hfail _]]].
    destruct rule as [|c rule']; [contradiction Hne; reflexivity|].
    change (CallStack.parseRule RE AD options (S (S depth)) source (c :: rule') context)
      with (if includes (u "||") (c :: rule') then
              RuleEngine.parseFallbackRule
                (CallStack.parseRule RE AD options (S depth)) source (c :: rule') context
            else if includes (u "&&") (c :: rule') then
              RuleEngine.parseConcatRule options
                (CallStack.parseRule RE AD options (S depth)) source (c :: rule') context
            else if includes (u "##") (c :: rule') then
              Some (RuleEngine.parseCleanRule RE AD options source (c :: rule') context)
            else Some (RuleEngine.parseSingleSelector AD options source (c :: rule') context)).
    rewrite Hor, Hinc.
    unfold RuleEngine.parseConcatRule. rewrite Hsplit.
    unfold Concat.concatOperator. cbn [map Concat.concat_loop execute].
    rewrite Hinner. cbn [pure_execute]. rewrite Hfail. cbn [andb].
    destruct (ignoreEmpty options); cbn [negb];
      eexists; (split; [reflexivity|]); repeat split; cbn [success data];
      destruct (separator options); reflexivity.
Qed.

(** X8.  A rule made of plain text (no quotation mark, no ampersand) around
    one closed quoted literal without backslash is a single segment for
    [parseConcatRule], whatever the literal holds.  When the literal holds
    [&&], and the rule has no [||] and no white space around it,
    [RuleEngine.parseRule] sends the rule to [parseConcatRule], gets the rule
    itself back and calls itself on it until the call stack is full; the
    concatenation operator catches the error of the runtime, and the rule
    evaluates to a failure whose data is the empty string: the literal is
    never returned. *)
Theorem parseConcatRule_quoted_whole : forall p q body d,
  is_quote q = true ->
  quote_free p = true -> lacks 38 p = true ->
  lacks q body = true -> lacks 92 body = true ->
  quote_free d = true -> lacks 38 d = true ->
  Concat.parseConcatRule (p ++ q :: body ++ q :: d)
  = Normal (Concat.pushSegment [] (p ++ q :: body ++ q :: d))
  /\ (includes (u "&&") body = true ->
      includes (u "||") (p ++ q :: body ++ q :: d) = false ->
      trim (p ++ q :: body ++ q :: d) = p ++ q :: body ++ q :: d ->
      forall (RE : RegExpEngine) (AD : Adapters) (options : Options)
             (depth : nat) (source context : value),
        exists out,
          CallStack.parse RE AD options (S depth) source
            (p ++ q :: body ++ q :: d) context = Some (Normal out)
          /\ success out = false /\ data out = VStr []
          /\ selector out = u "concat").
Proof.
  intros p q body d Hquote Hp Hp' Hbody Hbody' Hd Hd'.
  assert (Hparse : Concat.parseConcatRule (p ++ q :: body ++ q :: d)
                   = Normal (Concat.pushSegment [] (p ++ q :: body ++ q :: d))).
  { unfold Concat.parseConcatRule.
    rewrite (@matchAll_one_literal Concat.checkRE p q body d
               (or_introl eq_refl) Hquote Hp Hp' Hbody Hbody' Hd Hd').
    rewrite (@matchAll_one_literal Concat.splitRE p q body d
               (or_intror eq_refl) Hquote Hp Hp' Hbody Hbody' Hd Hd').
    cbn [Concat.check_loop Concat.split_loop].
    change (u "&&") with (38%N :: [38%N]).
    change (u " && ") with (32%N :: [38%N; 38%N; 32%N]).
    rewrite (@quoted_token_differs q (body ++ [q]) [38%N] 38%N Hquote eq_refl).
    rewrite (@quoted_token_differs q (body ++ [q]) [38%N; 38%N; 32%N] 32%N Hquote eq_refl).
    reflexivity. }
  split; [exact Hparse|].
  intros Hop Hbar Htrim RE AD options depth source context.
  destruct (@parseRule_concat_self_fails RE AD options (p ++ q :: body ++ q :: d))
    with (depth := depth) (source := source) (context := context)
    as [out [Hout Hrest]].
  - destruct p; discriminate.
  - exact Hbar.
  - apply includes_app_r.
    change (q :: body ++ q :: d) with ([q] ++ body ++ q :: d).
    apply includes_app_r, includes_app_l. exact Hop.
  - rewrite Hparse. unfold Concat.pushSegment. rewrite Htrim, str_eqb_refl.
    cbn [negb andb]. rewrite andb_false_r. reflexivity.
  - exists out. split; [|exact Hrest].
    unfold CallStack.parse. rewrite Hout. reflexivity.
Qed.

Lemma parseConcatRule_quoted_whole_witness :
  Concat.parseConcatRule (u "@text:" ++ 34%N :: u "a && b" ++ 34%N :: [])
  = Normal (Concat.pushSegment [] (u "@text:" ++ 34%N :: u "a && b" ++ 34%N :: []))
  /\ exists out,
       CallStack.parse Examples.digit_regexp Examples.sample_adapters default_options
         1000 Examples.html (u "@text:" ++ 34%N :: u "a && b" ++ 34%N :: []) (VObj [])
       = Some (Normal out)
       /\ success out = false /\ data out = VStr [] /\ selector out = u "concat".
Proof.
  destruct (parseConcatRule_quoted_whole (u "@text:") 34%N (u "a && b") []
              eq_refl eq_refl eq_refl eq_refl eq_refl eq_refl eq_refl) as [H1 H2].
  split; [exact H1|].
  apply (H2 eq_refl eq_refl eq_refl Examples.digit_regexp Examples.sample_adapters
            default_options 999 Examples.html (VObj [])).
Defined.

(* ================================================================== *)
(** ** The concatenation operator in general *)

Section ConcatGeneral.
Variable St : Type.

Lemma concat_loop_pieces : forall (sels : list (Selector St)) st cs st',
  executes sels st cs st' ->
  forall separator ignoreEmpty i results errs rules,
  exists errs',
    Concat.concat_loop separator ignoreEmpty sels i results errs rules st
    = Some ((results ++ concat_pieces ignoreEmpty cs, errs ++ errs',
             rules ++ map (@rule_or_unknown St) sels), st')
    /\ List.length errs' = List.length (filter (fun c => negb (succeeded c)) cs).
Proof.
  induction 1 as [st | sel tl st c st1 cs st2 Hex Hrun IH];
    intros separator ignoreEmpty i results errs rules.
  - exists []. simpl. rewrite !app_nil_r. split; reflexivity.
  - cbn [Concat.concat_loop]. rewrite Hex.
    unfold concat_pieces.
    destruct c as [r | e]; cbn [flat_map concat_piece filter succeeded map negb].
    + destruct (success r && negb (isEmpty (data r))) eqn:Hok; cbn [negb].
      * destruct (IH separator ignoreEmpty (S i)
                    (results ++ [Concat.processDataForConcat (data r) r]) errs
                    (rules ++ [rule_or_unknown sel])) as [errs' [Heq Hlen]].
        exists errs'. rewrite Heq. split; [|exact Hlen].
        rewrite processDataForConcat_stringify.
        -- rewrite <- !app_assoc. reflexivity.
        -- apply andb_true_iff in Hok as [_ Hok]. now apply negb_true_iff in Hok.
      * destruct ignoreEmpty; cbn [negb].
        -- destruct (IH separator true (S i) results
                       (errs ++ [mkAttemptError (rule_or_unknown sel)
                                   (u "empty result (ignored)") i])
                       (rules ++ [rule_or_unknown sel])) as [errs' [Heq Hlen]].
           eexists (_ :: errs'). rewrite Heq. split.
           ++ rewrite <- !app_assoc. reflexivity.
           ++ simpl. now rewrite Hlen.
        -- destruct (IH separator false (S i) (results ++ [[]])
                       (errs ++ [mkAttemptError (rule_or_unknown sel)
                                   (u "empty result") i])
                       (rules ++ [rule_or_unknown sel])) as [errs' [Heq Hlen]].
           eexists (_ :: errs'). rewrite Heq. split.
           ++ rewrite <- !app_assoc. reflexivity.
           ++ simpl. now rewrite Hlen.
    + destruct ignoreEmpty; cbn [negb].
      * destruct (IH separator true (S i) results
                    (errs ++ [mkAttemptError (rule_or_unknown sel) (message e) i])
                    (rules ++ [rule_or_unknown sel])) as [errs' [Heq Hlen]].
        eexists (_ :: errs'). rewrite Heq. split.
        -- rewrite <- !app_assoc. reflexivity.
        -- simpl. now rewrite Hlen.
      * destruct (IH separator false (S i) (results ++ [[]])
                    (errs ++ [mkAttemptError (rule_or_unknown sel) (message e) i])
                    (rules ++ [rule_or_unknown sel])) as [errs' [Heq Hlen]].
        eexists (_ :: errs'). rewrite Heq. split.
        -- rewrite <- !app_assoc. reflexivity.
        -- simpl. now rewrite Hlen.
Qed.

Lemma executes_length : forall (sels : list (Selector St)) st cs st',
  executes sels st cs st' -> List.length cs = List.length sels.
Proof. induction 1; simpl; congruence. Qed.

End ConcatGeneral.

Lemma concat_pieces_positional : forall cs,
  List.length (concat_pieces false cs) = List.length cs.
Proof.
  induction cs as [|c cs IH]; [reflexivity|].
  unfold concat_pieces in *. cbn [flat_map]. rewrite length_app, IH.
  destruct c as [r|e]; cbn [concat_piece]; [|reflexivity].
  destruct (success r && negb (isEmpty (data r))); reflexivity.
Qed.

(** X9.  [concatOperator] with any separator and either setting of
    [ignoreEmpty]: the data is the join of what the attempts contribute, in
    order.  A success contributes its text; a failure contributes nothing
    when [ignoreEmpty] is set, and the empty string when it is not, so that
    then there is one piece for each selector.  Every failure leaves one
    entry in [errors]. *)
Theorem concatOperator_pieces :
  forall (St : Type) (separator : jsstring) (ignoreEmpty : bool)
         (sels : list (Selector St)) (st st' : St)
         (cs : list (completion ParseResult)),
    executes sels st cs st' ->
    exists out,
      Concat.concatOperator separator ignoreEmpty sels st = Some (out, st')
      /\ data out = VStr (join separator (concat_pieces ignoreEmpty cs))
      /\ processedCount out = Some (List.length (concat_pieces ignoreEmpty cs))
      /\ (ignoreEmpty = false -> processedCount out = Some (List.length sels))
      /\ List.length (errors out)
         = List.length (filter (fun c => negb (succeeded c)) cs)
      /\ rule out = join (u " && ") (map (@rule_or_unknown St) sels).
Proof.
  intros St separator ignoreEmpty sels st st' cs Hrun.
  destruct (concat_loop_pieces Hrun separator ignoreEmpty 0 [] [] [])
    as [errs' [Hloop Hlen]].
  unfold Concat.concatOperator. rewrite Hloop. cbn [app].
  eexists. split; [reflexivity|]. cbn [data processedCount errors rule].
  repeat split; try assumption.
  intros ->. now rewrite concat_pieces_positional, (executes_length Hrun).
Qed.

Lemma concatOperator_pieces_witness :
  exists out,
    Concat.concatOperator (u "-") false
      [Examples.sel_none 0; Examples.sel_title 1; Examples.sel_throw 2] []
    = Some (out, [0; 1; 2])
    /\ data out = VStr (u "-T-")
    /\ processedCount out = Some 3.
Proof.
  destruct (@concatOperator_pieces (list nat) (u "-") false
              [Examples.sel_none 0; Examples.sel_title 1; Examples.sel_throw 2]
              [] [0; 1; 2]
              [Normal (plain_result false VNull (u ".none@text") (u "css"));
               Normal Examples.title_result;
               Thrown (mkExn RuleParseError (msg_css_failed ++ u "parse error"))])
    as [out [H1 [H2 [H3 _]]]].
  - repeat (econstructor; [reflexivity|]). constructor.
  - exists out. split; [exact H1|]. split; [exact H2 | exact H3].
Defined.

(* ================================================================== *)
(** ** The cleanup operators *)

(** X10.  A pattern that the runtime refuses: [regexCleanOperator] throws a
    [RuleParseError] whose message ends with the pattern, unless the input
    converts to the empty string, in which case the pattern is never
    compiled and the operator returns the empty string as a failure. *)
Theorem regexCleanOperator_bad_pattern :
  forall (RE : RegExpEngine) (text : value) (pattern replacement : jsstring)
         (options : Options),
    (forall flags_, RegExp_new RE pattern flags_ = None) ->
    (RegexClean.convertToString text <> [] ->
     RegexClean.regexCleanOperator RE text pattern replacement options
     = Thrown (mkExn RuleParseError (msg_clean_failed ++ msg_bad_regex ++ pattern)))
    /\ (RegexClean.convertToString text = [] ->
        RegexClean.regexCleanOperator RE text pattern replacement options
        = Normal (plain_result false (VStr [])
                    (u "##" ++ pattern ++ u "##" ++ replacement) (u "regex-clean"))).
Proof.
  intros RE text pattern replacement options Hbad.
  unfold RegexClean.regexCleanOperator, RegexClean.cleanText, RegexClean.parseCleanPattern.
  rewrite Hbad. split; intros Htext.
  - destruct (RegexClean.convertToString text); [congruence | reflexivity].
  - rewrite Htext. reflexivity.
Qed.

Lemma regexCleanOperator_bad_pattern_witness :
  RegexClean.regexCleanOperator Examples.digit_regexp (VStr (u "abc")) (u "(") []
    default_options
  = Thrown (mkExn RuleParseError (msg_clean_failed ++ msg_bad_regex ++ u "("))
  /\ RegexClean.regexCleanOperator Examples.digit_regexp VNull (u "(") [] default_options
     = Normal (plain_result false (VStr []) (u "##" ++ u "(" ++ u "##" ++ [])
                 (u "regex-clean")).
Proof.
  split.
  - apply (proj1 (@regexCleanOperator_bad_pattern Examples.digit_regexp (VStr (u "abc"))
                    (u "(") [] default_options (fun _ => eq_refl))).
    discriminate.
  - apply (proj2 (@regexCleanOperator_bad_pattern Examples.digit_regexp VNull
                    (u "(") [] default_options (fun _ => eq_refl))).
    reflexivity.
Defined.

Lemma batch_loop_cons : forall RE options rule rest i result appliedRules errs,
  RegexClean.batch_loop RE options (rule :: rest) i result appliedRules errs =
  match batch_step RE options rule result with
  | Normal (cleanResult, applied) =>
      RegexClean.batch_loop RE options rest (S i) cleanResult (appliedRules ++ [applied]) errs
  | Thrown e =>
      let errs' :=
        errs ++ [mkAttemptError (RegexClean.show_clean_rule rule) (message e) i] in
      if stopOnError options then (result, appliedRules, errs')
      else RegexClean.batch_loop RE options rest (S i) result appliedRules errs'
  end.
Proof. reflexivity. Qed.

(** The text that the loop leaves depends on the rules and the text only. *)
Lemma batch_loop_text : forall RE options rules i result appliedRules errs,
  fst (fst (RegexClean.batch_loop RE options rules i result appliedRules errs))
  = batch_text RE options rules result.
Proof.
  intros RE options. unfold batch_text.
  induction rules as [|rule rest IH]; intros i result appliedRules errs; [reflexivity|].
  rewrite !batch_loop_cons.
  destruct (batch_step RE options rule result) as [[cleanResult applied]|e].
  - rewrite (IH (S i) cleanResult (appliedRules ++ [applied]) errs).
    now rewrite (IH 1 cleanResult ([] ++ [applied]) []).
  - cbv zeta. destruct (stopOnError options); [reflexivity|].
    rewrite (IH (S i) result appliedRules _). now rewrite (IH 1 result [] _).
Qed.

Lemma batch_text_cons : forall RE options rule rest text,
  batch_text RE options (rule :: rest) text =
  match batch_step RE options rule text with
  | Normal (cleanResult, _) => batch_text RE options rest cleanResult
  | Thrown _ => if stopOnError options then text else batch_text RE options rest text
  end.
Proof.
  intros RE options rule rest text. unfold batch_text at 1. rewrite batch_loop_cons.
  destruct (batch_step RE options rule text) as [[cleanResult applied]|e].
  - apply batch_loop_text.
  - cbv zeta. destruct (stopOnError options); [reflexivity | apply batch_loop_text].
Qed.

Lemma batchRegexCleanOperator_data : forall RE options text rules,
  data (RegexClean.batchRegexCleanOperator RE text rules options)
  = VStr (batch_text RE options rules (RegexClean.convertToString text)).
Proof.
  intros. unfold RegexClean.batchRegexCleanOperator, batch_text.
  destruct (RegexClean.batch_loop RE options rules 0 (RegexClean.convertToString text) [] [])
    as [[result appliedRules] errs].
  reflexivity.
Qed.

Lemma batch_text_app : forall RE options rules1 rules2 text,
  stopOnError options = false ->
  batch_text RE options (rules1 ++ rules2) text
  = batch_text RE options rules2 (batch_text RE options rules1 text).
Proof.
  intros RE options rules1 rules2 text Hstop. revert text.
  induction rules1 as [|rule rest IH]; intros text; [reflexivity|].
  change ((rule :: rest) ++ rules2) with (rule :: (rest ++ rules2)).
  rewrite !batch_text_cons, Hstop.
  destruct (batch_step RE options rule text) as [[cleanResult applied]|e]; apply IH.
Qed.

(** X11.  Unless [stopOnError] is set, cleaning with the rules [rules1]
    followed by [rules2] is cleaning with [rules1] and then cleaning the
    result with [rules2]; the batch operator always reports success. *)
Theorem batchRegexCleanOperator_composes :
  forall (RE : RegExpEngine) (options : Options) (text : value)
         (rules1 rules2 : list RegexClean.CleanRule),
    stopOnError options = false ->
    data (RegexClean.batchRegexCleanOperator RE text (rules1 ++ rules2) options)
    = data (RegexClean.batchRegexCleanOperator RE
              (data (RegexClean.batchRegexCleanOperator RE text rules1 options))
              rules2 options)
    /\ success (RegexClean.batchRegexCleanOperator RE text (rules1 ++ rules2) options)
       = true.
Proof.
  intros RE options text rules1 rules2 Hstop. split.
  - rewrite !batchRegexCleanOperator_data. cbn [RegexClean.convertToString].
    now rewrite batch_text_app.
  - unfold RegexClean.batchRegexCleanOperator.
    destruct (RegexClean.batch_loop RE options (rules1 ++ rules2) 0
                (RegexClean.convertToString text) [] []) as [[r a] e].
    reflexivity.
Qed.

Lemma batchRegexCleanOperator_composes_witness :
  data (RegexClean.batchRegexCleanOperator Examples.digit_regexp (VStr (u "1"))
          ([RegexClean.RuleObject (u "1") (u "2")] ++ [RegexClean.RuleString (u "##2##3")])
          default_options)
  = data (RegexClean.batchRegexCleanOperator Examples.digit_regexp
            (data (RegexClean.batchRegexCleanOperator Examples.digit_regexp (VStr (u "1"))
                     [RegexClean.RuleObject (u "1") (u "2")] default_options))
            [RegexClean.RuleString (u "##2##3")] default_options).
Proof.
  apply (proj1 (@batchRegexCleanOperator_composes Examples.digit_regexp default_options
                  (VStr (u "1")) [RegexClean.RuleObject (u "1") (u "2")]
                  [RegexClean.RuleString (u "##2##3")] eq_refl)).
Defined.

Lemma batch_step_malformed : forall RE options s e text,
  RegexClean.parseCleanRule s = Thrown e ->
  batch_step RE options (RegexClean.RuleString s) text = Thrown e.
Proof. intros RE options s e text H. unfold batch_step. now rewrite H. Qed.

Lemma batch_text_stops : forall RE options rules1 bad rules2 text e,
  stopOnError options = true ->
  (forall t, batch_step RE options bad t = Thrown e) ->
  batch_text RE options (rules1 ++ bad :: rules2) text
  = batch_text RE options rules1 text.
Proof.
  intros RE options rules1 bad rules2 text e Hstop Hbad. revert text.
  induction rules1 as [|rule rest IH]; intros text.
  - simpl app. rewrite batch_text_cons, Hbad, Hstop. reflexivity.
  - change ((rule :: rest) ++ bad :: rules2) with (rule :: (rest ++ bad :: rules2)).
    rewrite !batch_text_cons, Hstop.
    destruct (batch_step RE options rule text) as [[cleanResult applied]|e'];
      [apply IH | reflexivity].
Qed.

(** X12.  A rule string that is no cleanup rule does not make the batch
    operator fail: unless [stopOnError] is set the rule is passed over and
    the text is what the other rules give; when it is set, the text is what
    the rules before it give. *)
Theorem batchRegexCleanOperator_skips_malformed :
  forall (RE : RegExpEngine) (options : Options) (text : value)
         (rules1 rules2 : list RegexClean.CleanRule) (s : jsstring) (e : exn),
    RegexClean.parseCleanRule s = Thrown e ->
    data (RegexClean.batchRegexCleanOperator RE text
            (rules1 ++ RegexClean.RuleString s :: rules2) options)
    = data (RegexClean.batchRegexCleanOperator RE text
              (if stopOnError options then rules1 else rules1 ++ rules2) options).
Proof.
  intros RE options text rules1 rules2 s e Hbad.
  rewrite !batchRegexCleanOperator_data. f_equal.
  destruct (stopOnError options) eqn:Hstop.
  - apply batch_text_stops with (e := e); [exact Hstop|].
    intros t. now apply batch_step_malformed.
  - rewrite !batch_text_app by exact Hstop.
    rewrite batch_text_cons, (batch_step_malformed RE options s _ Hbad), Hstop.
    reflexivity.
Qed.

Lemma batchRegexCleanOperator_skips_malformed_witness :
  data (RegexClean.batchRegexCleanOperator Examples.digit_regexp (VStr (u "1"))
          ([RegexClean.RuleObject (u "1") (u "2")]
             ++ RegexClean.RuleString (u "2##3") :: [RegexClean.RuleString (u "##2##3")])
          default_options)
  = data (RegexClean.batchRegexCleanOperator Examples.digit_regexp (VStr (u "1"))
            ([RegexClean.RuleObject (u "1") (u "2")] ++ [RegexClean.RuleString (u "##2##3")])
            default_options).
Proof.
  apply (@batchRegexCleanOperator_skips_malformed Examples.digit_regexp default_options
           (VStr (u "1")) [RegexClean.RuleObject (u "1") (u "2")]
           [RegexClean.RuleString (u "##2##3")] (u "2##3")
           (mkExn Error (msg_bad_clean_rule ++ u "2##3")) eq_refl).
Defined.

Lemma split_hashes_two : forall cur x y rest,
  split_hashes cur (x :: y :: rest) =
  if N.eqb x 35 && N.eqb y 35 then cur :: split_hashes [] rest
  else split_hashes (cur ++ [x]) (y :: rest).
Proof. reflexivity. Qed.

Lemma startsWith_hashes : forall c d rest,
  startsWith (u "##") (c :: d :: rest) = N.eqb c 35 && N.eqb d 35.
Proof.
  intros. change (u "##") with [35%N; 35%N]. cbn [startsWith].
  now rewrite (N.eqb_sym 35 c), (N.eqb_sym 35 d), andb_true_r.
Qed.

(** Without the separator there is nothing to split. *)
Lemma split_hashes_none : forall s cur,
  includes (u "##") s = false -> split_hashes cur s = [cur ++ s].
Proof.
  induction s as [|c rest IH]; intros cur H.
  - simpl. now rewrite app_nil_r.
  - destruct rest as [|d rest']; [reflexivity|].
    rewrite includes_cons in H. apply orb_false_iff in H as [Hs Hrest].
    rewrite startsWith_hashes in Hs.
    rewrite split_hashes_two, Hs, (IH (cur ++ [c]) Hrest), <- app_assoc. reflexivity.
Qed.

(** The first separator after a text that holds none, and that does not end
    with half of one, ends the first part. *)
Lemma split_hashes_first : forall X cur p,
  includes (u "##") (X ++ u "#") = false ->
  split_hashes cur (X ++ u "##" ++ p) = (cur ++ X) :: split_hashes [] p.
Proof.
  induction X as [|c X IH]; intros cur p H.
  - change ([] ++ u "##" ++ p) with (35%N :: 35%N :: p).
    rewrite split_hashes_two. simpl. now rewrite app_nil_r.
  - change ((c :: X) ++ u "#") with (c :: (X ++ u "#")) in H.
    rewrite includes_cons in H. apply orb_false_iff in H as [Hs Hrest].
    change ((c :: X) ++ u "##" ++ p) with (c :: (X ++ u "##" ++ p)).
    replace (cur ++ c :: X) with ((cur ++ [c]) ++ X) by (now rewrite <- app_assoc).
    rewrite <- (IH (cur ++ [c]) p Hrest).
    destruct X as [|d X'].
    + change ([] ++ u "##" ++ p) with (35%N :: 35%N :: p).
      change (c :: [] ++ u "#") with (c :: 35%N :: []) in Hs.
      rewrite startsWith_hashes in Hs.
      rewrite (split_hashes_two cur c 35 (35%N :: p)), Hs. reflexivity.
    + change (c :: (d :: X') ++ u "#") with (c :: d :: (X' ++ u "#")) in Hs.
      rewrite startsWith_hashes in Hs.
      change ((d :: X') ++ u "##" ++ p) with (d :: (X' ++ u "##" ++ p)).
      rewrite (split_hashes_two cur c d _), Hs. reflexivity.
Qed.

(** X13.  A cleanup rule with a pattern and no replacement part, written
    [selector##pattern]: [RuleEngine] refuses it with the format error, and
    [BookSourceRuleEngine] runs the selector and returns its data, converted
    to a string, without applying the pattern. *)
Theorem cleanup_without_replacement :
  forall (RE : RegExpEngine) (AD : Adapters) (X p : jsstring),
    includes (u "##") (X ++ u "#") = false ->
    includes (u "##") p = false ->
    (forall (options : Options) (source context : value),
        RuleEngine.parseCleanRule RE AD options source (X ++ u "##" ++ p) context
        = Thrown (mkExn Error msg_bad_clean_format))
    /\ (forall (opts : BookSourceRuleEngine.EngineOptions) (source context : value)
               (selectorResult : ParseResult),
           X <> [] ->
           BookSourceRuleEngine._handleSingleSelector AD opts X source context
           = Normal selectorResult ->
           success selectorResult = true ->
           exists out,
             BookSourceRuleEngine._handleCleanRule RE AD opts (X ++ u "##" ++ p)
               source context = Normal out
             /\ success out = true
             /\ data out = VStr (RegexClean.convertToString (data selectorResult))
             /\ originalData out = Some (data selectorResult)).
Proof.
  intros RE AD X p HX Hp.
  assert (Hparts : split_hashes [] (X ++ u "##" ++ p) = [X; p]).
  { rewrite (split_hashes_first X [] p HX), (split_hashes_none p [] Hp). reflexivity. }
  split.
  - intros options source context. unfold RuleEngine.parseCleanRule.
    rewrite Hparts. reflexivity.
  - intros opts source context selectorResult HXne Hsel Hok.
    unfold BookSourceRuleEngine._handleCleanRule. rewrite Hparts.
    cbn [nth skipn BookSourceRuleEngine.clean_pairs].
    destruct X as [|c X']; [congruence|].
    rewrite Hsel, Hok. cbn [negb].
    unfold BookSourceRuleEngine.apply_clean, RegexClean.batchRegexCleanOperator.
    cbn [map RegexClean.batch_loop].
    eexists. split; [reflexivity|]. cbn. repeat split; assumption.
Qed.

Lemma cleanup_without_replacement_witness :
  RuleEngine.parseCleanRule Examples.digit_regexp Examples.sample_adapters default_options
    Examples.html (u "@css:.title@text" ++ u "##" ++ u "T") (VObj [])
  = Thrown (mkExn Error msg_bad_clean_format)
  /\ exists out,
       BookSourceRuleEngine._handleCleanRule Examples.digit_regexp Examples.sample_adapters
         BookSourceRuleEngine.default_engine_options
         (u "@css:.title@text" ++ u "##" ++ u "T") Examples.html (VObj []) = Normal out
       /\ success out = true
       /\ data out = VStr (RegexClean.convertToString (data Examples.title_result))
       /\ originalData out = Some (data Examples.title_result).
Proof.
  destruct (@cleanup_without_replacement Examples.digit_regexp Examples.sample_adapters
              (u "@css:.title@text") (u "T") eq_refl eq_refl) as [H1 H2].
  split; [apply H1|].
  apply H2; [discriminate | reflexivity | reflexivity].
Defined.

(* ================================================================== *)
(** ** Splitting a selector expression *)

Lemma split_last_None : forall c s, Css.split_last c s = None <-> lacks c s = true.
Proof.
  intros c. induction s as [|x s IH]; simpl; [tauto|].
  destruct (Css.split_last c s) as [[a b]|].
  - split; [discriminate|]. intros H. apply andb_true_iff in H as [_ H].
    apply IH in H. discriminate.
  - destruct IH as [IH _]. rewrite (IH eq_refl), andb_true_r.
    destruct (N.eqb x c); simpl; split; congruence.
Qed.

Lemma split_last_sound : forall c s a b,
  Css.split_last c s = Some (a, b) -> s = a ++ c :: b /\ lacks c b = true.
Proof.
  intros c. induction s as [|x s IH]; intros a b H; simpl in H; [discriminate|].
  destruct (Css.split_last c s) as [[a' b']|] eqn:E.
  - injection H as <- <-. destruct (IH a' b' eq_refl) as [H1 H2].
    split; [simpl; congruence | exact H2].
  - destruct (N.eqb x c) eqn:Ex; [|discriminate].
    injection H as <- <-. apply N.eqb_eq in Ex. subst x.
    split; [reflexivity | now apply split_last_None].
Qed.

Lemma split_last_complete : forall c a b,
  lacks c b = true -> Css.split_last c (a ++ c :: b) = Some (a, b).
Proof.
  intros c a b Hb. induction a as [|x a IH]; simpl.
  - apply split_last_None in Hb. now rewrite Hb, N.eqb_refl.
  - now rewrite IH.
Qed.

(** X14.  [parseCssExpression] cuts a selector at its last [@]: what
    follows is the attribute, and a selector without [@] has none. *)
Theorem parseCssExpression_last_at : forall expression e a,
  (Css.parseCssExpression expression = (e, Some a) ->
   expression = e ++ u "@" ++ a /\ lacks 64 a = true)
  /\ (lacks 64 a = true -> Css.parseCssExpression (e ++ u "@" ++ a) = (e, Some a))
  /\ (lacks 64 expression = true ->
      Css.parseCssExpression expression = (expression, None)).
Proof.
  intros expression e a. unfold Css.parseCssExpression. split; [|split].
  - destruct (Css.split_last 64 expression) as [[e' a']|] eqn:E; [|discriminate].
    intros H. injection H as <- <-. now apply split_last_sound.
  - intros Ha. change (e ++ u "@" ++ a) with (e ++ 64%N :: a).
    now rewrite (split_last_complete 64 e a Ha).
  - intros H. apply split_last_None in H. now rewrite H.
Qed.

Lemma parseCssExpression_last_at_witness :
  Css.parseCssExpression (u "a[href^='@x']" ++ u "@" ++ u "href")
  = (u "a[href^='@x']", Some (u "href")).
Proof.
  apply (proj1 (proj2 (parseCssExpression_last_at [] (u "a[href^='@x']") (u "href")))).
  reflexivity.
Defined.

(** X15.  The bracket expression that [_parseSelector] looks for: when it
    is found, the three parts put together again, with the brackets, are the
    expression; and an expression made of a non-empty base, a bracketed
    non-empty index without an opening bracket, and a rest without a closing
    bracket is split into these parts.  The brackets of a CSS attribute
    selector are such an index: [_parseSelector] takes them out of the
    expression. *)
Theorem match_index_parts : forall base idx after,
  (forall expression,
      BookSourceRuleEngine.match_index expression = Some (base, idx, after) ->
      expression = base ++ u "[" ++ idx ++ u "]" ++ after
      /\ base <> [] /\ idx <> [] /\ lacks 93 after = true)
  /\ (existsb is_line_terminator (base ++ u "[" ++ idx ++ u "]" ++ after) = false ->
      base <> [] -> idx <> [] ->
      lacks 91 idx = true -> lacks 93 after = true ->
      BookSourceRuleEngine.match_index (base ++ u "[" ++ idx ++ u "]" ++ after)
      = Some (base, idx, after)
      /\ forall opts,
           BookSourceRuleEngine._parseSelector opts
             (u "@css:" ++ base ++ u "[" ++ idx ++ u "]" ++ after)
           = (u "css", base ++ after,
              Some (BookSourceRuleEngine._parseIndexExpression idx))).
Proof.
  intros base idx after. split.
  - intros expression H. unfold BookSourceRuleEngine.match_index in H.
    destruct (existsb is_line_terminator expression); [discriminate|].
    destruct (Css.split_last 93 expression) as [[before afterIndex]|] eqn:E1;
      [|discriminate].
    destruct (rev before) as [|lastc front] eqn:E2; [discriminate|].
    destruct (Css.split_last 91 (rev front)) as [[[|c b] i]|] eqn:E3; try discriminate.
    injection H as <- <- <-.
    apply split_last_sound in E1 as [H1 H2].
    apply split_last_sound in E3 as [H3 _].
    apply (f_equal (@rev N)) in E2. rewrite rev_involutive in E2. simpl in E2.
    repeat split; try assumption; try discriminate.
    + rewrite H1, E2, H3. simpl. repeat (rewrite <- app_assoc; simpl). reflexivity.
    + destruct i; discriminate.
  - intros Hlt Hbase Hidx Hopen Hclose.
    assert (Hmatch : BookSourceRuleEngine.match_index
                       (base ++ u "[" ++ idx ++ u "]" ++ after)
                     = Some (base, idx, after)).
    { unfold BookSourceRuleEngine.match_index. rewrite Hlt.
      replace (base ++ u "[" ++ idx ++ u "]" ++ after)
        with ((base ++ 91%N :: idx) ++ 93%N :: after)
        by (rewrite <- app_assoc; reflexivity).
      rewrite (split_last_complete 93 _ after Hclose).
      destruct (exists_last Hidx) as [idx' [lastc Hlast]]. subst idx.
      replace (base ++ 91%N :: idx' ++ [lastc]) with ((base ++ 91%N :: idx') ++ [lastc])
        by (rewrite <- app_assoc; reflexivity).
      rewrite rev_app_distr. cbn [rev app]. rewrite rev_involutive.
      assert (Hopen' : lacks 91 idx' = true).
      { unfold lacks in *. rewrite forallb_app in Hopen.
        now apply andb_true_iff in Hopen as [Hopen _]. }
      rewrite (split_last_complete 91 base idx' Hopen').
      destruct base; [congruence | reflexivity]. }
    split; [exact Hmatch|].
    intros opts. unfold BookSourceRuleEngine._parseSelector.
    rewrite (startsWith_self_app (u "@css:")).
    change (substring 5 (u "@css:" ++ base ++ u "[" ++ idx ++ u "]" ++ after))
      with (base ++ u "[" ++ idx ++ u "]" ++ after).
    rewrite Hmatch. reflexivity.
Qed.

Lemma match_index_parts_witness :
  BookSourceRuleEngine.match_index (u "a" ++ u "[" ++ u "href" ++ u "]" ++ u "@href")
  = Some (u "a", u "href", u "@href")
  /\ BookSourceRuleEngine._parseSelector BookSourceRuleEngine.default_engine_options
       (u "@css:" ++ u "a" ++ u "[" ++ u "href" ++ u "]" ++ u "@href")
     = (u "css", u "a" ++ u "@href",
        Some (BookSourceRuleEngine._parseIndexExpression (u "href"))).
Proof.
  destruct (proj2 (match_index_parts (u "a") (u "href") (u "@href")))
    as [H1 H2]; try reflexivity; try discriminate.
  split; [exact H1 | apply H2].
Defined.

(* ================================================================== *)
(** ** Quoted literal text *)

Lemma replace_escape_none : forall c by_ text,
  lacks 92 text = true -> Text.replace_escape c by_ text = text.
Proof.
  intros c by_. induction text as [|x rest IH]; intros H; [reflexivity|].
  simpl in H. apply andb_true_iff in H as [Hx Hrest]. apply negb_true_iff in Hx.
  destruct rest as [|y rest']; [reflexivity|].
  change (Text.replace_escape c by_ (x :: y :: rest'))
    with (if N.eqb x 92 && N.eqb y c then by_ :: Text.replace_escape c by_ rest'
          else x :: Text.replace_escape c by_ (y :: rest')).
  rewrite Hx. cbn [andb]. now rewrite (IH Hrest).
Qed.

Lemma slice_quoted : forall q (body : jsstring), slice_1_m1 (q :: body ++ [q]) = body.
Proof.
  intros q body. unfold slice_1_m1. cbn [skipn List.length].
  rewrite length_app. cbn [List.length].
  replace (S (List.length body + 1) - 2) with (List.length body) by lia.
  rewrite firstn_app, Nat.sub_diag, firstn_all. cbn [firstn]. apply app_nil_r.
Qed.

Lemma endsWith_quoted : forall q (x : jsstring), endsWith [q] (x ++ [q]) = true.
Proof.
  intros q x. unfold endsWith. rewrite rev_app_distr. simpl. now rewrite N.eqb_refl.
Qed.

(** X16.  A literal between two quotation marks of the same kind, without
    backslash: [quotedTextSelector] gives the text between the marks as it
    is, and so does [RuleEngine.parseSingleSelector] on the rule [@text:]
    followed by the literal. *)
Theorem quotedTextSelector_unquotes :
  forall (q : N) (body : jsstring) (source : value),
    is_quote q = true ->
    lacks 92 body = true ->
    Text.quotedTextSelector source (q :: body ++ [q])
    = Normal (plain_result true (VStr body) (q :: body ++ [q]) (u "text"))
    /\ forall (AD : Adapters) (options : Options) (context : value),
         RuleEngine.parseSingleSelector AD options source
           (u "@text:" ++ q :: body ++ [q]) context
         = Normal (plain_result true (VStr body) (q :: body ++ [q]) (u "text")).
Proof.
  intros q body source Hquote Hbody.
  assert (Htest : (startsWith [34%N] (q :: body ++ [q]) && endsWith [34%N] (q :: body ++ [q]))
                  || (startsWith [39%N] (q :: body ++ [q]) && endsWith [39%N] (q :: body ++ [q]))
                  = true).
  { unfold is_quote in Hquote. apply orb_true_iff in Hquote as [H|H];
      apply N.eqb_eq in H; subst q.
    - change (34%N :: body ++ [34%N]) with ((34%N :: body) ++ [34%N]) at 2.
      rewrite endsWith_quoted. reflexivity.
    - change (39%N :: body ++ [39%N]) with ((39%N :: body) ++ [39%N]) at 4.
      rewrite endsWith_quoted. cbn [startsWith N.eqb Pos.eqb andb orb]. reflexivity. }
  assert (Hsel : Text.quotedTextSelector source (q :: body ++ [q])
                 = Normal (plain_result true (VStr body) (q :: body ++ [q]) (u "text"))).
  { unfold Text.quotedTextSelector. rewrite Htest, slice_quoted.
    now rewrite !(fun c by_ => @replace_escape_none c by_ body Hbody). }
  split; [exact Hsel|].
  intros AD options context. unfold RuleEngine.parseSingleSelector.
  assert (Htrim : trim (u "@text:" ++ q :: body ++ [q]) = u "@text:" ++ q :: body ++ [q]).
  { change (u "@text:" ++ q :: body ++ [q])
      with (64%N :: (u "text:" ++ q :: body) ++ [q]).
    apply trim_bracketed; [reflexivity | now apply is_quote_not_ws]. }
  rewrite Htrim.
  rewrite (startsWith_self_app (u "@text:")). rewrite Htrim.
  change (startsWith (u "@css:") (u "@text:" ++ q :: body ++ [q])) with false.
  change (startsWith (u "@XPath:") (u "@text:" ++ q :: body ++ [q])) with false.
  change (startsWith (u "@json:") (u "@text:" ++ q :: body ++ [q])) with false.
  change (startsWith (u "@regex:") (u "@text:" ++ q :: body ++ [q])) with false.
  change (startsWith (u "@js:") (u "@text:" ++ q :: body ++ [q])) with false.
  rewrite (startsWith_self_app (u "@text:")).
  change (substring 6 (u "@text:" ++ q :: body ++ [q])) with (q :: body ++ [q]).
  rewrite Htest. exact Hsel.
Qed.

Lemma quotedTextSelector_unquotes_witness :
  Text.quotedTextSelector Examples.html (34%N :: u " a || b " ++ [34%N])
  = Normal (plain_result true (VStr (u " a || b ")) (34%N :: u " a || b " ++ [34%N])
              (u "text")).
Proof.
  apply (proj1 (@quotedTextSelector_unquotes 34%N (u " a || b ") Examples.html
                  eq_refl eq_refl)).
Defined.

(* ================================================================== *)
(** ** More on the result cache *)

Section CacheSize.
Import BookSourceRuleEngine History.

Lemma cache_delete_length : forall (cache : Cache) k,
  List.length (cache_delete cache k) <= List.length cache.
Proof.
  induction cache as [|[k' e'] rest IH]; intros k; simpl; [lia|].
  destruct (str_eqb k' k); simpl; [lia|]. specialize (IH k). lia.
Qed.

Lemma cache_set_length : forall (cache : Cache) k e,
  List.length (cache_set cache k e) <= S (List.length cache).
Proof.
  induction cache as [|[k' e'] rest IH]; intros k e; simpl; [lia|].
  destruct (str_eqb k' k); simpl; [lia|]. specialize (IH k e). lia.
Qed.

Lemma cache_get_set : forall (cache : Cache) k e,
  cache_get (cache_set cache k e) k = Some e.
Proof.
  induction cache as [|[k' e'] rest IH]; intros k e; simpl.
  - now rewrite str_eqb_refl.
  - destruct (str_eqb k' k) eqn:E; simpl; rewrite E; [reflexivity | apply IH].
Qed.

Lemma cache_get_cacheResult : forall opts (cache : Cache) k r now,
  cache_get (_cacheResult opts cache k r now) k = Some {| result := r; timestamp := now |}.
Proof. intros. unfold _cacheResult. apply cache_get_set. Qed.

Lemma _cacheResult_length : forall opts (cache : Cache) k r now,
  List.length cache <= Nat.max (cache_maxSize opts) 1 ->
  List.length (_cacheResult opts cache k r now) <= Nat.max (cache_maxSize opts) 1.
Proof.
  intros opts cache k r now Hlen. unfold _cacheResult.
  destruct (cache_maxSize opts <=? List.length cache) eqn:Hfull.
  - destruct cache as [|[firstKey e] rest].
    + simpl. lia.
    + cbn [cache_delete]. rewrite str_eqb_refl.
      pose proof (cache_set_length rest k {| result := r; timestamp := now |}).
      simpl in Hlen. lia.
  - apply Nat.leb_gt in Hfull.
    pose proof (cache_set_length cache k {| result := r; timestamp := now |}). lia.
Qed.

Variable RE : RegExpEngine.
Variable AD : Adapters.
Variable opts : EngineOptions.

(** What a call can do to the cache. *)
Lemma parseRule_cache_cases : forall cache r source context_ t1 t2 out cache',
  parseRule RE AD opts cache r source context_ t1 t2 = Some (out, cache') ->
  exists cache1,
    (cache1 = cache \/ exists k, cache1 = cache_delete cache k)
    /\ (cache' = cache1 \/ exists k pr, cache' = _cacheResult opts cache1 k pr t2).
Proof.
  intros cache r source context_ t1 t2 out cache' Hrun.
  unfold parseRule, parseRule_try in Hrun.
  destruct r as [|c r'];
    [inversion Hrun; subst; eexists; split; left; reflexivity|].
  destruct (_generateCacheKey (c :: r') source context_) as [k | e];
    [|inversion Hrun; subst; eexists; split; left; reflexivity].
  assert (Hmiss : forall cache1,
    match _executeRule RE AD opts (c :: r') source context_ with
    | None => None
    | Some (Thrown e) => Some (failure_result (c :: r') e, cache1)
    | Some (Normal parseResult) =>
        if cache_enabled opts && success parseResult
        then Some (parseResult, _cacheResult opts cache1 k parseResult t2)
        else Some (parseResult, cache1)
    end = Some (out, cache') ->
    cache' = cache1 \/ exists k pr, cache' = _cacheResult opts cache1 k pr t2).
  { intros cache1 H.
    destruct (_executeRule RE AD opts (c :: r') source context_) as [[pr | e]|];
      [| inversion H; subst; now left | discriminate].
    destruct (cache_enabled opts && success pr); inversion H; subst;
      [right; eauto | now left]. }
  destruct (cache_enabled opts) eqn:Hen.
  - destruct (cache_get cache k) as [cached|].
    + destruct (t1 - timestamp cached <? cache_ttl opts)%Z.
      * inversion Hrun; subst. eexists. split; left; reflexivity.
      * exists (cache_delete cache k). split; [right; eauto|].
        apply Hmiss.
        destruct (_executeRule RE AD opts (c :: r') source context_) as [[pr | e]|];
          [| exact Hrun | exact Hrun].
        destruct (true && success pr); exact Hrun.
    + exists cache. split; [now left|].
      apply Hmiss.
      destruct (_executeRule RE AD opts (c :: r') source context_) as [[pr | e]|];
        [| exact Hrun | exact Hrun].
      destruct (true && success pr); exact Hrun.
  - exists cache. split; [now left|].
    apply Hmiss.
    destruct (_executeRule RE AD opts (c :: r') source context_) as [[pr | e]|];
      [| exact Hrun | exact Hrun].
    destruct (false && success pr); exact Hrun.
Qed.

Lemma parseRule_cache_length : forall cache r source context_ t1 t2 out cache',
  List.length cache <= Nat.max (cache_maxSize opts) 1 ->
  parseRule RE AD opts cache r source context_ t1 t2 = Some (out, cache') ->
  List.length cache' <= Nat.max (cache_maxSize opts) 1.
Proof.
  intros cache r source context_ t1 t2 out cache' Hlen Hrun.
  destruct (parseRule_cache_cases _ _ _ _ _ _ Hrun) as [cache1 [H1 H2]].
  assert (Hlen1 : List.length cache1 <= Nat.max (cache_maxSize opts) 1).
  { destruct H1 as [-> | [k ->]]; [exact Hlen|].
    pose proof (cache_delete_length cache k). lia. }
  destruct H2 as [-> | [k [pr ->]]]; [exact Hlen1|].
  now apply _cacheResult_length.
Qed.

Lemma replay_cache_length : forall history cache cache',
  List.length cache <= Nat.max (cache_maxSize opts) 1 ->
  replay RE AD opts cache history = Some cache' ->
  List.length cache' <= Nat.max (cache_maxSize opts) 1.
Proof.
  induction history as [|c rest IH]; intros cache cache' Hlen Hrun; simpl in Hrun.
  - injection Hrun as <-. exact Hlen.
  - destruct (parseRule RE AD opts cache (call_rule c) (call_source c) (call_context c)
                (call_lookup c) (call_store c)) as [[out cache1]|] eqn:E; [|discriminate].
    apply (IH cache1 cache'); [|exact Hrun].
    eapply parseRule_cache_length; eauto.
Qed.

End CacheSize.

(** X17.  Whatever calls an engine has served, its cache holds at most
    [cache.maxSize] entries, and at most one when [cache.maxSize] is 0. *)
Theorem cache_size_bounded :
  forall (RE : RegExpEngine) (AD : Adapters)
         (opts : BookSourceRuleEngine.EngineOptions)
         (history : list History.Call) (cache : BookSourceRuleEngine.Cache),
    History.replay RE AD opts [] history = Some cache ->
    List.length cache <= Nat.max (BookSourceRuleEngine.cache_maxSize opts) 1.
Proof.
  intros RE AD opts history cache Hrun.
  apply (@replay_cache_length RE AD opts history [] cache); [simpl; lia | exact Hrun].
Qed.

Lemma cache_size_bounded_witness :
  List.length Examples.title_cache
  <= Nat.max (BookSourceRuleEngine.cache_maxSize Examples.caching_options) 1.
Proof.
  apply (@cache_size_bounded Examples.digit_regexp Examples.sample_adapters
           Examples.caching_options [Examples.title_call] Examples.title_cache).
  reflexivity.
Defined.

(** X18.  A call that finds no entry under its key stores its result when
    the result is a success, and only then.  Until the entry is older than
    [cache.ttl], every call whose key is the same gets the stored result
    back, marked [fromCache], without any evaluation and without a change to
    the cache, whatever its own rule, source and context are. *)
Theorem cache_hit_within_ttl :
  forall (RE : RegExpEngine) (AD : Adapters)
         (opts : BookSourceRuleEngine.EngineOptions)
         (cache cache' : BookSourceRuleEngine.Cache)
         (r : jsstring) (source context : value) (t1 t2 : Z)
         (out : ParseResult) (k : jsstring),
    BookSourceRuleEngine.cache_enabled opts = true ->
    BookSourceRuleEngine._generateCacheKey r source context = Normal k ->
    BookSourceRuleEngine.cache_get cache k = None ->
    BookSourceRuleEngine.parseRule RE AD opts cache r source context t1 t2
    = Some (out, cache') ->
    (success out = false -> cache' = cache)
    /\ (success out = true ->
        forall (r' : jsstring) (source' context' : value) (t3 t4 : Z),
          r' <> [] ->
          BookSourceRuleEngine._generateCacheKey r' source' context' = Normal k ->
          (t3 - t2 < BookSourceRuleEngine.cache_ttl opts)%Z ->
          BookSourceRuleEngine.parseRule RE AD opts cache' r' source' context' t3 t4
          = Some (BookSourceRuleEngine.with_fromCache out, cache')).
Proof.
  intros RE AD opts cache cache' r source context t1 t2 out k Hen Hkey Hget Hrun.
  unfold BookSourceRuleEngine.parseRule, BookSourceRuleEngine.parseRule_try in Hrun.
  destruct r as [|c r0].
  { inversion Hrun; subst. split; [reflexivity | discriminate]. }
  rewrite Hkey, Hen, Hget in Hrun.
  destruct (BookSourceRuleEngine._executeRule RE AD opts (c :: r0) source context)
    as [[pr | e]|]; [| |discriminate].
  - destruct (success pr) eqn:Hok; cbn [andb] in Hrun; inversion Hrun; subst.
    + split; [congruence|]. intros _ r' source' context' t3 t4 Hr' Hkey' Httl.
      unfold BookSourceRuleEngine.parseRule, BookSourceRuleEngine.parseRule_try.
      destruct r' as [|c' r1]; [congruence|].
      rewrite Hkey', Hen, cache_get_cacheResult.
      cbn [BookSourceRuleEngine.timestamp BookSourceRuleEngine.result].
      apply Z.ltb_lt in Httl. rewrite Httl. reflexivity.
    + split; [reflexivity | congruence].
  - inversion Hrun; subst. split; [reflexivity | discriminate].
Qed.

Lemma cache_hit_within_ttl_witness :
  BookSourceRuleEngine.parseRule Examples.digit_regexp Examples.sample_adapters
    Examples.caching_options Examples.title_cache
    (u "@css:.title@text") Examples.html (VObj []) 5 6
  = Some (BookSourceRuleEngine.with_fromCache Examples.title_result, Examples.title_cache).
Proof.
  apply (proj2 (@cache_hit_within_ttl Examples.digit_regexp Examples.sample_adapters
                  Examples.caching_options [] Examples.title_cache
                  (u "@css:.title@text") Examples.html (VObj []) 0 1
                  Examples.title_result
                  (u "@css:.title@text|<div class='title'>T</div>|{}")
                  eq_refl eq_refl eq_refl eq_refl));
    [reflexivity | discriminate | reflexivity | reflexivity].
Defined.

(* ================================================================== *)
(** ** The conditional fallback operator *)

Section ConditionalProperties.
Import FallbackTools.
Variable St : Type.

Lemma conditional_loop_agrees :
  forall (cs : list (ConditionalSelector St)) i rules errs rules2 errs2 st out st',
    Fallback.fallback_loop (map (@cond_selector St) cs) i rules errs st
    = Some (inl out, st') ->
    exists out',
      conditional_loop cs i rules2 errs2 st = Some (inl out', st')
      /\ success out' = true
      /\ data out' = data out
      /\ usedRule out' = usedRule out
      /\ fallbackIndex out' = fallbackIndex out.
Proof.
  induction cs as [|c rest IH]; intros i rules errs rules2 errs2 st out st' H;
    [discriminate|].
  cbn [map Fallback.fallback_loop] in H. cbn [conditional_loop].
  destruct (execute (cond_selector c) st) as [[[r|e] st1]|]; [| |discriminate].
  - destruct (success r && negb (isEmpty (data r))).
    + injection H as <- <-. eexists. split; [reflexivity|]. repeat split.
    + eapply IH. exact H.
  - eapply IH. exact H.
Qed.

Lemma conditional_loop_failed : forall (cs : list (ConditionalSelector St)) st rs st1,
  executes (map (@cond_selector St) cs) st rs st1 ->
  all_failed rs ->
  forall i rules errs,
  exists rules' errs',
    conditional_loop cs i rules errs st = Some (inr (rules', errs'), st1).
Proof.
  induction cs as [|c rest IH]; intros st rs st1 Hrun Hfail i rules errs.
  - inversion Hrun; subst. simpl. eauto.
  - cbn [map] in Hrun. inversion Hrun as [|sel tl st0 r st2 rs' st3 Hex Hrest]; subst.
    inversion Hfail as [|r0 rs0 Hr Hrs]; subst.
    cbn [conditional_loop]. rewrite Hex.
    destruct r as [res|e].
    + simpl in Hr. rewrite Hr. eapply IH; eauto.
    + eapply IH; eauto.
Qed.

End ConditionalProperties.

(** X19.  [conditionalFallbackOperator] and [fallbackOperator] on the same
    selectors: when the second reports a success, the first reports the same
    data from the same selector, after the same calls.  When every attempt
    fails, the first returns the data [null] and, unlike the second, does not
    call the last selector again. *)
Theorem conditionalFallbackOperator_outcome :
  forall (St : Type) (cs : list (FallbackTools.ConditionalSelector St)) (st : St),
    (forall out st',
        Fallback.fallbackOperator (map (@FallbackTools.cond_selector St) cs) st
        = Some (out, st') ->
        success out = true ->
        exists out',
          FallbackTools.conditionalFallbackOperator cs st = Some (out', st')
          /\ success out' = true
          /\ data out' = data out
          /\ usedRule out' = usedRule out
          /\ fallbackIndex out' = fallbackIndex out)
    /\ (forall rs st1,
           executes (map (@FallbackTools.cond_selector St) cs) st rs st1 ->
           all_failed rs ->
           exists out,
             FallbackTools.conditionalFallbackOperator cs st = Some (out, st1)
             /\ success out = false
             /\ data out = VNull).
Proof.
  intros St cs st. split.
  - intros out st' H Hok. unfold Fallback.fallbackOperator in H.
    destruct (Fallback.fallback_loop (map (@FallbackTools.cond_selector St) cs) 0 [] [] st)
      as [[[r|[rules errs]] st1]|] eqn:Hloop; [| |discriminate].
    + injection H as <- <-.
      destruct (@conditional_loop_agrees St cs 0 [] [] [] [] st r st1 Hloop)
        as [out' [Hc Hrest]].
      exists out'. unfold FallbackTools.conditionalFallbackOperator. rewrite Hc.
      split; [reflexivity | exact Hrest].
    + exfalso.
      destruct (last (map Some (map (@FallbackTools.cond_selector St) cs)) None)
        as [lastSelector|].
      * destruct (execute lastSelector st1) as [[[lr|e] st2]|]; [| |discriminate];
          injection H as <- <-; discriminate.
      * injection H as <- <-. discriminate.
  - intros rs st1 Hrun Hfail.
    destruct (@conditional_loop_failed St cs st rs st1 Hrun Hfail 0 [] [])
      as [rules' [errs' Hloop]].
    unfold FallbackTools.conditionalFallbackOperator. rewrite Hloop.
    eexists. split; [reflexivity|]. split; reflexivity.
Qed.

Lemma conditionalFallbackOperator_outcome_witness :
  (exists out',
     FallbackTools.conditionalFallbackOperator
       [FallbackTools.mkConditional (u "exists") (Examples.sel_none 0);
        FallbackTools.mkConditional [] (Examples.sel_title 1)] []
     = Some (out', [0; 1])
     /\ success out' = true
     /\ data out' = VStr (u "T"))
  /\ (exists out,
        FallbackTools.conditionalFallbackOperator
          [FallbackTools.mkConditional [] (Examples.sel_none 0)] []
        = Some (out, [0])
        /\ success out = false
        /\ data out = VNull).
Proof.
  split.
  - destruct (proj1 (@conditionalFallbackOperator_outcome (list nat)
                       [FallbackTools.mkConditional (u "exists") (Examples.sel_none 0);
                        FallbackTools.mkConditional [] (Examples.sel_title 1)] [])
                (mkResult true (VStr (u "T"))
                   (u "@css:.none@text || @css:.title@text") (u "fallback") None []
                   (Some (u "@css:.title@text")) (Some 1) None None false)
                [0; 1] eq_refl eq_refl)
      as [out' [H1 [H2 [H3 _]]]].
    exists out'. split; [exact H1|]. split; [exact H2 | exact H3].
  - apply (proj2 (@conditionalFallbackOperator_outcome (list nat)
                    [FallbackTools.mkConditional [] (Examples.sel_none 0)] [])
             [Normal (plain_result false VNull (u ".none@text") (u "css"))] [0]).
    + econstructor; [reflexivity | constructor].
    + repeat constructor.
Defined.

(* ================================================================== *)
(** ** The validator of fallback rules *)

Lemma validate_each_errors : forall rules index errs warns,
  fst (FallbackTools.validate_each rules index errs warns) = []
  <-> errs = [] /\ Forall (fun r => r <> []) rules.
Proof.
  induction rules as [|r rest IH]; intros index errs warns.
  - simpl. split; [intros ->; split; [reflexivity | constructor] | now intros [-> _]].
  - cbn [FallbackTools.validate_each].
    destruct r as [|c r'].
    + rewrite IH. split.
      * intros [H _]. destruct errs; discriminate.
      * intros [_ H]. inversion H; subst. congruence.
    + assert (Hcons : forall e w,
                fst (FallbackTools.validate_each rest (S index) e w) = []
                <-> e = [] /\ Forall (fun r => r <> []) ((c :: r') :: rest)).
      { intros e w. rewrite IH. split.
        - intros [-> H]. split; [reflexivity|]. constructor; [discriminate | exact H].
        - intros [-> H]. inversion H; subst. split; [reflexivity | assumption]. }
      destruct (negb (existsb (fun prefix => startsWith prefix (c :: r'))
                        FallbackTools.supportedPrefixes)
                && negb (FallbackTools.is_selector_char c)); apply Hcons.
Qed.

(** X20.  [validateFallbackRules] reports an array of strings as valid
    exactly when the array is not empty and none of its strings is empty: a
    segment left empty by [parseFallbackRule] makes a rule invalid, and
    nothing else does.  Unless the last rule is a script with an apostrophe,
    the result carries the advice to end with a static default. *)
Theorem validateFallbackRules_valid_iff : forall rules,
  (FallbackTools.valid (FallbackTools.validateFallbackRules rules) = true
   <-> rules <> [] /\ Forall (fun r => r <> []) rules)
  /\ (rules <> [] ->
      startsWith (u "@js:") (last rules []) && includes [39%N] (last rules []) = false ->
      In msg_suggest_static
        (FallbackTools.warnings (FallbackTools.validateFallbackRules rules))).
Proof.
  intros rules. unfold FallbackTools.validateFallbackRules.
  destruct rules as [|r rest].
  - split.
    + simpl. split; [discriminate | intros [H _]; congruence].
    + congruence.
  - set (warns0 := match r :: rest with
                   | [_] => [msg_single_selector]
                   | _ => []
                   end).
    pose proof (validate_each_errors (r :: rest) 0 [] warns0) as Herrs.
    destruct (FallbackTools.validate_each (r :: rest) 0 [] warns0) as [errs warns].
    cbn [fst] in Herrs. split.
    + cbn [FallbackTools.valid]. split.
      * intros H. split; [discriminate|]. apply Herrs. destruct errs; [reflexivity | discriminate].
      * intros [_ H]. destruct Herrs as [_ Herrs]. now rewrite (Herrs (conj eq_refl H)).
    + intros _ Hlast. cbn [FallbackTools.warnings]. rewrite Hlast.
      apply in_or_app. right. left. reflexivity.
Qed.

Lemma validateFallbackRules_valid_iff_witness :
  FallbackTools.valid (FallbackTools.validateFallbackRules [u "@css:.a"; u "@text:x"])
  = true
  /\ In msg_suggest_static
       (FallbackTools.warnings (FallbackTools.validateFallbackRules [u "@css:.a"; u "@text:x"])).
Proof.
  split.
  - apply (proj2 (proj1 (validateFallbackRules_valid_iff [u "@css:.a"; u "@text:x"]))).
    split; [discriminate|]. repeat constructor; discriminate.
  - apply (proj2 (validateFallbackRules_valid_iff [u "@css:.a"; u "@text:x"]));
      [discriminate | reflexivity].
Defined.

(* ================================================================== *)
(** ** The operators in [BookSourceRuleEngine] *)

Section AsyncOperators.
Import BookSourceRuleEngine.

Lemma async_fallback_loop : forall rules i rs es,
  exists rs' es',
    Fallback.fallback_loop (map async_selector rules) i rs es tt
    = Some (inr (rs', es'), tt).
Proof.
  induction rules as [|r rest IH]; intros i rs es; simpl; eauto.
Qed.

Lemma async_executes : forall rules,
  executes (map async_selector rules) tt (map (fun _ => Normal promise_view) rules) tt.
Proof.
  induction rules as [|r rest IH]; simpl; [constructor|].
  econstructor; [reflexivity | exact IH].
Qed.

Lemma async_pieces : forall (rules : list jsstring),
  concat_pieces true (map (fun _ => Normal promise_view) rules) = [].
Proof. induction rules as [|r rest IH]; [reflexivity | exact IH]. Qed.

End AsyncOperators.



(* ================================================================== *)
(** ** Unquoted literal text and the pieces of a concatenation *)

Lemma dropWhile_app_all : forall (p : N -> bool) w s,
  forallb p w = true -> dropWhile p (w ++ s) = dropWhile p s.
Proof.
  induction w as [|c w IH]; intros s H; [reflexivity|].
  simpl in H. apply andb_true_iff in H as [Hc Hw]. simpl. rewrite Hc. now apply IH.
Qed.

Lemma dropWhile_stops : forall (p : N -> bool) l b m,
  p b = false -> exists y, dropWhile p (l ++ b :: m) = y ++ b :: m.
Proof.
  induction l as [|c l IH]; intros b m Hb.
  - exists []. simpl. now rewrite Hb.
  - simpl. destruct (p c); [now apply IH | now exists (c :: l)].
Qed.

(** Trimming the end leaves a prefix that ends with no white space. *)
Lemma trimEnd_prefix : forall p' b t,
  is_ws b = false -> exists x, trimEnd ((p' ++ [b]) ++ t) = (p' ++ [b]) ++ x.
Proof.
  intros p' b t Hb. unfold trimEnd.
  rewrite rev_app_distr, rev_app_distr. cbn [rev app].
  destruct (dropWhile_stops is_ws (rev t) b (rev p') Hb) as [y Hy].
  rewrite Hy. exists (rev y).
  rewrite rev_app_distr. cbn [rev]. now rewrite rev_involutive.
Qed.

(** X22.  The rule [@text:] followed by a text that is not between
    quotation marks: [RuleEngine.parseSingleSelector] returns the text as it
    is, white space at both ends included, and as a success even when the
    text is empty.  White space in front of the rule is not skipped when the
    text is cut out: after one space the text returned starts with the colon
    of the prefix. *)
Theorem text_rule_verbatim :
  forall (AD : Adapters) (options : Options) (source context : value) (t : jsstring),
    (startsWith [34%N] t && endsWith [34%N] t) || (startsWith [39%N] t && endsWith [39%N] t)
    = false ->
    RuleEngine.parseSingleSelector AD options source (u "@text:" ++ t) context
    = Normal (plain_result true (VStr t) t (u "text"))
    /\ RuleEngine.parseSingleSelector AD options source (u " @text:" ++ t) context
       = Normal (plain_result true (VStr (u ":" ++ t)) (u ":" ++ t) (u "text")).
Proof.
  intros AD options source context t Hplain.
  destruct (trimEnd_prefix (u "@text") 58 t eq_refl) as [x Hx].
  assert (Htrim1 : trim (u "@text:" ++ t) = u "@text:" ++ x) by exact Hx.
  assert (Htrim2 : trim (u " @text:" ++ t) = u "@text:" ++ x) by exact Hx.
  split.
  - unfold RuleEngine.parseSingleSelector. rewrite Htrim1.
    rewrite (startsWith_self_app (u "@text:")). rewrite Htrim1.
    change (startsWith (u "@css:") (u "@text:" ++ x)) with false.
    change (startsWith (u "@XPath:") (u "@text:" ++ x)) with false.
    change (startsWith (u "@json:") (u "@text:" ++ x)) with false.
    change (startsWith (u "@regex:") (u "@text:" ++ x)) with false.
    change (startsWith (u "@js:") (u "@text:" ++ x)) with false.
    rewrite (startsWith_self_app (u "@text:")).
    change (substring 6 (u "@text:" ++ t)) with t.
    rewrite Hplain. reflexivity.
  - unfold RuleEngine.parseSingleSelector. rewrite Htrim2.
    rewrite (startsWith_self_app (u "@text:")). rewrite Htrim2.
    change (startsWith (u "@css:") (u "@text:" ++ x)) with false.
    change (startsWith (u "@XPath:") (u "@text:" ++ x)) with false.
    change (startsWith (u "@json:") (u "@text:" ++ x)) with false.
    change (startsWith (u "@regex:") (u "@text:" ++ x)) with false.
    change (startsWith (u "@js:") (u "@text:" ++ x)) with false.
    rewrite (startsWith_self_app (u "@text:")).
    change (substring 6 (u " @text:" ++ t)) with (u ":" ++ t).
    change (startsWith [34%N] (u ":" ++ t)) with false.
    change (startsWith [39%N] (u ":" ++ t)) with false.
    reflexivity.
Qed.

Lemma text_rule_verbatim_witness :
  RuleEngine.parseSingleSelector Examples.sample_adapters default_options Examples.html
    (u "@text:" ++ u " - ") (VObj [])
  = Normal (plain_result true (VStr (u " - ")) (u " - ") (u "text"))
  /\ RuleEngine.parseSingleSelector Examples.sample_adapters default_options Examples.html
       (u " @text:" ++ u " - ") (VObj [])
     = Normal (plain_result true (VStr (u ":" ++ u " - ")) (u ":" ++ u " - ") (u "text")).
Proof.
  apply (@text_rule_verbatim Examples.sample_adapters default_options Examples.html
           (VObj []) (u " - ")).
  reflexivity.
Defined.

(** X23.  What a successful result of a selector other than the text
    selector contributes to a concatenation has no white space at either
    end, unless the data is an object. *)
Theorem processDataForConcat_trimmed : forall (d : value) (r : ParseResult),
  str_eqb (selector r) (u "text") = false ->
  (forall props, d <> VObj props) ->
  trim (Concat.processDataForConcat d r) = Concat.processDataForConcat d r.
Proof.
  intros d r Hsel Hobj. unfold Concat.processDataForConcat. rewrite Hsel.
  destruct d as [| |b|z|s|items|props];
    try reflexivity; try apply trim_idempotent.
  - destruct items; [reflexivity | apply trim_idempotent].
  - exfalso. now apply (Hobj props).
Qed.

Lemma processDataForConcat_trimmed_witness :
  trim (Concat.processDataForConcat (VArr [VStr (u " T "); VStr (u "U")]) Examples.title_result)
  = Concat.processDataForConcat (VArr [VStr (u " T "); VStr (u "U")]) Examples.title_result.
Proof.
  apply processDataForConcat_trimmed; [reflexivity | discriminate].
Defined.

(* ================================================================== *)
(** ** Rules with one operator in [RuleEngine] *)

Section EngineComposition.
Variable RE : RegExpEngine.
Variable AD : Adapters.
Variable options : Options.

Lemma parseRule_unfold_nonempty : forall fuel source r context,
  r <> [] ->
  RuleEngine.parseRule RE AD options (S fuel) source r context =
  if includes (u "||") r then
    RuleEngine.parseFallbackRule (RuleEngine.parseRule RE AD options fuel) source r context
  else if includes (u "&&") r then
    RuleEngine.parseConcatRule options (RuleEngine.parseRule RE AD options fuel)
      source r context
  else if includes (u "##") r then
    Some (RuleEngine.parseCleanRule RE AD options source r context)
  else Some (RuleEngine.parseSingleSelector AD options source r context).
Proof.
  intros fuel source r context Hr. rewrite parseRule_unfold.
  destruct r; [congruence | reflexivity].
Qed.

Lemma fallback_rule_first : forall fuel source context (A B : jsstring) rA,
  quote_free A = true -> lacks 124 A = true ->
  RuleEngine.parseRule RE AD options fuel source (trim A) context = Some (Normal rA) ->
  success rA = true ->
  isEmpty (data rA) = false ->
  exists out,
    RuleEngine.parseRule RE AD options (S fuel) source (A ++ u "||" ++ B) context
    = Some (Normal out)
    /\ success out = true /\ data out = data rA /\ fallbackIndex out = Some 0.
Proof.
  intros fuel source context A B rA Hq Hp HA Hok Hne.
  rewrite parseRule_unfold_nonempty by (destruct A; discriminate).
  rewrite (includes_middle (u "||") A B).
  unfold RuleEngine.parseFallbackRule.
  rewrite (parseFallbackRule_cons A B Hq Hp).
  cbn [map]. unfold Fallback.fallbackOperator.
  cbn [Fallback.fallback_loop execute]. unfold pure_execute at 1.
  rewrite HA, Hok, Hne. cbn [negb andb].
  eexists. split; [reflexivity|]. repeat split.
Qed.

Lemma fallback_rule_second : forall fuel source context (A B : jsstring) cA rB,
  quote_free A = true -> lacks 124 A = true ->
  quote_free B = true -> lacks 124 B = true ->
  trim B <> [] ->
  RuleEngine.parseRule RE AD options fuel source (trim A) context = Some cA ->
  succeeded cA = false ->
  RuleEngine.parseRule RE AD options fuel source (trim B) context = Some (Normal rB) ->
  success rB = true ->
  isEmpty (data rB) = false ->
  exists out,
    RuleEngine.parseRule RE AD options (S fuel) source (A ++ u "||" ++ B) context
    = Some (Normal out)
    /\ success out = true /\ data out = data rB /\ fallbackIndex out = Some 1.
Proof.
  intros fuel source context A B cA rB Hq Hp HqB HpB HB HA Hfail HrB Hok Hne.
  rewrite parseRule_unfold_nonempty by (destruct A; discriminate).
  rewrite (includes_middle (u "||") A B).
  unfold RuleEngine.parseFallbackRule.
  rewrite (parseFallbackRule_cons A B Hq Hp), (parseFallbackRule_plain B HqB HpB).
  destruct (trim B) as [|c t] eqn:EB; [congruence|].
  cbn [map]. unfold Fallback.fallbackOperator.
  cbn [Fallback.fallback_loop execute]. unfold pure_execute at 1.
  rewrite HA.
  destruct cA as [rA|e].
  - simpl in Hfail. rewrite Hfail.
    unfold pure_execute at 1. rewrite HrB, Hok, Hne. cbn [negb andb].
    eexists. split; [reflexivity|]. repeat split.
  - unfold pure_execute at 1. rewrite HrB, Hok, Hne. cbn [negb andb].
    eexists. split; [reflexivity|]. repeat split.
Qed.

End EngineComposition.

(** X24.  A fallback rule [A || B] in [RuleEngine], for [A] without
    quotation marks and vertical bars: when [A] succeeds, the rule gives the
    data of [A], whatever [B] is (a [B] that would never return included);
    when [A] fails or throws and [B], of the same kind, succeeds, the rule
    gives the data of [B]. *)
Theorem fallback_rule_branches :
  forall (RE : RegExpEngine) (AD : Adapters) (options : Options)
         (fuel : nat) (source context : value) (A B : jsstring),
    quote_free A = true -> lacks 124 A = true ->
    (forall rA,
        RuleEngine.parseRule RE AD options fuel source (trim A) context
        = Some (Normal rA) ->
        success rA = true ->
        isEmpty (data rA) = false ->
        exists out,
          RuleEngine.parseRule RE AD options (S fuel) source (A ++ u "||" ++ B) context
          = Some (Normal out)
          /\ success out = true /\ data out = data rA /\ fallbackIndex out = Some 0)
    /\ (forall cA rB,
           quote_free B = true -> lacks 124 B = true ->
           trim B <> [] ->
           RuleEngine.parseRule RE AD options fuel source (trim A) context = Some cA ->
           succeeded cA = false ->
           RuleEngine.parseRule RE AD options fuel source (trim B) context
           = Some (Normal rB) ->
           success rB = true ->
           isEmpty (data rB) = false ->
           exists out,
             RuleEngine.parseRule RE AD options (S fuel) source (A ++ u "||" ++ B) context
             = Some (Normal out)
             /\ success out = true /\ data out = data rB /\ fallbackIndex out = Some 1).
Proof.
  intros RE AD options fuel source context A B Hq Hp. split.
  - intros rA. now apply fallback_rule_first.
  - intros cA rB. now apply fallback_rule_second.
Qed.

Lemma fallback_rule_branches_witness :
  (exists out,
     RuleEngine.parseRule Examples.digit_regexp Examples.sample_adapters default_options 2
       Examples.html (u "@css:.title@text " ++ u "||" ++ u " @text:'a||b'") (VObj [])
     = Some (Normal out)
     /\ success out = true /\ data out = VStr (u "T") /\ fallbackIndex out = Some 0)
  /\ (exists out,
        RuleEngine.parseRule Examples.digit_regexp Examples.sample_adapters default_options 2
          Examples.html (u "@css:.none@text " ++ u "||" ++ u " @css:.title@text") (VObj [])
        = Some (Normal out)
        /\ success out = true /\ data out = VStr (u "T") /\ fallbackIndex out = Some 1).
Proof.
  split.
  - apply (proj1 (@fallback_rule_branches Examples.digit_regexp Examples.sample_adapters
                    default_options 1 Examples.html (VObj [])
                    (u "@css:.title@text ") (u " @text:'a||b'") eq_refl eq_refl)
             Examples.title_result); reflexivity.
  - apply (proj2 (@fallback_rule_branches Examples.digit_regexp Examples.sample_adapters
                    default_options 1 Examples.html (VObj [])
                    (u "@css:.none@text ") (u " @css:.title@text") eq_refl eq_refl)
             (Normal (plain_result false VNull (u ".none@text") (u "css")))
             Examples.title_result);
      try reflexivity; discriminate.
Defined.

Lemma skipn_length_app : forall (a l : jsstring) k,
  skipn (List.length a + k) (a ++ l) = skipn k l.
Proof. induction a as [|c a IH]; intros l k; [reflexivity | apply IH]. Qed.

Lemma firstn_length_app : forall (a l : jsstring), firstn (List.length a) (a ++ l) = a.
Proof.
  induction a as [|c a IH]; intros l; [reflexivity|]. simpl. now rewrite IH.
Qed.

Lemma is_space_ws : forall c, Concat.is_space c = true -> is_ws c = true.
Proof.
  intros c H. unfold Concat.is_space in H. apply N.eqb_eq in H. now subst c.
Qed.

(** A trimmed text that is not empty starts and ends with a code unit that
    is no space. *)
Lemma trimmed_ends : forall A,
  trim A = A -> A <> [] ->
  takeWhile Concat.is_space A = [] /\ takeWhile Concat.is_space (rev A) = [].
Proof.
  intros A Htrim HA. split.
  - pose proof (trimStart_trim A) as Hs. rewrite Htrim in Hs.
    destruct A as [|c A']; [congruence|].
    unfold trimStart in Hs. apply dropWhile_head in Hs.
    simpl. destruct (Concat.is_space c) eqn:E; [|reflexivity].
    apply is_space_ws in E. congruence.
  - pose proof (endsWithSpace_trimEnd (trimStart A)) as He.
    fold (trim A) in He. rewrite Htrim in He. unfold endsWithSpace in He.
    destruct (rev A) as [|c r] eqn:E.
    + reflexivity.
    + simpl. destruct (Concat.is_space c) eqn:Es; [|reflexivity].
      apply is_space_ws in Es. congruence.
Qed.

Lemma pushSegment_trimmed : forall rules A,
  trim A = A -> Concat.pushSegment rules A = rules ++ [A].
Proof.
  intros rules A Htrim. unfold Concat.pushSegment.
  rewrite Htrim, str_eqb_refl. cbn [negb andb]. now rewrite andb_false_r.
Qed.

(** Two trimmed texts without quotation marks and ampersands around one
    delimiter are the two segments of the rule. *)
Lemma parseConcatRule_two : forall A B,
  quote_free A = true -> lacks 38 A = true -> trim A = A -> A <> [] ->
  quote_free B = true -> lacks 38 B = true -> trim B = B -> B <> [] ->
  Concat.parseConcatRule (A ++ u " && " ++ B) = Normal [A; B].
Proof.
  intros A B HqA HaA HtA HA HqB HaB HtB HB.
  change (u " && " ++ B) with (32%N :: 38%N :: 38%N :: 32%N :: B).
  assert (Hend : forall (re : Concat.matcher) idx,
            re = Concat.checkRE \/ re = Concat.splitRE ->
            Concat.matchAll_from re B idx 0 = []).
  { intros re idx Hre. rewrite <- (app_nil_r B).
    now rewrite (@matchAll_from_plain re B [] idx Hre HqB HaB eq_refl). }
  assert (Hsplit : Concat.matchAll Concat.splitRE (A ++ 32%N :: 38%N :: 38%N :: 32%N :: B)
                   = [(List.length A, u " && ")]).
  { unfold Concat.matchAll.
    rewrite (@matchAll_from_plain Concat.splitRE A (32%N :: 38%N :: 38%N :: 32%N :: B) 0
               (or_intror eq_refl) HqA HaA eq_refl).
    cbn [Concat.matchAll_from].
    change (Concat.splitRE (32%N :: 38%N :: 38%N :: 32%N :: B)) with (Some 4).
    cbn [firstn Nat.sub Nat.add]. rewrite matchAll_from_skip.
    cbn [skipn]. now rewrite Hend by (now right). }
  assert (Hcheck : Concat.matchAll Concat.checkRE (A ++ 32%N :: 38%N :: 38%N :: 32%N :: B)
                   = [(S (List.length A), u "&&")]).
  { unfold Concat.matchAll.
    rewrite (@matchAll_from_plain Concat.checkRE A (32%N :: 38%N :: 38%N :: 32%N :: B) 0
               (or_introl eq_refl) HqA HaA eq_refl).
    rewrite matchAll_from_cons.
    change (Concat.checkRE (32%N :: 38%N :: 38%N :: 32%N :: B)) with (@None nat).
    cbv iota. rewrite matchAll_from_cons.
    change (Concat.checkRE (38%N :: 38%N :: 32%N :: B)) with (Some 2).
    cbv iota. cbn [firstn Nat.sub Nat.add]. rewrite matchAll_from_skip.
    cbn [skipn]. rewrite matchAll_from_cons.
    change (Concat.checkRE (32%N :: B)) with (@None nat).
    cbv iota. now rewrite Hend by (now left). }
  destruct (trimmed_ends HtA HA) as [_ HendA].
  destruct (trimmed_ends HtB HB) as [HstartB _].
  assert (Hlegal : Concat.illegal_spacing (A ++ 32%N :: 38%N :: 38%N :: 32%N :: B)
                     (S (List.length A)) = false).
  { unfold Concat.illegal_spacing, Concat.leftSpaces, Concat.rightSpaces.
    change (A ++ 32%N :: 38%N :: 38%N :: 32%N :: B)
      with (A ++ 32%N :: (38%N :: 38%N :: 32%N :: B)) at 1.
    rewrite firstn_past, rev_app_distr. cbn [rev app takeWhile Concat.is_space N.eqb Pos.eqb].
    rewrite HendA.
    replace (S (List.length A) + 2) with (List.length A + 3) by lia.
    rewrite skipn_length_app. cbn [skipn takeWhile Concat.is_space N.eqb Pos.eqb].
    rewrite HstartB. reflexivity. }
  unfold Concat.parseConcatRule. rewrite Hcheck, Hsplit.
  cbn [Concat.check_loop Concat.split_loop].
  rewrite !str_eqb_refl. cbn [negb]. rewrite Hlegal.
  unfold slice. rewrite Nat.sub_0_r. cbn [skipn].
  rewrite firstn_length_app, skipn_length_app. cbn [skipn].
  rewrite !pushSegment_trimmed by assumption. cbn [app andb existsb].
  destruct A as [|a A']; [congruence|]. destruct B as [|b B']; [congruence|].
  reflexivity.
Qed.

(** X25.  A concatenation rule [A && B] in [RuleEngine], for trimmed [A]
    and [B] without quotation marks, ampersands and [||]: the data is the
    join, with the separator of the options, of what the two segments
    contribute. *)
Theorem concat_rule_two_segments :
  forall (RE : RegExpEngine) (AD : Adapters) (options : Options)
         (fuel : nat) (source context : value) (A B : jsstring)
         (cA cB : completion ParseResult),
    quote_free A = true -> lacks 38 A = true -> trim A = A -> A <> [] ->
    quote_free B = true -> lacks 38 B = true -> trim B = B -> B <> [] ->
    includes (u "||") (A ++ u " && " ++ B) = false ->
    RuleEngine.parseRule RE AD options fuel source A context = Some cA ->
    RuleEngine.parseRule RE AD options fuel source B context = Some cB ->
    exists out,
      RuleEngine.parseRule RE AD options (S fuel) source (A ++ u " && " ++ B) context
      = Some (Normal out)
      /\ data out
         = VStr (join (separator options) (concat_pieces (ignoreEmpty options) [cA; cB]))
      /\ rule out = A ++ u " && " ++ B.
Proof.
  intros RE AD options fuel source context A B cA cB
         HqA HaA HtA HA HqB HaB HtB HB Hbar HcA HcB.
  rewrite parseRule_unfold_nonempty by (destruct A; discriminate).
  assert (Hamp : includes (u "&&") (A ++ u " && " ++ B) = true).
  { replace (A ++ u " && " ++ B) with ((A ++ [32%N]) ++ u "&&" ++ (32%N :: B))
      by (rewrite <- app_assoc; reflexivity).
    apply includes_middle. }
  rewrite Hbar, Hamp.
  unfold RuleEngine.parseConcatRule.
  rewrite (parseConcatRule_two HqA HaA HtA HA HqB HaB HtB HB). cbn [map].
  assert (Hrun : executes
            [mkSelector A (pure_execute (RuleEngine.parseRule RE AD options fuel source A context));
             mkSelector B (pure_execute (RuleEngine.parseRule RE AD options fuel source B context))]
            tt [cA; cB] tt).
  { econstructor; [cbn [execute]; unfold pure_execute; now rewrite HcA|].
    econstructor; [cbn [execute]; unfold pure_execute; now rewrite HcB|].
    constructor. }
  destruct (concat_loop_pieces Hrun (separator options) (ignoreEmpty options) 0 [] [] [])
    as [errs' [Hloop _]].
  unfold Concat.concatOperator. rewrite Hloop. cbn [app].
  eexists. split; [reflexivity|]. cbn [data rule map rule_or_unknown sel_rule].
  split; [reflexivity|].
  destruct A as [|a A']; [congruence|]. destruct B as [|b B']; [congruence|].
  reflexivity.
Qed.

Lemma concat_rule_two_segments_witness :
  exists out,
    RuleEngine.parseRule Examples.digit_regexp Examples.sample_adapters default_options 2
      Examples.html (u "@css:.title@text" ++ u " && " ++ u "@text: x") (VObj [])
    = Some (Normal out)
    /\ data out
       = VStr (join (separator default_options)
                 (concat_pieces (ignoreEmpty default_options)
                    [Normal Examples.title_result;
                     Normal (plain_result true (VStr (u " x")) (u " x") (u "text"))]))
    /\ rule out = u "@css:.title@text" ++ u " && " ++ u "@text: x".
Proof.
  apply (@concat_rule_two_segments Examples.digit_regexp Examples.sample_adapters
           default_options 1 Examples.html (VObj [])
           (u "@css:.title@text") (u "@text: x"));
    try reflexivity; discriminate.
Defined.

(* ================================================================== *)
(** ** Index expressions *)

Lemma split_char_none : forall c s cur,
  lacks c s = true -> split_char c cur s = [cur ++ s].
Proof.
  intros c. induction s as [|x s IH]; intros cur H.
  - simpl. now rewrite app_nil_r.
  - simpl in H. apply andb_true_iff in H as [Hx Hs]. apply negb_true_iff in Hx.
    simpl. rewrite Hx, (IH (cur ++ [x]) Hs), <- app_assoc. reflexivity.
Qed.

Lemma split_char_first : forall c a b cur,
  lacks c a = true -> split_char c cur (a ++ c :: b) = (cur ++ a) :: split_char c [] b.
Proof.
  intros c. induction a as [|x a IH]; intros b cur H.
  - simpl. now rewrite N.eqb_refl, app_nil_r.
  - simpl in H. apply andb_true_iff in H as [Hx Ha]. apply negb_true_iff in Hx.
    simpl. rewrite Hx, (IH b (cur ++ [x]) Ha), <- app_assoc. reflexivity.
Qed.

Lemma trim_blank : forall s, forallb is_ws s = true -> trim s = [].
Proof.
  intros s H. unfold trim, trimStart.
  rewrite <- (app_nil_r s), (dropWhile_app_all is_ws s [] H). reflexivity.
Qed.

(** X26.  A range between the brackets of a selector, [a:b] without any
    other colon: [_parseIndexExpression] reads the two bounds with
    [_parseIndexValue], also when they hold commas; a bound that is left out
    or blank is read as 0, so that an open end is the index 0. *)
Theorem index_range_bounds : forall a b,
  lacks 58 a = true ->
  lacks 58 b = true ->
  BookSourceRuleEngine._parseIndexExpression (a ++ u ":" ++ b)
  = BookSourceRuleEngine.IndexRange (BookSourceRuleEngine._parseIndexValue a)
      (BookSourceRuleEngine._parseIndexValue b)
  /\ (forallb is_ws b = true ->
      BookSourceRuleEngine._parseIndexExpression (a ++ u ":" ++ b)
      = BookSourceRuleEngine.IndexRange (BookSourceRuleEngine._parseIndexValue a) (VNum 0)).
Proof.
  intros a b Ha Hb.
  assert (Hrange : BookSourceRuleEngine._parseIndexExpression (a ++ u ":" ++ b)
                   = BookSourceRuleEngine.IndexRange
                       (BookSourceRuleEngine._parseIndexValue a)
                       (BookSourceRuleEngine._parseIndexValue b)).
  { unfold BookSourceRuleEngine._parseIndexExpression.
    rewrite (includes_middle (u ":") a b).
    change (a ++ u ":" ++ b) with (a ++ 58%N :: b).
    rewrite (split_char_first 58 a b [] Ha), (split_char_none 58 b [] Hb).
    reflexivity. }
  split; [exact Hrange|].
  intros Hblank. rewrite Hrange.
  unfold BookSourceRuleEngine._parseIndexValue at 2. now rewrite (trim_blank b Hblank).
Qed.

Lemma index_range_bounds_witness :
  BookSourceRuleEngine._parseIndexExpression (u "2" ++ u ":" ++ [])
  = BookSourceRuleEngine.IndexRange (BookSourceRuleEngine._parseIndexValue (u "2")) (VNum 0).
Proof.
  apply (proj2 (index_range_bounds (u "2") [] eq_refl eq_refl)). reflexivity.
Defined.

(* ================================================================== *)
(** ** Success and emptiness in the selectors and in the engines *)

Lemma fallbackOperator_empty_fails :
  forall (St : Type) (sels : list (Selector St)) (st st' : St) (out : ParseResult),
    Fallback.fallbackOperator sels st = Some (out, st') -> empty_fails out.
Proof.
  intros St sels st st' out H Hempty. unfold Fallback.fallbackOperator in H.
  destruct (Fallback.fallback_loop sels 0 [] [] st) as [[[r | [rules errs]] st1]|] eqn:Hloop;
    [| |discriminate].
  - inversion H; subst.
    apply fallback_loop_returns_non_empty in Hloop. destruct Hloop as [_ Hne].
    congruence.
  - destruct (last (map Some sels) None) as [lastSelector|].
    + destruct (execute lastSelector st1) as [[[lastResult | e] st2]|];
        [| |discriminate]; inversion H; subst; reflexivity.
    + inversion H; subst. reflexivity.
Qed.

Lemma concatOperator_empty_fails :
  forall (St : Type) (separator_ : jsstring) (ignoreEmpty_ : bool)
         (sels : list (Selector St)) (st st' : St) (out : ParseResult),
    Concat.concatOperator separator_ ignoreEmpty_ sels st = Some (out, st') ->
    empty_fails out.
Proof.
  intros St separator_ ignoreEmpty_ sels st st' out H Hempty.
  unfold Concat.concatOperator in H.
  destruct (Concat.concat_loop separator_ ignoreEmpty_ sels 0 [] [] [] st)
    as [[[[results errs] rules] st1]|]; [|discriminate].
  inversion H; subst. simpl in *. rewrite Hempty. reflexivity.
Qed.

Lemma regexCleanOperator_empty_fails :
  forall (RE : RegExpEngine) (text : value) (pattern replacement : jsstring)
         (options : Options) (out : ParseResult),
    RegexClean.regexCleanOperator RE text pattern replacement options = Normal out ->
    empty_fails out.
Proof.
  intros RE text pattern replacement options out H Hempty.
  unfold RegexClean.regexCleanOperator in H.
  destruct (RegexClean.cleanText RE text pattern replacement options) as [result | e];
    [|discriminate].
  inversion H; subst. simpl in *. rewrite Hempty. reflexivity.
Qed.

Lemma cssSelector_empty_fails :
  forall (cheerio : Css.Cheerio) (source : value) (selector_ : jsstring)
         (out : ParseResult),
    Css.cssSelector cheerio source selector_ = Normal out -> empty_fails out.
Proof.
  intros cheerio source selector_ out H Hempty. unfold Css.cssSelector in H.
  destruct (Css.parseCssExpression selector_) as [expression attribute].
  destruct (cheerio source expression attribute) as [elements | e]; [|discriminate].
  destruct elements as [|el els].
  - inversion H; subst. reflexivity.
  - inversion H; subst. simpl in *. rewrite Hempty. reflexivity.
Qed.

(** A result whose success is the negation of the emptiness of its data. *)
Lemma computed_empty_fails : forall (d : value) (r sel : jsstring),
  empty_fails (plain_result (negb (isEmpty d)) d r sel).
Proof. intros d r sel Hempty. simpl in *. rewrite Hempty. reflexivity. Qed.

Lemma failure_empty_fails : forall (out : ParseResult),
  success out = false -> empty_fails out.
Proof. intros out H _. exact H. Qed.

Lemma jsonSelector_empty_fails :
  forall (L : Json.JsonLibrary) (source : value) (path : jsstring) (out : ParseResult),
    Json.jsonSelector L source path = Normal out -> empty_fails out.
Proof.
  intros L source path out H. unfold Json.jsonSelector in H.
  destruct (Json.prepareJsonData L source) as [jsonData | e]; [|discriminate].
  destruct (Json.JSONPath_query L jsonData path) as [result | e]; [|discriminate].
  destruct (isEmpty (VArr result)); inversion H; subst.
  - apply failure_empty_fails. reflexivity.
  - apply computed_empty_fails.
Qed.

Lemma jsSelector_empty_fails :
  forall (run : Js.Script) (source : value) (code : jsstring) (context : value)
         (out : ParseResult),
    Js.jsSelector run source code context = Normal out -> empty_fails out.
Proof.
  intros run source code context out H. unfold Js.jsSelector in H.
  destruct (Js.executeJavaScript run code source context) as [result | e];
    [|discriminate].
  inversion H; subst. apply computed_empty_fails.
Qed.

Lemma xpathSelector_empty_fails :
  forall (L : XPath.XPathLibrary) (source : value) (expression : jsstring)
         (out : ParseResult),
    XPath.xpathSelector L source expression = Normal out -> empty_fails out.
Proof.
  intros L source expression out H. unfold XPath.xpathSelector in H.
  destruct (XPath.prepareDocument L source) as [doc | e]; [|discriminate].
  destruct (XPath.select L expression doc) as [result | e]; [|discriminate].
  destruct (XPath.isEmptySelection result); inversion H; subst.
  - apply failure_empty_fails. reflexivity.
  - apply computed_empty_fails.
Qed.

(** The parts that the split selector keeps are not empty. *)
Lemma keep_parts_non_empty : forall parts kept,
  Regex.keep_parts parts = Normal kept -> Forall (fun part => part <> []) kept.
Proof.
  induction parts as [|[part|] rest IH]; intros kept H; cbn [Regex.keep_parts] in H.
  - inversion H. constructor.
  - destruct (Regex.keep_parts rest) as [kept' | e]; [|discriminate].
    destruct (negb (isEmpty (VStr (trim part)))) eqn:Hkeep; inversion H; subst.
    + constructor; [|apply IH; reflexivity].
      intros ->. discriminate.
    + apply IH. reflexivity.
  - discriminate.
Qed.

Lemma regexSplitSelector_empty_fails :
  forall (R : Regex.RegExpRuntime) (source : value) (pattern : jsstring)
         (out : ParseResult),
    Regex.regexSplitSelector R source pattern = Normal out -> empty_fails out.
Proof.
  intros R source pattern out H. unfold Regex.regexSplitSelector in H.
  destruct (Regex.parseRegexPattern pattern false) as [regex flags_].
  destruct (Regex.compile R regex flags_) as [regexObj | e]; [|discriminate].
  destruct (Regex.keep_parts
              (Regex.split_by R regexObj (Regex.prepareTextSource source)))
    as [result | e] eqn:Hkeep; [|discriminate].
  apply keep_parts_non_empty in Hkeep.
  inversion H; subst. intros Hempty. simpl in *.
  destruct result as [|part [|part' rest]]; [reflexivity | | discriminate].
  inversion Hkeep; subst. destruct part; [congruence | discriminate].
Qed.

(** The selector of regular expressions respects the rule in its match, split
    and test operations. *)
Lemma regexSelector_verdict :
  forall (R : Regex.RegExpRuntime) (source : value) (pattern : jsstring)
         (options : Regex.MatchOptions) (out : ParseResult),
    Regex.regexSelector R source pattern options = Some (Normal out) ->
    empty_fails out
    \/ Regex.op_type (Regex.parseRegexOperation pattern) = Regex.OpReplace.
Proof.
  intros R source pattern options out H. unfold Regex.regexSelector in H.
  destruct (Regex.op_type (Regex.parseRegexOperation pattern)) eqn:Hop.
  - left.
    destruct (Regex.parseRegexPattern
                (Regex.op_pattern (Regex.parseRegexOperation pattern))
                (Regex.op_global (Regex.parseRegexOperation pattern)))
      as [regex flags_].
    destruct (Regex.executeRegexMatch R (Regex.prepareTextSource source) regex flags_
                options) as [[result | e]|]; [| discriminate | discriminate].
    destruct (isEmpty result) eqn:Hres; inversion H; subst.
    + apply failure_empty_fails. reflexivity.
    + intros Hempty. simpl in Hempty. congruence.
  - right. reflexivity.
  - left.
    destruct (Regex.regexSplitSelector R
                (VStr (Regex.prepareTextSource source))
                (Regex.op_pattern (Regex.parseRegexOperation pattern)))
      as [r | e] eqn:Hsplit; [|discriminate].
    inversion H; subst. eapply regexSplitSelector_empty_fails. exact Hsplit.
  - left.
    destruct (Regex.regexTestSelector R
                (VStr (Regex.prepareTextSource source))
                (Regex.op_pattern (Regex.parseRegexOperation pattern)))
      as [r | e] eqn:Htest; [|discriminate].
    inversion H; subst. unfold Regex.regexTestSelector in Htest.
    destruct (Regex.parseRegexPattern
                (Regex.op_pattern (Regex.parseRegexOperation pattern)) false)
      as [regex flags_].
    destruct (Regex.compile R regex flags_) as [regexObj | e]; [|discriminate].
    inversion Htest; subst. intros Hempty. discriminate.
Qed.

(** *** [RuleEngine] *)

Section RuleEngineVerdict.
Variable RE : RegExpEngine.
Variable AD : Adapters.
Variable options : Options.
Hypothesis json_ok : adapter_empty_fails (jsonSelector AD).
Hypothesis js_ok : adapter_empty_fails (jsSelector AD).

Lemma parseSingleSelector_verdict : forall source r context out,
  RuleEngine.parseSingleSelector AD options source r context = Normal out ->
  empty_fails out \/ RuleEngine_origin AD source context out.
Proof.
  intros source r context out H. unfold RuleEngine.parseSingleSelector in H.
  set (workingRule := if startsWith (u "@text:") (trim r) then r else trim r) in *.
  destruct (startsWith (u "@css:") (trim workingRule)).
  { destruct (includes (u ":contains(") (substring 5 (trim workingRule))).
    - right. right. right. right. eauto.
    - left. eapply cssSelector_empty_fails. exact H. }
  destruct (startsWith (u "@XPath:") (trim workingRule)).
  { inversion H; subst. left. apply failure_empty_fails. reflexivity. }
  destruct (startsWith (u "@json:") (trim workingRule)).
  { left. eapply json_ok. exact H. }
  destruct (startsWith (u "@regex:") (trim workingRule)).
  { right. right. right. left. eauto. }
  destruct (startsWith (u "@js:") (trim workingRule)).
  { destruct (negb (enableJS options)); [discriminate|].
    left. eapply js_ok. exact H. }
  destruct (startsWith (u "@text:") (trim workingRule)).
  { destruct ((startsWith [34%N] (substring 6 workingRule)
               && endsWith [34%N] (substring 6 workingRule))
              || (startsWith [39%N] (substring 6 workingRule)
                  && endsWith [39%N] (substring 6 workingRule))).
    - right. right. left. eauto.
    - right. left. eauto. }
  destruct (includes (u ":contains(") (trim workingRule)).
  - right. right. right. right. eauto.
  - left. eapply cssSelector_empty_fails. exact H.
Qed.

Lemma RuleEngine_parseCleanRule_verdict : forall source r context out,
  RuleEngine.parseCleanRule RE AD options source r context = Normal out ->
  empty_fails out \/ RuleEngine_origin AD source context out.
Proof.
  intros source r context out H. unfold RuleEngine.parseCleanRule in H.
  destruct (List.length (split_hashes [] r) <? 3); [discriminate|].
  destruct (RuleEngine.parseSingleSelector AD options source
              (nth 0 (split_hashes [] r) []) context) as [selectorResult | e] eqn:Hsel;
    [|discriminate].
  destruct (negb (success selectorResult) || isEmpty (data selectorResult)).
  - inversion H; subst. eapply parseSingleSelector_verdict. exact Hsel.
  - destruct (RegexClean.parseCleanRule
                (u "##" ++ nth 1 (split_hashes [] r) [] ++ u "##"
                 ++ join (u "##") (skipn 2 (split_hashes [] r))))
      as [[pattern replacement] | e]; [|discriminate].
    left. eapply regexCleanOperator_empty_fails. exact H.
Qed.

Lemma RuleEngine_parseRule_verdict : forall fuel source r context out,
  RuleEngine.parseRule RE AD options fuel source r context = Some (Normal out) ->
  empty_fails out \/ RuleEngine_origin AD source context out.
Proof.
  intros fuel source r context out H.
  destruct fuel as [|fuel]; [discriminate|].
  rewrite parseRule_unfold in H.
  destruct r as [|c r']; [discriminate|].
  destruct (includes (u "||") (c :: r')).
  { left. unfold RuleEngine.parseFallbackRule in H.
    destruct (Fallback.fallbackOperator
                (map (fun r0 => mkSelector r0
                        (pure_execute (RuleEngine.parseRule RE AD options fuel
                                         source r0 context)))
                     (Fallback.parseFallbackRule (c :: r'))) tt)
      as [[res st]|] eqn:Hop; [|discriminate].
    inversion H; subst. eapply fallbackOperator_empty_fails. exact Hop. }
  destruct (includes (u "&&") (c :: r')).
  { left. unfold RuleEngine.parseConcatRule in H.
    destruct (Concat.parseConcatRule (c :: r')) as [rules | e]; [|discriminate].
    destruct (Concat.concatOperator (separator options) (ignoreEmpty options)
                (map (fun r0 => mkSelector r0
                        (pure_execute (RuleEngine.parseRule RE AD options fuel
                                         source r0 context)))
                     rules) tt) as [[res st]|] eqn:Hop; [|discriminate].
    inversion H; subst. eapply concatOperator_empty_fails. exact Hop. }
  destruct (includes (u "##") (c :: r')).
  - inversion H as [H']. eapply RuleEngine_parseCleanRule_verdict. exact H'.
  - inversion H as [H']. eapply parseSingleSelector_verdict. exact H'.
Qed.

End RuleEngineVerdict.

(** *** [BookSourceRuleEngine] *)

Section BookSourceVerdict.
Import BookSourceRuleEngine.
Variable RE : RegExpEngine.
Variable AD : Adapters.
Variable opts : EngineOptions.
Hypothesis xpath_ok : adapter_empty_fails (xpathSelector AD).
Hypothesis json_ok : adapter_empty_fails (jsonSelector AD).
Hypothesis js_ok : adapter_empty_fails (jsSelector AD).

Local Abbreviation verdict r source out :=
  (empty_fails out \/ BookSource_origin RE AD opts r source out).

Lemma same_verdict_refl : forall r, same_verdict r r.
Proof. intros r. split; reflexivity. Qed.

Lemma empty_fails_same_verdict : forall a b,
  same_verdict a b -> empty_fails b -> empty_fails a.
Proof.
  intros a b [Hs Hd] Hb Hempty. rewrite Hs. apply Hb. rewrite <- Hd. exact Hempty.
Qed.

Lemma verdict_same : forall r source a b,
  same_verdict a b -> verdict r source b -> verdict r source a.
Proof.
  intros r source a b Hab [Hb | [origin [Hbo Horigin]]].
  - left. eapply empty_fails_same_verdict; eauto.
  - right. exists origin. split; [|exact Horigin].
    destruct Hab as [Hs Hd], Hbo as [Hs' Hd']. split; congruence.
Qed.

Lemma then_index_verdict : forall r source c index out,
  (forall res, c = Normal res -> verdict r source res) ->
  then_index AD c index = Normal out ->
  verdict r source out.
Proof.
  intros r source c index out Hc H. unfold then_index in H.
  destruct c as [res | e]; [|discriminate].
  unfold _applyIndexOptions in H.
  destruct (negb (success res)) eqn:Hfail.
  { inversion H; subst. left. apply failure_empty_fails.
    apply negb_true_iff in Hfail. exact Hfail. }
  destruct index as [spec|]; [|inversion H; subst; apply Hc; reflexivity].
  right.
  destruct spec as [a b | l | v].
  - destruct (rangeOperator AD (data res) a b) as [x | e] eqn:Hop; [|discriminate].
    inversion H; subst. exists x. split; [split; reflexivity|].
    right. right. right. right. left. eauto.
  - destruct (multiIndexOperator AD (data res) l) as [x | e] eqn:Hop; [|discriminate].
    inversion H; subst. exists x. split; [split; reflexivity|].
    right. right. right. right. right. eauto.
  - destruct (indexOperator AD (data res) v) as [x | e] eqn:Hop; [|discriminate].
    inversion H; subst. exists x. split; [split; reflexivity|].
    right. right. right. left. eauto.
Qed.

Lemma _handleSingleSelector_verdict : forall r0 r source context_ out,
  _handleSingleSelector AD opts r source context_ = Normal out ->
  verdict r0 source out.
Proof.
  intros r0 r source context_ out H. unfold _handleSingleSelector in H.
  destruct (_parseSelector opts r) as [[selectorType expression] index].
  destruct (str_eqb selectorType (u "css")).
  { destruct (includes (u ":contains(") expression).
    - right. exists out. split; [apply same_verdict_refl|].
      right. left. eauto.
    - eapply then_index_verdict; [|exact H].
      intros res Hres. left. eapply cssSelector_empty_fails. exact Hres. }
  destruct (str_eqb selectorType (u "xpath")).
  { eapply then_index_verdict; [|exact H].
    intros res Hres. left. eapply xpath_ok. exact Hres. }
  destruct (str_eqb selectorType (u "json")).
  { eapply then_index_verdict; [|exact H].
    intros res Hres. left. eapply json_ok. exact Hres. }
  destruct (str_eqb selectorType (u "regex")).
  { eapply then_index_verdict; [|exact H].
    intros res Hres. right. exists res. split; [apply same_verdict_refl|].
    left. eauto. }
  destruct (str_eqb selectorType (u "js")); [|discriminate].
  eapply then_index_verdict; [|exact H].
  intros res Hres. left. eapply js_ok. exact Hres.
Qed.

Lemma apply_clean_verdict : forall r source input out,
  includes (u "##") (trim r) = true ->
  apply_clean RE opts input (clean_pairs (skipn 1 (split_hashes [] (trim r)))) = Normal out ->
  verdict r source out.
Proof.
  intros r source input out Hh H. unfold apply_clean in H.
  assert (Hbatch :
            Normal (RegexClean.batchRegexCleanOperator RE input
                      (map (fun pr => RegexClean.RuleObject (fst pr) (snd pr))
                         (clean_pairs (skipn 1 (split_hashes [] (trim r)))))
                      (operators opts))
            = Normal out -> verdict r source out).
  { intros Hb. inversion Hb; subst. right.
    eexists. split; [apply same_verdict_refl|].
    right. right. left. split; [exact Hh|]. eauto. }
  destruct (clean_pairs (skipn 1 (split_hashes [] (trim r))))
    as [|[pattern replacement] [|second rest]].
  - apply Hbatch. exact H.
  - left. eapply regexCleanOperator_empty_fails. exact H.
  - apply Hbatch. exact H.
Qed.

Lemma _handleCleanRule_verdict : forall r source context_ out,
  includes (u "##") (trim r) = true ->
  _handleCleanRule RE AD opts (trim r) source context_ = Normal out ->
  verdict r source out.
Proof.
  intros r source context_ out Hh H. unfold _handleCleanRule in H.
  destruct (nth 0 (split_hashes [] (trim r)) []) as [|c selectorPart] eqn:Hpart.
  - eapply apply_clean_verdict; [exact Hh | exact H].
  - destruct (_handleSingleSelector AD opts (c :: selectorPart) source context_)
      as [selectorResult | e]; [|discriminate].
    destruct (negb (success selectorResult)) eqn:Hfail.
    + inversion H; subst. left. apply failure_empty_fails.
      apply negb_true_iff in Hfail. exact Hfail.
    + destruct (apply_clean RE opts (data selectorResult)
                  (clean_pairs (skipn 1 (split_hashes [] (trim r)))))
        as [cleanResult | e] eqn:Hclean; [|discriminate].
      inversion H; subst.
      eapply verdict_same; [|eapply apply_clean_verdict; [exact Hh | exact Hclean]].
      split; reflexivity.
Qed.

Lemma _executeRule_verdict : forall r source context_ out,
  _executeRule RE AD opts r source context_ = Some (Normal out) ->
  verdict r source out.
Proof.
  intros r source context_ out H. unfold _executeRule in H.
  destruct (includes (u "||") (trim r)).
  { left. unfold _handleFallbackRule in H.
    destruct (Fallback.fallbackOperator
                (map async_selector (Fallback.parseFallbackRule (trim r))) tt)
      as [[res st]|] eqn:Hop; [|discriminate].
    inversion H; subst. eapply fallbackOperator_empty_fails. exact Hop. }
  destruct (includes (u "&&") (trim r)).
  { left. unfold _handleConcatRule in H.
    destruct (Concat.parseConcatRule (trim r)) as [rules | e]; [|discriminate].
    destruct (Concat.concatOperator (separator (operators opts))
                (ignoreEmpty (operators opts)) (map async_selector rules) tt)
      as [[res st]|] eqn:Hop; [|discriminate].
    inversion H; subst. eapply concatOperator_empty_fails. exact Hop. }
  destruct (includes (u "##") (trim r)) eqn:Hh.
  - inversion H as [H']. eapply _handleCleanRule_verdict; [exact Hh | exact H'].
  - inversion H as [H']. eapply _handleSingleSelector_verdict. exact H'.
Qed.

(** What a call returns: the result of the evaluation, a failure, or an
    entry of the cache with the mark. *)
Lemma parseRule_result_cases : forall cache r source context_ t1 t2 out cache',
  parseRule RE AD opts cache r source context_ t1 t2 = Some (out, cache') ->
  _executeRule RE AD opts r source context_ = Some (Normal out)
  \/ (exists e, out = failure_result r e)
  \/ (exists k e, In (k, e) cache /\ out = with_fromCache (result e)).
Proof.
  intros cache r source context_ t1 t2 out cache' H.
  destruct (Promises.evaluates opts cache r source context_ t1) eqn:Hev.
  - destruct (@parseRule_evaluated RE AD opts cache r source context_ t1 t2 out cache'
                H Hev) as [Hthrow Hret].
    destruct (_executeRule RE AD opts r source context_) as [[res | e]|] eqn:Hex.
    + left. rewrite (Hret res eq_refl). reflexivity.
    + right. left. exists e. exact (Hthrow e eq_refl).
    + exfalso. exact (@_executeRule_total RE AD opts r source context_ Hex).
  - right. unfold parseRule, parseRule_try in H. unfold Promises.evaluates in Hev.
    destruct r as [|c r']; [inversion H; subst; left; eauto|].
    destruct (_generateCacheKey (c :: r') source context_) as [k | e];
      [|inversion H; subst; left; eauto].
    destruct (cache_enabled opts); [|discriminate].
    destruct (cache_get cache k) as [cached|] eqn:Hget; [|discriminate].
    destruct (t1 - timestamp cached <? cache_ttl opts)%Z; [|discriminate].
    inversion H; subst. right. exists k, cached. split; [|reflexivity].
    apply cache_get_In. exact Hget.
Qed.

(** The entries of the cache after a call: those of the cache before it, and
    what the evaluation of the rule returned. *)
Lemma parseRule_stores_result : forall cache r source context_ t1 t2 out cache',
  parseRule RE AD opts cache r source context_ t1 t2 = Some (out, cache') ->
  forall k e,
    In (k, e) cache' ->
    In (k, e) cache
    \/ _executeRule RE AD opts r source context_ = Some (Normal (result e)).
Proof.
  intros cache r source context_ t1 t2 out cache' Hrun k0 e0 Hin.
  unfold parseRule, parseRule_try in Hrun.
  destruct r as [|c r']; [inversion Hrun; subst; left; exact Hin|].
  destruct (_generateCacheKey (c :: r') source context_) as [k | e];
    [|inversion Hrun; subst; left; exact Hin].
  assert (Hmiss : forall cache1,
    (forall x, In x cache1 -> In x cache) ->
    match _executeRule RE AD opts (c :: r') source context_ with
    | None => None
    | Some (Thrown e) => Some (failure_result (c :: r') e, cache1)
    | Some (Normal parseResult) =>
        if cache_enabled opts && success parseResult
        then Some (parseResult, _cacheResult opts cache1 k parseResult t2)
        else Some (parseResult, cache1)
    end = Some (out, cache') ->
    In (k0, e0) cache
    \/ _executeRule RE AD opts (c :: r') source context_ = Some (Normal (result e0))).
  { intros cache1 Hsub H.
    destruct (_executeRule RE AD opts (c :: r') source context_) as [[pr | e]|];
      [| inversion H; subst; left; apply Hsub; exact Hin | discriminate].
    destruct (cache_enabled opts && success pr); inversion H; subst.
    - destruct (In_cacheResult _ _ _ _ _ _ _ Hin) as [Hold | [_ Hnew]].
      + left. apply Hsub. exact Hold.
      + right. rewrite Hnew. reflexivity.
    - left. apply Hsub. exact Hin. }
  destruct (cache_enabled opts).
  - destruct (cache_get cache k) as [cached|].
    + destruct (t1 - timestamp cached <? cache_ttl opts)%Z.
      * inversion Hrun; subst. left. exact Hin.
      * apply (Hmiss (cache_delete cache k)).
        { intros x Hx. eapply In_cache_delete. exact Hx. }
        destruct (_executeRule RE AD opts (c :: r') source context_) as [[pr | e]|];
          [| exact Hrun | exact Hrun].
        destruct (true && success pr); exact Hrun.
    + apply (Hmiss cache); [intros x Hx; exact Hx|].
      destruct (_executeRule RE AD opts (c :: r') source context_) as [[pr | e]|];
        [| exact Hrun | exact Hrun].
      destruct (true && success pr); exact Hrun.
  - apply (Hmiss cache); [intros x Hx; exact Hx|].
    destruct (_executeRule RE AD opts (c :: r') source context_) as [[pr | e]|];
      [| exact Hrun | exact Hrun].
    destruct (false && success pr); exact Hrun.
Qed.

(** The cache of an engine holds what the evaluations of its calls
    returned. *)
Lemma replay_entries : forall history cache cache',
  History.replay RE AD opts cache history = Some cache' ->
  forall k e,
    In (k, e) cache' ->
    In (k, e) cache
    \/ exists c,
         In c history
         /\ _executeRule RE AD opts (History.call_rule c) (History.call_source c)
              (History.call_context c) = Some (Normal (result e)).
Proof.
  induction history as [|c history IH]; simpl; intros cache cache' Hrun k e Hin.
  - inversion Hrun; subst. left. exact Hin.
  - destruct (parseRule RE AD opts cache (History.call_rule c) (History.call_source c)
                (History.call_context c) (History.call_lookup c) (History.call_store c))
      as [[out cache1]|] eqn:Hstep; [|discriminate].
    destruct (IH cache1 cache' Hrun k e Hin) as [Hold | [c' [Hc' Hex]]].
    + destruct (@parseRule_stores_result _ _ _ _ _ _ _ _ Hstep k e Hold) as [H0 | Hex].
      * left. exact H0.
      * right. exists c. split; [left; reflexivity | exact Hex].
    + right. exists c'. split; [right; exact Hc' | exact Hex].
Qed.

Lemma BookSource_parseRule_verdict :
  forall history cache r source context_ t1 t2 out cache',
    History.replay RE AD opts [] history = Some cache ->
    parseRule RE AD opts cache r source context_ t1 t2 = Some (out, cache') ->
    verdict r source out
    \/ exists c res,
         In c history
         /\ out = with_fromCache res
         /\ _executeRule RE AD opts (History.call_rule c) (History.call_source c)
              (History.call_context c) = Some (Normal res)
         /\ verdict (History.call_rule c) (History.call_source c) res.
Proof.
  intros history cache r source context_ t1 t2 out cache' Hreplay Hrun.
  destruct (@parseRule_result_cases _ _ _ _ _ _ _ _ Hrun)
    as [Hex | [[e ->] | [k [e [Hin ->]]]]].
  - left. eapply _executeRule_verdict. exact Hex.
  - left. left. apply failure_empty_fails. reflexivity.
  - right. destruct (@replay_entries history [] cache Hreplay k e Hin) as [[] | [c [Hc Hex]]].
    exists c, (result e). split; [exact Hc|]. split; [reflexivity|].
    split; [exact Hex|]. eapply _executeRule_verdict. exact Hex.
Qed.

End BookSourceVerdict.


Lemma repository_adapters_empty_fails :
  forall (cheerio_ : Css.Cheerio) (dom : CssContains.Dom) (json : Json.JsonLibrary)
         (run : Js.Script) (xpath : XPath.XPathLibrary) (others : Adapters),
    adapter_empty_fails
      (xpathSelector (repository_adapters cheerio_ dom json run xpath others))
    /\ adapter_empty_fails
         (jsonSelector (repository_adapters cheerio_ dom json run xpath others))
    /\ adapter_empty_fails
         (jsSelector (repository_adapters cheerio_ dom json run xpath others)).
Proof.
  intros cheerio_ dom json run xpath others. split; [|split];
    intros source expression third out H; cbn in H.
  - eapply xpathSelector_empty_fails. exact H.
  - eapply jsonSelector_empty_fails. exact H.
  - eapply jsSelector_empty_fails. exact H.
Qed.


